(** * ParadoxModPatcher: a shallow embedding of the merge engine

    The Python sources embedded here are
    - [src/core/pdx_parser.py]            (PdxParser, PdxSerializer),
    - [src/core/paradox_rules.py]         (rule book, StructureValidator),
    - [src/core/structural_merger.py]     (StructuralMerger),
    - [src/core/smart_patch_generator.py] (SmartPatchGenerator.generate_patch).

    Text is a list of characters.  A character is a code point below 256
    ([ascii]); the Python primitives used by the sources ([str.strip],
    [str.split], [str.replace], [re.match], ...) are written out below with
    the behaviour they have on such text. *)

From Stdlib Require Import List Ascii ZArith Lia Bool Arith Permutation.
From Stdlib Require Strings.String.
From Stdlib Require Import DecimalString.
Import ListNotations String.StringSyntax.
Open Scope string_scope.
Open Scope nat_scope.
Open Scope list_scope.

Definition str := list ascii.
Coercion String.list_ascii_of_string : String.string >-> list.

(** ** Python string primitives *)

Module Py.

Definition chr_eqb (a b : ascii) : bool := Ascii.eqb a b.

Fixpoint str_eqb (a b : str) : bool :=
  match a, b with
  | [], [] => true
  | x :: a', y :: b' => chr_eqb x y && str_eqb a' b'
  | _, _ => false
  end.

Definition code (c : ascii) : nat := nat_of_ascii c.

Definition in_range (lo hi : nat) (c : ascii) : bool :=
  (lo <=? code c) && (code c <=? hi).

(** [str.isspace] on one code point below 256; the same set is what [\s]
    matches in a [str] pattern and what [strip] removes. *)
Definition isspace (c : ascii) : bool :=
  in_range 9 13 c || in_range 28 32 c || (code c =? 133) || (code c =? 160).

Definition NL : ascii := ascii_of_nat 10.
Definition CR : ascii := ascii_of_nat 13.
Definition TAB : ascii := ascii_of_nat 9.
Definition QUOTE : ascii := ascii_of_nat 34.
Definition BACKSLASH : ascii := ascii_of_nat 92.

(** [s.lstrip()], [s.rstrip()], [s.strip()] *)
Fixpoint lstrip (s : str) : str :=
  match s with
  | c :: r => if isspace c then lstrip r else s
  | [] => []
  end.

Definition rstrip (s : str) : str := rev (lstrip (rev s)).

Definition strip (s : str) : str := rstrip (lstrip s).

(** [s.rstrip(chars)] *)
Fixpoint lstrip_chars (chars : str) (s : str) : str :=
  match s with
  | c :: r => if existsb (chr_eqb c) chars then lstrip_chars chars r else s
  | [] => []
  end.

Definition rstrip_chars (chars : str) (s : str) : str :=
  rev (lstrip_chars chars (rev s)).

(** [s.startswith(p)], [s.endswith(p)] *)
Fixpoint startswith (s p : str) : bool :=
  match p, s with
  | [], _ => true
  | x :: p', y :: s' => chr_eqb x y && startswith s' p'
  | _ :: _, [] => false
  end.

Definition endswith (s p : str) : bool := startswith (rev s) (rev p).

(** [p in s] for a substring [p] *)
Fixpoint contains (s p : str) : bool :=
  startswith s p ||
  match s with
  | [] => false
  | _ :: r => contains r p
  end.

(** [s.count(c)] for a one-character [c] *)
Fixpoint count (s : str) (c : ascii) : Z :=
  match s with
  | [] => 0
  | x :: r => (if chr_eqb x c then 1 else 0) + count r c
  end%Z.

(** [s.split(sep)] for a one-character separator: never an empty list. *)
Fixpoint split (s : str) (sep : ascii) : list str :=
  match s with
  | [] => [[]]
  | c :: r =>
      if chr_eqb c sep then [] :: split r sep
      else match split r sep with
           | h :: t => (c :: h) :: t
           | [] => [[c]]
           end
  end.

(** [sep.join(parts)] *)
Fixpoint join (sep : str) (parts : list str) : str :=
  match parts with
  | [] => []
  | [p] => p
  | p :: rest => p ++ sep ++ join sep rest
  end.

(** [s.find(p)]: the least index at which [p] occurs, or -1. *)
Fixpoint find_from (s p : str) (i : Z) : Z :=
  if startswith s p then i
  else match s with
       | [] => (-1)%Z
       | _ :: r => find_from r p (i + 1)%Z
       end.

Definition find (s p : str) : Z := find_from s p 0%Z.

(** [s.rfind(c)] for a one-character [c]: the greatest index, or -1. *)
Fixpoint rfind_from (s : str) (c : ascii) (i : Z) (last : Z) : Z :=
  match s with
  | [] => last
  | x :: r => rfind_from r c (i + 1)%Z (if chr_eqb x c then i else last)
  end.

Definition rfind (s : str) (c : ascii) : Z := rfind_from s c 0%Z (-1)%Z.

(** Slices [s[:j]], [s[i:]] and [s[i:j]] for indices that are not negative
    (every slice bound in the sources is guarded or computed to be so);
    out of range bounds are clipped as Python does. *)
Definition upto (s : str) (j : Z) : str := firstn (Z.to_nat j) s.
Definition from (s : str) (i : Z) : str := skipn (Z.to_nat i) s.
Definition slice (s : str) (i j : Z) : str := from (upto s j) i.

Definition len (s : str) : Z := Z.of_nat (length s).

(** [s.replace(old, new, 1)] *)
Fixpoint replace1 (s old new : str) : str :=
  if startswith s old then new ++ skipn (length old) s
  else match s with
       | [] => []
       | c :: r => c :: replace1 r old new
       end.

(** [s.replace(old, new)] for a non-empty [old]: every occurrence, left to
    right, without overlap.  [fuel] bounds the number of characters. *)
Fixpoint replace_fuel (fuel : nat) (s old new : str) : str :=
  match fuel with
  | O => s
  | S fuel' =>
      if startswith s old then new ++ replace_fuel fuel' (skipn (length old) s) old new
      else match s with
           | [] => []
           | c :: r => c :: replace_fuel fuel' r old new
           end
  end.

Definition replace (s old new : str) : str :=
  replace_fuel (S (length s)) s old new.

(** [s.lower()] on code points below 256. *)
Definition lower_chr (c : ascii) : ascii :=
  if in_range 65 90 c then ascii_of_nat (code c + 32)
  else if in_range 192 222 c && negb (code c =? 215) then ascii_of_nat (code c + 32)
  else c.

Definition lower (s : str) : str := map lower_chr s.

(** ['\t' * n] *)
Definition tabs (n : nat) : str := repeat TAB n.

(** [str(n)] for a natural number *)
Definition str_of_nat (n : nat) : str :=
  String.list_ascii_of_string (NilZero.string_of_uint (Nat.to_uint n)).

(** [s.split()]: the maximal runs of characters that are not white space. *)
Fixpoint split_ws_from (s : str) (current : str) : list str :=
  match s with
  | [] => match current with [] => [] | _ => [current] end
  | c :: r =>
      if isspace c then
        match current with
        | [] => split_ws_from r []
        | _ => current :: split_ws_from r []
        end
      else split_ws_from r (current ++ [c])
  end.

Definition split_ws (s : str) : list str := split_ws_from s [].

(** [line[:len(line) - len(t)]] for a [t] that is not longer than [line] *)
Definition prefix_minus (line t : str) : str :=
  firstn (length line - length t) line.

(** truth value of a string: non-empty *)
Definition nonempty (s : str) : bool :=
  match s with [] => false | _ => true end.

End Py.

(** ** Regular expressions

    Every pattern of the sources is a sequence of character classes, each
    taken once or under [*], [+] or the lazy [*?], with the anchors [^], [$]
    and groups around consecutive items.  [rmatch] is the backtracking
    matcher of Python's [re] on that fragment: it tries the alternatives of
    each quantifier in Python's order (greedy: longest first; lazy: shortest
    first) and returns the text taken by each item of the first success. *)

Module Re.

Inductive atom : Type :=
| One (cls : ascii -> bool)
| Star (cls : ascii -> bool)
| Plus (cls : ascii -> bool)
| LazyStar (cls : ascii -> bool)
| Eol.

Definition chr (c : ascii) : ascii -> bool := fun x => Py.chr_eqb x c.
Definition space : ascii -> bool := Py.isspace.
Definition digit : ascii -> bool := Py.in_range 48 57.
Definition lower_az : ascii -> bool := Py.in_range 97 122.
Definition upper_az : ascii -> bool := Py.in_range 65 90.
Definition underscore : ascii -> bool := chr "_".
Definition dot_any : ascii -> bool := fun x => negb (Py.chr_eqb x Py.NL).
Definition union (a b : ascii -> bool) : ascii -> bool := fun x => a x || b x.

(** [[a-zA-Z0-9_]] (this is also [\w] below 128) *)
Definition word : ascii -> bool :=
  union lower_az (union upper_az (union digit underscore)).
(** [[a-zA-Z0-9_\.:]] *)
Definition ident : ascii -> bool := union word (union (chr ".") (chr ":")).
(** [[a-zA-Z0-9_\.]] *)
Definition ident_nocolon : ascii -> bool := union word (chr ".").
(** [[a-zA-Z0-9_\.:\s]] *)
Definition ident_or_space : ascii -> bool := union ident space.
(** [[a-z_]] *)
Definition lower_us : ascii -> bool := union lower_az underscore.

(** [$] without MULTILINE: at the end, or before a final newline. *)
Definition at_eol (s : str) : bool :=
  match s with
  | [] => true
  | [c] => Py.chr_eqb c Py.NL
  | _ => false
  end.

(** A match: the text taken by each item, in order, and the unread rest. *)
Definition result : Type := list str * str.

(** The continuation of a quantifier: the text [m] it takes, then the rest
    of the pattern on the rest of the input. *)
Definition cont : Type := str -> str -> option result.

(** Greedy repetition: one more character is tried first; the continuation
    is tried when that fails. *)
Fixpoint greedy (cls : ascii -> bool) (k : cont) (acc : str) (s : str) : option result :=
  match s with
  | c :: r =>
      if cls c then
        match greedy cls k (acc ++ [c]) r with
        | Some res => Some res
        | None => k acc s
        end
      else k acc s
  | [] => k acc s
  end.

(** Lazy repetition: the continuation is tried first. *)
Fixpoint lazy (cls : ascii -> bool) (k : cont) (acc : str) (s : str) : option result :=
  match k acc s with
  | Some res => Some res
  | None =>
      match s with
      | c :: r => if cls c then lazy cls k (acc ++ [c]) r else None
      | [] => None
      end
  end.

Definition push (m : str) (r : option result) : option result :=
  match r with
  | Some (ms, rest) => Some (m :: ms, rest)
  | None => None
  end.

(** [rmatch p s]: the pattern [p] matched at the start of [s]. *)
Fixpoint rmatch (p : list atom) (s : str) {struct p} : option result :=
  match p with
  | [] => Some ([], s)
  | a :: p' =>
      let k : cont := fun m rest => push m (rmatch p' rest) in
      match a with
      | Eol => if at_eol s then k [] s else None
      | One cls =>
          match s with
          | c :: r => if cls c then k [c] r else None
          | [] => None
          end
      | Star cls => greedy cls k [] s
      | Plus cls =>
          match s with
          | c :: r => if cls c then greedy cls k [c] r else None
          | [] => None
          end
      | LazyStar cls => lazy cls k [] s
      end
  end.

(** The text of item [i] of a match. *)
Definition item (ms : list str) (i : nat) : str := nth i ms [].

(** The text of the items [i .. j-1] of a match (a group). *)
Definition group (ms : list str) (i j : nat) : str :=
  concat (firstn (j - i) (skipn i ms)).

(** The whole matched text. *)
Definition matched (ms : list str) : str := concat ms.

(** [re.search(p, s)]: the leftmost match; the result also gives the text
    before the match. *)
Fixpoint search_from (p : list atom) (pre : str) (s : str)
  : option (str * list str * str) :=
  match rmatch p s with
  | Some (ms, rest) => Some (pre, ms, rest)
  | None =>
      match s with
      | [] => None
      | c :: r => search_from p (pre ++ [c]) r
      end
  end.

Definition search (p : list atom) (s : str) : option (str * list str * str) :=
  search_from p [] s.

End Re.

(** ** [re.findall] / [re.finditer]

    The scan of [re.finditer]: at each position the pattern is tried; after a
    match the scan resumes at its end.  No pattern of the sources matches the
    empty text.  [bol] asks for a line start ([^] under [re.MULTILINE]);
    [wb] asks for a word boundary before the match ([\b] in front of a word
    character).  Each match comes with the text that follows it. *)

Module ReScan.

(** [\w] of a [str] pattern on code points below 256. *)
Definition unicode_word (c : ascii) : bool :=
  Re.word c ||
  existsb (Nat.eqb (Py.code c)) [170; 178; 179; 181; 185; 186; 188; 189; 190] ||
  (Py.in_range 192 255 c && negb (Py.code c =? 215) && negb (Py.code c =? 247)).

Inductive anchor := Anywhere | Bol | WordBoundary.

Definition anchor_ok (a : anchor) (prev : option ascii) : bool :=
  match a, prev with
  | Anywhere, _ => true
  | Bol, None => true
  | Bol, Some c => Py.chr_eqb c Py.NL
  | WordBoundary, None => true
  | WordBoundary, Some c => negb (unicode_word c)
  end.

Fixpoint finditer_from (a : anchor) (p : list Re.atom) (prev : option ascii)
    (skip : nat) (s : str) : list (list str * str) :=
  match skip with
  | S k =>
      match s with
      | [] => []
      | c :: r => finditer_from a p (Some c) k r
      end
  | O =>
      match (if anchor_ok a prev then Re.rmatch p s else None) with
      | Some (ms, rest) =>
          (ms, rest) ::
          match s with
          | [] => []
          | c :: r => finditer_from a p (Some c) (length (Re.matched ms) - 1) r
          end
      | None =>
          match s with
          | [] => []
          | c :: r => finditer_from a p (Some c) 0 r
          end
      end
  end.

Definition finditer (a : anchor) (p : list Re.atom) (s : str) : list (list str * str) :=
  finditer_from a p None 0 s.

End ReScan.

(** ** Ordered dictionaries

    A Python [dict] keeps its keys in insertion order, and assigning to a key
    that is present keeps the key's place.  The mergers iterate over their
    dictionaries, so the order is part of the behaviour. *)

Module Dict.

Section WithValue.
Context {V : Type}.

Definition t := list (str * V).

Fixpoint get (d : t) (k : str) : option V :=
  match d with
  | [] => None
  | (k', v) :: d' => if Py.str_eqb k' k then Some v else get d' k
  end.

Fixpoint set (d : t) (k : str) (v : V) : t :=
  match d with
  | [] => [(k, v)]
  | (k', v') :: d' =>
      if Py.str_eqb k' k then (k', v) :: d' else (k', v') :: set d' k v
  end.

Definition mem (d : t) (k : str) : bool :=
  match get d k with Some _ => true | None => false end.

Definition items (d : t) : list (str * V) := d.

End WithValue.

Arguments t : clear implicits.

End Dict.

Definition str_in (x : str) (l : list str) : bool := existsb (Py.str_eqb x) l.

(** ** paradox_rules.py: the rule book *)

Module ParadoxRules.

Inductive MergeStrategy := ACCUMULATE_LIST | REPLACE_WHOLE | RECURSIVE | KEEP_BASE.

Inductive TopLevelStrategy := ATOMIC_ACCUMULATE | MERGEABLE_CONTAINER.

Definition SAFE_LIST_BLOCKS : list str :=
  [ "on_actions" : str; "events" : str; "random_events" : str;
    "random_on_actions" : str; "first_valid" : str ].

Definition NO_MERGE_BLOCKS : list str :=
  [ "trigger" : str; "limit" : str; "effect" : str; "immediate" : str;
    "after" : str; "on_trigger_fail" : str;
    "modifier" : str; "ai_will_do" : str; "ai_check_interval" : str;
    "ai_chance" : str; "weight" : str; "weight_multiplier" : str;
    "compare_modifier" : str; "opinion_modifier" : str; "mult" : str;
    "add" : str; "factor" : str;
    "option" : str; "desc" : str; "title" : str; "theme" : str;
    "override_background" : str; "left_portrait" : str;
    "right_portrait" : str; "lower_left_portrait" : str;
    "lower_center_portrait" : str; "lower_right_portrait" : str;
    "artifact" : str; "override_icon" : str; "cooldown" : str;
    "is_shown" : str; "is_valid" : str;
    "is_valid_showing_failures_only" : str; "cost" : str;
    "minimum_cost" : str; "confirm_text" : str; "selection_tooltip" : str;
    "can_send" : str; "can_be_picked" : str; "is_highlighted" : str;
    "on_accept" : str; "on_decline" : str; "on_send" : str;
    "on_auto_accept" : str; "reply_item" : str; "send_option" : str;
    "greeting" : str; "notification_text" : str;
    "on_ready" : str; "on_monthly" : str; "on_invalidated" : str;
    "on_start" : str; "on_complete" : str; "on_enter_location" : str;
    "on_leave_location" : str; "phases" : str;
    "window" : str; "widget" : str; "container" : str; "vbox" : str;
    "hbox" : str; "button" : str; "text" : str; "icon" : str;
    "portrait" : str; "scrollarea" : str; "flowcontainer" : str;
    "scripted_trigger" : str; "scripted_effect" : str;
    "trait" : str; "culture" : str; "culture_group" : str;
    "heritage" : str; "tradition" : str; "religion" : str; "faith" : str;
    "doctrine" : str; "dynasty" : str; "house" : str; "character" : str;
    "province" : str; "holding" : str; "building" : str;
    "men_at_arms" : str; "innovation" : str; "law" : str;
    "lifestyle" : str; "perk" : str; "focus" : str ].

Definition CONTAINER_BLOCKS : list str :=
  [ "on_game_start" : str; "on_game_start_after_lobby" : str;
    "on_birth" : str; "on_birth_child" : str; "on_birth_mother" : str;
    "on_birth_father" : str; "on_birth_real_father" : str;
    "on_death" : str; "on_natural_death_second_chance" : str;
    "on_join_court" : str; "on_leave_court" : str;
    "on_imprison" : str; "on_release_from_prison" : str;
    "on_marriage" : str; "on_divorce" : str; "on_concubinage" : str;
    "on_character_faith_change" : str; "on_faith_created" : str;
    "on_faith_conversion" : str;
    "on_character_culture_change" : str;
    "on_war_started" : str; "on_war_ended" : str; "on_war_won" : str;
    "on_war_lost" : str; "on_war_white_peace" : str;
    "on_title_gain" : str; "on_title_lost" : str; "on_title_destroyed" : str;
    "on_realm_capital_change" : str;
    "on_county_faith_change" : str; "on_county_culture_change" : str;
    "on_yearly_pulse" : str; "on_monthly_pulse" : str;
    "on_weekly_pulse" : str; "on_quarterly_pulse" : str;
    "five_year_playable_pulse" : str; "three_year_playable_pulse" : str;
    "yearly_playable_pulse" : str;
    "random_yearly_playable_pulse" : str; "random_yearly_everyone_pulse" : str;
    "on_prestige_gained" : str; "on_piety_gained" : str; "on_gold_gained" : str;
    "on_army_enter_province" : str;
    "on_siege_completion" : str; "on_siege_great_success" : str;
    "on_siege_looting" : str;
    "on_artifact_created" : str; "on_artifact_destroyed" : str;
    "on_artifact_changed_owner" : str;
    "on_holy_order_founded" : str; "on_holy_order_destroyed" : str;
    "on_dynasty_created" : str; "on_house_created" : str ].

Definition lit (s : str) : list Re.atom := map (fun c => Re.One (Re.chr c)) s.

Definition re_matches (p : list Re.atom) (s : str) : bool :=
  match Re.rmatch p s with Some _ => true | None => false end.

(** [r'^[a-z_]+\.\d+$'] *)
Definition RE_EVENT : list Re.atom :=
  [Re.Plus Re.lower_us; Re.One (Re.chr "."); Re.Plus Re.digit; Re.Eol].
(** [r'^\d+$'] *)
Definition RE_PROVINCE_ID : list Re.atom := [Re.Plus Re.digit; Re.Eol].
(** [r'^\d+\.\d+\.\d+$'] *)
Definition RE_DATE : list Re.atom :=
  [Re.Plus Re.digit; Re.One (Re.chr "."); Re.Plus Re.digit;
   Re.One (Re.chr "."); Re.Plus Re.digit; Re.Eol].
(** [r'^[ekdcb]_[a-z_]+$'] *)
Definition RE_TITLE : list Re.atom :=
  [Re.One (fun c => existsb (Py.chr_eqb c) ("ekdcb" : str)); Re.One (Re.chr "_");
   Re.Plus Re.lower_us; Re.Eol].

(** BLOCK_PATTERNS (the second assignment of the module, which is the one in
    force): pattern and block type, in source order. *)
Definition BLOCK_PATTERNS : list (list Re.atom * str) :=
  [ (RE_EVENT, "event" : str); (RE_PROVINCE_ID, "province_id" : str);
    (RE_DATE, "date_block" : str); (RE_TITLE, "title" : str) ].

(** ITERATOR_PATTERNS: [^every_[a-z_]+$] and its three siblings. *)
Definition ITERATOR_PATTERNS : list (list Re.atom) :=
  [ lit "every_" ++ [Re.Plus Re.lower_us; Re.Eol];
    lit "random_" ++ [Re.Plus Re.lower_us; Re.Eol];
    lit "ordered_" ++ [Re.Plus Re.lower_us; Re.Eol];
    lit "any_" ++ [Re.Plus Re.lower_us; Re.Eol] ].

Definition ATOMIC_FILE_CONTEXTS : list str :=
  [ "decisions" : str; "events" : str; "character_interactions" : str;
    "schemes" : str; "activities" : str ].

Definition RECURSIVE_FILE_CONTEXTS : list str :=
  [ "on_action" : str; "scripted_effects" : str ].

Definition is_event_block (block_name : str) : bool := re_matches RE_EVENT block_name.

Definition is_date_block (block_name : str) : bool := re_matches RE_DATE block_name.

Definition context_in_path (path_lower context : str) : bool :=
  Py.contains path_lower ("/" ++ context ++ "/")
  || Py.startswith path_lower (context ++ "/")
  || Py.contains path_lower ("/" ++ context).

(** The two [for context in ...] loops run over Python sets; every
    iteration returns the same value, so their order does not matter. *)
Definition get_file_context (file_path : str) : str :=
  if negb (Py.nonempty file_path) then "unknown"
  else
    let path_lower := Py.replace (Py.lower file_path) [Py.BACKSLASH] "/" in
    if existsb (context_in_path path_lower) RECURSIVE_FILE_CONTEXTS then "recursive"
    else if existsb (context_in_path path_lower) ATOMIC_FILE_CONTEXTS then "atomic"
    else "unknown".

Definition is_on_action_container (block_name : str) : bool :=
  if Py.startswith block_name "on_" && negb (Py.str_eqb block_name "on_actions") then true
  else if Py.contains block_name "_pulse" || Py.contains block_name "_playable_pulse" then true
  else false.

Definition is_scripted_effect_container (block_name : str) : bool :=
  if Py.endswith block_name "_effect" || Py.endswith block_name "_effects" then true
  else if Py.startswith block_name "fire_" || Py.startswith block_name "setup_" then true
  else if Py.startswith block_name "initialize_" || Py.startswith block_name "init_" then true
  else if Py.contains block_name "_intro_" || Py.contains block_name "_gamestart_" then true
  else if Py.contains block_name "_setup_" || Py.contains block_name "_spawn_" then true
  else false.

Definition is_iterator_block (block_name : str) : bool :=
  if str_in block_name SAFE_LIST_BLOCKS then false
  else existsb (fun p => re_matches p block_name) ITERATOR_PATTERNS.

Definition gui_containers : list str :=
  [ "character_view_bg" : str; "character_location_exterior" : str;
    "character_religion_interior" : str; "religion_interior" : str;
    "religion_holding" : str; "title_holding" : str;
    "artifact_regional_pattern" : str; "character_private" : str;
    "culture_levy_big_illustration" : str;
    "culture_knight_big_illustration" : str;
    "culture_levy_small_illustration" : str;
    "culture_knight_small_illustration" : str ].

Definition is_gui_background_container (block_name : str) : bool :=
  if str_in block_name gui_containers then true
  else if Py.endswith block_name "_bg" || Py.endswith block_name "_illustration" then true
  else if Py.endswith block_name "_interior" || Py.endswith block_name "_exterior" then true
  else if Py.endswith block_name "_pattern" then true
  else false.

(** The loop over BLOCK_PATTERNS returns at the first pattern that matches
    with type event, date_block or province_id; a title match returns
    nothing and the loop goes on. *)
Definition pattern_replace_whole (block_name : str) : bool :=
  existsb (fun pt : list Re.atom * str =>
             re_matches (fst pt) block_name &&
             (Py.str_eqb (snd pt) "event" || Py.str_eqb (snd pt) "date_block"
              || Py.str_eqb (snd pt) "province_id"))
          BLOCK_PATTERNS.

Definition get_merge_strategy (block_name : str) (parent_name : str) : MergeStrategy :=
  if pattern_replace_whole block_name then REPLACE_WHOLE
  else if is_iterator_block block_name then REPLACE_WHOLE
  else if str_in block_name SAFE_LIST_BLOCKS then ACCUMULATE_LIST
  else if str_in block_name NO_MERGE_BLOCKS then REPLACE_WHOLE
  else if str_in block_name CONTAINER_BLOCKS then RECURSIVE
  else if is_on_action_container block_name then RECURSIVE
  else if is_scripted_effect_container block_name then RECURSIVE
  else if is_gui_background_container block_name then RECURSIVE
  else REPLACE_WHOLE.

Definition is_safe_to_add_child (child_name parent_name : str) : bool :=
  if is_scripted_effect_container parent_name then true
  else if is_on_action_container parent_name then true
  else if is_gui_background_container parent_name then true
  else match get_merge_strategy child_name parent_name with
       | ACCUMULATE_LIST | RECURSIVE => true
       | _ => false
       end.

Definition get_top_level_strategy (block_name : str) (file_path : str) : TopLevelStrategy :=
  if is_event_block block_name then ATOMIC_ACCUMULATE
  else if is_date_block block_name then ATOMIC_ACCUMULATE
  else
    let file_context := get_file_context file_path in
    if Py.str_eqb file_context "atomic" then ATOMIC_ACCUMULATE
    else if Py.str_eqb file_context "recursive" then MERGEABLE_CONTAINER
    else if is_on_action_container block_name then MERGEABLE_CONTAINER
    else if is_scripted_effect_container block_name then MERGEABLE_CONTAINER
    else if is_gui_background_container block_name then MERGEABLE_CONTAINER
    else ATOMIC_ACCUMULATE.

Definition is_top_level_atomic (block_name : str) (file_path : str) : bool :=
  let context := get_file_context file_path in
  if Py.str_eqb context "atomic" then true
  else if is_event_block block_name then true
  else false.

Definition is_safe_to_accumulate (block_name : str) (parent_name : str) : bool :=
  match get_merge_strategy block_name parent_name with
  | ACCUMULATE_LIST => true
  | _ => false
  end.

End ParadoxRules.

(** ** Comment detection and brace counting

    [_find_comment_pos] (PdxParser), [_find_comment_start] (StructuralMerger)
    and [_find_comment] (StructureValidator) are the same function: the index
    of the first [#] outside double quotes, or -1.  A quote toggles unless the
    character before it is a backslash. *)

Fixpoint find_comment_from (line : str) (i : Z) (prev : option ascii)
    (in_quotes : bool) : Z :=
  match line with
  | [] => (-1)%Z
  | char :: rest =>
      if Py.chr_eqb char Py.QUOTE &&
         match prev with
         | None => true
         | Some p => negb (Py.chr_eqb p Py.BACKSLASH)
         end
      then find_comment_from rest (i + 1)%Z (Some char) (negb in_quotes)
      else if Py.chr_eqb char "#" && negb in_quotes then i
      else find_comment_from rest (i + 1)%Z (Some char) in_quotes
  end.

Definition find_comment (line : str) : Z := find_comment_from line 0%Z None false.

(** The recurring idiom
    [if '#' in line: hash_pos = find(line); if hash_pos >= 0: line = line[:hash_pos]]. *)
Definition strip_comment (line : str) : str :=
  if Py.contains line "#" then
    let hash_pos := find_comment line in
    if (0 <=? hash_pos)%Z then Py.upto line hash_pos else line
  else line.

(** ** paradox_rules.py: StructureValidator *)

Module StructureValidator.

Import ParadoxRules.

(** The texts of the issues are Russian prose built from these data. *)
Inductive Message :=
| UnbalancedBraces
| DuplicateEvent (block : str) (count : Z)
| TooManyOptions (options : Z).

Record ValidationError := mkValidationError
  { path : str; message : Message; severity : str }.

Definition _find_comment (line : str) : Z := find_comment line.

Definition count_line (line : str) : Z * Z :=
  let line := strip_comment line in
  (Py.count line "{", Py.count line "}").

Definition _validate_braces (content : str) : bool :=
  let counts := map count_line (Py.split content Py.NL) in
  let open_count := fold_left Z.add (map fst counts) 0%Z in
  let close_count := fold_left Z.add (map snd counts) 0%Z in
  (open_count =? close_count)%Z.

(** [r'^([a-zA-Z0-9_][a-zA-Z0-9_\.]* )\s*=\s*\{'] with [re.MULTILINE] (the blank before the closing parenthesis is not in the source) *)
Definition RE_TOP_BLOCK : list Re.atom :=
  [Re.One Re.word; Re.Star Re.ident_nocolon; Re.Star Re.space;
   Re.One (Re.chr "="); Re.Star Re.space; Re.One (Re.chr "{")].

Definition bump (seen : Dict.t Z) (block : str) : Dict.t Z :=
  match Dict.get seen block with
  | Some n => Dict.set seen block (n + 1)%Z
  | None => Dict.set seen block 1%Z
  end.

Definition _check_duplicate_blocks (content filename : str) : list ValidationError :=
  let blocks := map (fun m => Re.group (fst m) 0 2)
                    (ReScan.finditer ReScan.Bol RE_TOP_BLOCK content) in
  let seen := fold_left bump blocks [] in
  flat_map (fun bc : str * Z =>
              let (block, count) := bc in
              if (1 <? count)%Z && is_event_block block then
                [mkValidationError (filename ++ "." ++ block)
                   (DuplicateEvent block count) "error"]
              else [])
           (Dict.items seen).

(** [r'([a-z_]+\.\d+)\s*=\s*\{'] *)
Definition RE_EVENT_OPEN : list Re.atom :=
  [Re.Plus Re.lower_us; Re.One (Re.chr "."); Re.Plus Re.digit; Re.Star Re.space;
   Re.One (Re.chr "="); Re.Star Re.space; Re.One (Re.chr "{")].

(** [r'\boption\s*=\s*\{'] (the [\b] is the scan's anchor) *)
Definition RE_OPTION : list Re.atom :=
  lit "option" ++ [Re.Star Re.space; Re.One (Re.chr "="); Re.Star Re.space;
                   Re.One (Re.chr "{")].

(** The text from [start] up to the brace that closes depth 1; when no such
    brace exists [end] stays at [start] and the text is empty. *)
Fixpoint event_content_from (s : str) (depth : Z) (acc : str) : str :=
  match s with
  | [] => []
  | c :: r =>
      if Py.chr_eqb c "{" then event_content_from r (depth + 1)%Z (acc ++ [c])
      else if Py.chr_eqb c "}" then
        if (depth - 1 =? 0)%Z then acc
        else event_content_from r (depth - 1)%Z (acc ++ [c])
      else event_content_from r depth (acc ++ [c])
  end.

Definition count_options (event_content : str) : Z :=
  Z.of_nat (length (ReScan.finditer ReScan.WordBoundary RE_OPTION event_content)).

Definition _validate_events (content filename : str) : list ValidationError :=
  flat_map (fun m : list str * str =>
              let event_name := Re.group (fst m) 0 3 in
              let event_content := event_content_from (snd m) 1%Z [] in
              let options := count_options event_content in
              if (20 <? options)%Z then
                [mkValidationError (filename ++ "." ++ event_name)
                   (TooManyOptions options) "warning"]
              else [])
           (ReScan.finditer ReScan.Anywhere RE_EVENT_OPEN content).

(** [validate]: the pair (is_valid, errors + warnings). *)
Definition validate_errors (content filename : str) : list ValidationError :=
  (if negb (_validate_braces content)
   then [mkValidationError filename UnbalancedBraces "error"] else [])
  ++ _check_duplicate_blocks content filename.

Definition validate_warnings (content filename : str) : list ValidationError :=
  if Py.contains filename "events" || Py.endswith filename "_events.txt"
  then _validate_events content filename
  else [].

Definition validate (content filename : str) : bool * list ValidationError :=
  let errors := validate_errors content filename in
  let warnings := validate_warnings content filename in
  (Nat.eqb (length errors) 0, errors ++ warnings).

End StructureValidator.

(** ** structural_merger.py: data *)

Module StructuralMerger.

Import ParadoxRules.

(** [children] is a dictionary from a child name to all the children of that
    name, in source order. *)
#[warnings="-register-all"]
Inductive ParsedBlock : Type := mkParsedBlock
  { name : str;
    full_text : str;
    inner_text : str;
    start_line : Z;
    end_line : Z;
    indent : str;
    is_commented : bool;
    children : list (str * list ParsedBlock);
    list_items : list str;
    properties : list (str * str) }.

Definition get_all_children (b : ParsedBlock) (nm : str) : list ParsedBlock :=
  match Dict.get (children b) nm with
  | Some l => l
  | None => []
  end.

(** [add_child] on the dictionary of children *)
Definition add_child (cs : Dict.t (list ParsedBlock)) (child : ParsedBlock)
  : Dict.t (list ParsedBlock) :=
  match Dict.get cs (name child) with
  | Some l => Dict.set cs (name child) (l ++ [child])
  | None => Dict.set cs (name child) [child]
  end.

(** [get_child], for an index that is not negative (no caller passes
    another one) *)
Definition get_child (b : ParsedBlock) (nm : str) (index : nat) : option ParsedBlock :=
  match Dict.get (children b) nm with
  | Some l => nth_error l index
  | None => None
  end.

Definition child_count (b : ParsedBlock) (nm : str) : nat :=
  length (get_all_children b nm).

(** The payload of a change record: a piece of text, or the data of one of
    the two Russian messages. *)
Inductive Content :=
| Text (s : str)
| SkippedUnsafe (child_name : str)
| Validation (m : StructureValidator.Message).

Record MergeChange := mkMergeChange
  { path : str; change_type : str; mod_name : str; content : Content }.

Inductive MergeError :=
| NoError
| ReadError
| UnbalancedAfterMerge (open_c close_c : Z).

Record StructuralMergeResult := mkResult
  { success : bool;
    result_content : str;
    error : MergeError;
    changes : list MergeChange }.

Definition _find_comment_start (line : str) : Z := find_comment line.

(** [line_for_count.count('{') - line_for_count.count('}')] after the
    comment has been cut off *)
Definition brace_delta (line : str) : Z :=
  let line_for_count := strip_comment line in
  (Py.count line_for_count "{" - Py.count line_for_count "}")%Z.

Definition _count_braces (content : str) : Z * Z :=
  fold_left
    (fun (acc : Z * Z) (line : str) =>
       let hash_pos := _find_comment_start line in
       let line := if (0 <=? hash_pos)%Z then Py.upto line hash_pos else line in
       (fst acc + Py.count line "{", snd acc + Py.count line "}")%Z)
    (Py.split content Py.NL) (0, 0)%Z.

Definition _validate_braces (content : str) : bool :=
  let (open_count, close_count) := _count_braces content in
  (open_count =? close_count)%Z.

(** [_normalize_content] *)
Definition _normalize_content (content : str) : str :=
  Py.join " "
    (filter Py.nonempty
       (map (fun line => Py.strip (strip_comment line)) (Py.split content Py.NL))).

Definition _blocks_differ (base mod_ : ParsedBlock) : bool :=
  negb (Py.str_eqb (_normalize_content (inner_text base))
                   (_normalize_content (inner_text mod_))).

(** [full_text[inner_start:inner_end] if inner_end > inner_start else ""]
    with [inner_start = full_text.find('{') + 1] and
    [inner_end = full_text.rfind('}')] *)
Definition inner_of (full_text : str) : str :=
  let inner_start := (Py.find full_text "{" + 1)%Z in
  let inner_end := Py.rfind full_text "}" in
  if (inner_start <? inner_end)%Z then Py.slice full_text inner_start inner_end
  else [].

(** *** Parsing *)

(** [r'^([a-zA-Z0-9_][a-zA-Z0-9_\.:]* )\s*=\s*\{'] (the blank before the
    closing parenthesis is not in the source) *)
Definition RE_BLOCK_START : list Re.atom :=
  [Re.One Re.word; Re.Star Re.ident; Re.Star Re.space; Re.One (Re.chr "=");
   Re.Star Re.space; Re.One (Re.chr "{")].

(** The same pattern followed by [(.* )$] *)
Definition RE_CHILD_BLOCK : list Re.atom :=
  RE_BLOCK_START ++ [Re.Star Re.dot_any; Re.Eol].

(** [r'^([a-zA-Z0-9_][a-zA-Z0-9_\.:]* )\s*=\s*([^{].* )$'] *)
Definition RE_PROPERTY : list Re.atom :=
  [Re.One Re.word; Re.Star Re.ident; Re.Star Re.space; Re.One (Re.chr "=");
   Re.Star Re.space; Re.One (fun c => negb (Py.chr_eqb c "{"));
   Re.Star Re.dot_any; Re.Eol].

(** [r'^([a-zA-Z0-9_][a-zA-Z0-9_\.:]* )\s*(#.* )?$'], as its two
    alternatives: with the optional group and without it.  Only group 1 is
    read, and it is the same on every path of the search (a shorter name is
    followed by a name character, which nothing after it can take). *)
Definition RE_ITEM_WITH_COMMENT : list Re.atom :=
  [Re.One Re.word; Re.Star Re.ident; Re.Star Re.space; Re.One (Re.chr "#");
   Re.Star Re.dot_any; Re.Eol].
Definition RE_ITEM_BARE : list Re.atom :=
  [Re.One Re.word; Re.Star Re.ident; Re.Star Re.space; Re.Eol].

Definition item_match (stripped : str) : option str :=
  match Re.rmatch RE_ITEM_WITH_COMMENT stripped with
  | Some (ms, _) => Some (Re.group ms 0 2)
  | None =>
      match Re.rmatch RE_ITEM_BARE stripped with
      | Some (ms, _) => Some (Re.group ms 0 2)
      | None => None
      end
  end.

(** [r'^[a-zA-Z0-9_][a-zA-Z0-9_\.:]*$'] *)
Definition RE_SIMPLE_IDENT : list Re.atom :=
  [Re.One Re.word; Re.Star Re.ident; Re.Eol].

(** The character loop of [_parse_list_items]: the state is
    (depth, current, items). *)
Definition list_items_step (st : Z * str * list str) (char : ascii)
  : Z * str * list str :=
  let '(depth, current, items) := st in
  if Py.chr_eqb char "{" then ((depth + 1)%Z, current ++ [char], items)
  else if Py.chr_eqb char "}" then ((depth - 1)%Z, current ++ [char], items)
  else if existsb (Py.chr_eqb char) [" "%char; Py.TAB; Py.NL] && (depth =? 0)%Z then
    if Py.nonempty (Py.strip current) then
      (depth, [],
       if negb (Py.contains current "=") || Py.contains current "{"
       then items ++ [Py.strip current] else items)
    else (depth, current, items)
  else (depth, current ++ [char], items).

Definition _parse_list_items (content : str) : list str :=
  let clean_lines := map strip_comment (Py.split content Py.NL) in
  let clean_content := Py.join " " clean_lines in
  let '(_, current, items) := fold_left list_items_step clean_content (0%Z, [], []) in
  let items :=
    if Py.nonempty (Py.strip current) &&
       (negb (Py.contains current "=") || Py.contains current "{")
    then items ++ [Py.strip current] else items in
  filter (re_matches RE_SIMPLE_IDENT) items.

(** The inner [while] of [_parse_top_level_blocks]: lines are taken until
    the depth is not positive after a line, or the lines end.  The result is
    the lines taken and the lines left. *)
Fixpoint collect_block (lines : list str) (brace_depth : Z) : list str * list str :=
  match lines with
  | [] => ([], [])
  | block_line :: rest =>
      let brace_depth := (brace_depth + brace_delta block_line)%Z in
      if (brace_depth <=? 0)%Z then ([block_line], rest)
      else let (taken, left) := collect_block rest brace_depth in
           (block_line :: taken, left)
  end.

(** The inner [while] of [_parse_block_contents]: it runs while
    [brace_depth > 0], the test coming before each line. *)
Fixpoint collect_child (lines : list str) (brace_depth : Z) : list str * list str :=
  match lines with
  | [] => ([], [])
  | child_line :: rest =>
      if (0 <? brace_depth)%Z then
        let (taken, left) := collect_child rest (brace_depth + brace_delta child_line)%Z in
        (child_line :: taken, left)
      else ([], lines)
  end.

(** [prop_value] of a property line *)
Definition prop_value_of (group2 : str) : str :=
  let prop_value := Py.strip group2 in
  if Py.contains prop_value "#"
  then Py.strip (Py.upto prop_value (Py.find prop_value "#"))
  else prop_value.

(** What [_parse_block_contents] writes into its block. *)
Record Contents := mkContents
  { c_children : Dict.t (list ParsedBlock);
    c_list_items : list str;
    c_properties : Dict.t str }.

(** [_parse_block_contents].  The function calls itself on the inner text of
    a child, which is shorter than the text it is reading; [fuel] bounds the
    nesting and, in the loop, the number of lines.  [parse_lines] is the
    [while i < len(lines)] loop, with [i] the index of the first line left. *)
Fixpoint parse_lines (fuel : nat) (lines : list str) (i : Z) (acc : Contents)
    {struct fuel} : Contents :=
  match fuel with
  | O => acc
  | S fuel' =>
      match lines with
      | [] => acc
      | line :: rest =>
          let stripped := Py.strip line in
          if negb (Py.nonempty stripped) || Py.startswith stripped "#" then
            parse_lines fuel' rest (i + 1)%Z acc
          else
            match Re.rmatch RE_CHILD_BLOCK stripped with
            | Some (ms, _) =>
                let child_name := Re.group ms 0 2 in
                let rest_of_line := Re.item ms 6 in
                if Py.endswith (Py.rstrip rest_of_line) "}" then
                  let inner := Py.strip (removelast (Py.rstrip rest_of_line)) in
                  let child :=
                    mkParsedBlock child_name stripped inner i i
                      (Py.prefix_minus line stripped) false []
                      (if Py.nonempty inner then _parse_list_items inner else [])
                      [] in
                  parse_lines fuel' rest (i + 1)%Z
                    (mkContents (add_child (c_children acc) child)
                                (c_list_items acc) (c_properties acc))
                else
                  let (taken, left) := collect_child rest 1%Z in
                  let child_lines := line :: taken in
                  let i' := (i + Z.of_nat (length child_lines))%Z in
                  let child_text := Py.join [Py.NL] child_lines in
                  let inner_text := inner_of child_text in
                  let sub :=
                    parse_lines fuel' (Py.split inner_text Py.NL) 0%Z
                      (mkContents [] [] []) in
                  let child :=
                    mkParsedBlock child_name child_text inner_text i (i' - 1)%Z
                      (Py.prefix_minus line stripped) false (c_children sub)
                      (_parse_list_items inner_text) (c_properties sub) in
                  parse_lines fuel' left i'
                    (mkContents (add_child (c_children acc) child)
                                (c_list_items acc) (c_properties acc))
            | None =>
                match Re.rmatch RE_PROPERTY stripped with
                | Some (ms, _) =>
                    let prop_name := Re.group ms 0 2 in
                    let prop_value := prop_value_of (Re.group ms 5 7) in
                    parse_lines fuel' rest (i + 1)%Z
                      (mkContents (c_children acc) (c_list_items acc)
                                  (Dict.set (c_properties acc) prop_name prop_value))
                | None =>
                    match item_match stripped with
                    | Some item =>
                        parse_lines fuel' rest (i + 1)%Z
                          (mkContents (c_children acc) (c_list_items acc ++ [item])
                                      (c_properties acc))
                    | None => parse_lines fuel' rest (i + 1)%Z acc
                    end
                end
            end
      end
  end.

(** Every call of the loop uses one unit of fuel, and a nested call works on
    a text shorter than the enclosing one: the number of characters of the
    text, plus one per line, is enough. *)
Definition contents_fuel (content : str) : nat := S (2 * length content + 1).

Definition _parse_block_contents (content : str) : Contents :=
  parse_lines (contents_fuel content) (Py.split content Py.NL) 0%Z
    (mkContents [] [] []).

(** The block that [_parse_top_level_blocks] builds from the lines it has
    collected. *)
Definition make_block (block_name : str) (line : str) (start_line : Z)
    (block_lines : list str) : ParsedBlock :=
  let full_text := Py.join [Py.NL] block_lines in
  let inner_text := inner_of full_text in
  let cs := _parse_block_contents inner_text in
  mkParsedBlock block_name full_text inner_text start_line
    (start_line + Z.of_nat (length block_lines) - 1)%Z
    (Py.prefix_minus line (Py.lstrip line)) false
    (c_children cs) (c_list_items cs) (c_properties cs).

(** The outer [while] of [_parse_top_level_blocks]; every turn takes at
    least one line, so [fuel = len(lines)] turns are enough. *)
Fixpoint top_loop (fuel : nat) (lines : list str) (i : Z)
    (blocks : Dict.t ParsedBlock) (header_lines : list str)
  : Dict.t ParsedBlock * list str :=
  match fuel with
  | O => (blocks, header_lines)
  | S fuel' =>
      match lines with
      | [] => (blocks, header_lines)
      | line :: rest =>
          let stripped := Py.strip line in
          if negb (Py.nonempty stripped) || Py.startswith stripped "#" then
            top_loop fuel' rest (i + 1)%Z blocks
              (match blocks with [] => header_lines ++ [line] | _ => header_lines end)
          else
            match Re.rmatch RE_BLOCK_START stripped with
            | Some (ms, _) =>
                let block_name := Re.group ms 0 2 in
                let (block_lines, left) := collect_block lines 0%Z in
                let block := make_block block_name line i block_lines in
                top_loop fuel' left (i + Z.of_nat (length block_lines))%Z
                  (Dict.set blocks block_name block) header_lines
            | None => top_loop fuel' rest (i + 1)%Z blocks header_lines
            end
      end
  end.

Definition header_block (header_lines : list str) : ParsedBlock :=
  mkParsedBlock "__header__" (Py.join [Py.NL] header_lines) [] 0%Z
    (Z.of_nat (length header_lines) - 1)%Z [] false [] [] [].

Definition _parse_top_level_blocks (content : str) : Dict.t ParsedBlock :=
  let lines := Py.split content Py.NL in
  let (blocks, header_lines) := top_loop (length lines) lines 0%Z [] [] in
  match header_lines with
  | [] => blocks
  | _ => Dict.set blocks "__header__" (header_block header_lines)
  end.

(** *** Deep merge *)

Definition State : Type := str * list MergeChange.

(** [f"{base_block.name}.{child_name}[{idx}]"] *)
Definition child_path (base_name child_name : str) (idx : nat) : str :=
  base_name ++ "." ++ child_name ++ "[" ++ Py.str_of_nat idx ++ "]".

(** [mod_children[idx]] under the guard [idx < len(mod_children)] *)
Definition mod_child_at (mod_block : ParsedBlock) (child_name : str) (idx : nat)
  : option ParsedBlock :=
  nth_error (get_all_children mod_block child_name) idx.

(** The two nested [for] loops of the ACCUMULATE_LIST branch: every item of
    every mod's child that is not yet in [all_items] is appended, and a
    change is recorded for it. *)
Definition accumulate_item (path_ mod_name_ : str)
    (acc : list str * list MergeChange) (item : str) : list str * list MergeChange :=
  let (all_items, chs) := acc in
  if str_in item all_items then acc
  else (all_items ++ [item],
        chs ++ [mkMergeChange path_ "added_list_item" mod_name_ (Text item)]).

Definition accumulate_mod (base_name child_name : str) (idx : nat)
    (acc : list str * list MergeChange) (m : str * ParsedBlock)
  : list str * list MergeChange :=
  let (mod_name_, mod_block) := m in
  match mod_child_at mod_block child_name idx with
  | Some mod_child =>
      fold_left (accumulate_item (child_path base_name child_name idx) mod_name_)
                (list_items mod_child) acc
  | None => acc
  end.

Definition accumulate (base_name child_name : str) (idx : nat)
    (base_items : list str) (mod_blocks : list (str * ParsedBlock))
    (chs : list MergeChange) : list str * list MergeChange :=
  fold_left (accumulate_mod base_name child_name idx) mod_blocks (base_items, chs).

(** The brace matching loop of [_update_list_in_text], started just after
    the opening brace (depth 1): the text inside the braces and the text
    after the closing one. *)
Fixpoint close_scan (s : str) (depth : Z) (acc : str) : option (str * str) :=
  match s with
  | [] => None
  | c :: r =>
      if Py.chr_eqb c "{" then close_scan r (depth + 1)%Z (acc ++ [c])
      else if Py.chr_eqb c "}" then
        if (depth - 1 =? 0)%Z then Some (acc, r)
        else close_scan r (depth - 1)%Z (acc ++ [c])
      else close_scan r depth (acc ++ [c])
  end.

(** the indentation of the first line that is neither blank nor a comment,
    [\t\t] when there is none *)
Fixpoint first_item_indent (lines : list str) : str :=
  match lines with
  | [] => [Py.TAB; Py.TAB]
  | line :: rest =>
      let stripped := Py.strip line in
      if Py.nonempty stripped && negb (Py.startswith stripped "#")
      then Py.prefix_minus line (Py.lstrip line)
      else first_item_indent rest
  end.

Definition new_list_inner (inner : str) (new_items : list str) : str :=
  if Py.contains inner [Py.NL] then
    let lines := Py.split inner Py.NL in
    let indent_ := first_item_indent lines in
    let new_lines :=
      map (fun item => indent_ ++ item) new_items
      ++ map Py.rstrip (filter (fun line => Py.startswith (Py.strip line) "#") lines) in
    let last_ := last lines [] in
    let close_indent := if negb (Py.nonempty (Py.strip last_)) then last_ else [Py.TAB] in
    [Py.NL] ++ Py.join [Py.NL] new_lines ++ [Py.NL] ++ close_indent
  else " " ++ Py.join " " new_items ++ " ".

(** [_update_list_in_text].  The pattern is
    [re.escape(list_name)\s*=\s*\{], searched from the start of [text].
    When no brace closes the list, [end_pos] stays on the opening brace and
    [inner] is empty. *)
Definition _update_list_in_text (text list_name : str)
    (old_items new_items : list str) (old_block_text : str) : str :=
  let start_pattern :=
    lit list_name ++ [Re.Star Re.space; Re.One (Re.chr "="); Re.Star Re.space;
                      Re.One (Re.chr "{")] in
  match Re.search start_pattern text with
  | None => text
  | Some (before, _, after_brace) =>
      let (inner, tail) :=
        match close_scan after_brace 1%Z [] with
        | Some (inner, after_close) => (inner, after_close)
        | None => ([], "{" ++ after_brace)
        end in
      let new_block := list_name ++ " = {" ++ new_list_inner inner new_items ++ "}" in
      before ++ new_block ++ tail
  end.

(** [_normalize_block_content]: here the comment is cut at the first [#],
    quoted or not. *)
Definition _normalize_block_content (content : str) : str :=
  let cut (line : str) : str :=
    if Py.contains line "#" then Py.upto line (Py.find line "#") else line in
  let lines := filter Py.nonempty
                 (map (fun line => Py.strip (cut line)) (Py.split content Py.NL)) in
  Py.join " " (Py.split_ws (Py.join " " lines)).

(** [_merge_gui_container] *)
Definition gui_add_mod_child (base_name child_name mod_name_ : str)
    (acc : Dict.t (str * str) * list MergeChange) (mod_child : ParsedBlock)
  : Dict.t (str * str) * list MergeChange :=
  let (all_blocks, chs) := acc in
  let normalized := _normalize_block_content (inner_text mod_child) in
  if Dict.mem all_blocks normalized then
    (Dict.set all_blocks normalized (mod_name_, full_text mod_child), chs)
  else
    (Dict.set all_blocks normalized (mod_name_, full_text mod_child),
     chs ++ [mkMergeChange (base_name ++ "." ++ child_name) "added_gui_block" mod_name_
               (Text (firstn 50 (full_text mod_child)))]).

Definition gui_reindent (indent_ full_text_ : str) : str :=
  Py.join [Py.NL]
    (map (fun line => let stripped := Py.strip line in
                      if Py.nonempty stripped then indent_ ++ stripped else [])
         (Py.split (Py.strip full_text_) Py.NL)).

Definition _merge_gui_container (base_block : ParsedBlock)
    (mod_blocks : list (str * ParsedBlock)) (chs : list MergeChange) : State :=
  let base_all : Dict.t (str * str) :=
    fold_left
      (fun all (kv : str * list ParsedBlock) =>
         fold_left
           (fun all base_child =>
              Dict.set all (_normalize_block_content (inner_text base_child))
                       ("base" : str, full_text base_child))
           (snd kv) all)
      (children base_block) [] in
  let '(all_blocks, chs) :=
    fold_left
      (fun acc (m : str * ParsedBlock) =>
         fold_left
           (fun acc (kv : str * list ParsedBlock) =>
              fold_left (gui_add_mod_child (name base_block) (fst kv) (fst m)) (snd kv) acc)
           (children (snd m)) acc)
      mod_blocks (base_all, chs) in
  let block_start := (Py.find (full_text base_block) "{" + 1)%Z in
  let indent_ := indent base_block ++ [Py.TAB] in
  let all_block_texts :=
    map (fun kv : str * (str * str) => gui_reindent indent_ (snd (snd kv)))
        (Dict.items all_blocks) in
  let header := Py.upto (full_text base_block) block_start in
  (header ++ [Py.NL] ++ Py.join [Py.NL] all_block_texts ++ [Py.NL]
   ++ indent base_block ++ "}", chs).

(** The REPLACE_WHOLE branch: the mods are visited from the last to the
    first; the first child that differs from the base child replaces it. *)
Fixpoint replace_whole_child (base_name child_name : str) (idx : nat)
    (base_child : ParsedBlock) (rev_mods : list (str * ParsedBlock)) (st : State)
  : State :=
  match rev_mods with
  | [] => st
  | (mod_name_, mod_block) :: rest =>
      match mod_child_at mod_block child_name idx with
      | Some mod_child =>
          if _blocks_differ base_child mod_child then
            (Py.replace1 (fst st) (full_text base_child) (full_text mod_child),
             snd st ++ [mkMergeChange (child_path base_name child_name idx)
                          "replaced_block" mod_name_ (Text child_name)])
          else replace_whole_child base_name child_name idx base_child rest st
      | None => replace_whole_child base_name child_name idx base_child rest st
      end
  end.

(** The ACCUMULATE_LIST branch for one base child. *)
Definition accumulate_child (base_name child_name : str) (idx : nat)
    (base_child : ParsedBlock) (mod_blocks : list (str * ParsedBlock)) (st : State)
  : State :=
  match list_items base_child with
  | [] => st
  | _ =>
      let (all_items, chs) :=
        accumulate base_name child_name idx (list_items base_child) mod_blocks (snd st) in
      if length (list_items base_child) <? length all_items then
        (_update_list_in_text (fst st) child_name (list_items base_child) all_items
           (full_text base_child), chs)
      else (fst st, chs)
  end.

(** The second half of [_deep_merge_block]: children of the mods at an index
    the base does not have.  The state also carries [added_blocks]. *)
Definition has_key (added : list (str * nat)) (child_name : str) (idx : nat) : bool :=
  existsb (fun k : str * nat => Py.str_eqb (fst k) child_name && (snd k =? idx)) added.

Definition insert_child (base_block : ParsedBlock) (child_name mod_name_ : str)
    (idx : nat) (mod_child : ParsedBlock) (kind : str)
    (st : State * list (str * nat)) : State * list (str * nat) :=
  let '((result_text, chs), added) := st in
  let close_brace_pos := Py.rfind result_text "}" in
  if (0 <? close_brace_pos)%Z then
    let indent_ := indent base_block ++ [Py.TAB] in
    let new_block_text := [Py.NL] ++ indent_ ++ Py.strip (full_text mod_child) in
    ((Py.upto result_text close_brace_pos ++ new_block_text ++ [Py.NL]
      ++ Py.from result_text close_brace_pos,
      chs ++ [mkMergeChange (child_path (name base_block) child_name idx) kind
                mod_name_ (Text child_name)]),
     added ++ [(child_name, idx)])
  else st.

Definition add_new_child (base_block : ParsedBlock) (child_name mod_name_ : str)
    (base_count : nat) (st : State * list (str * nat)) (im : nat * ParsedBlock)
  : State * list (str * nat) :=
  let (idx, mod_child) := im in
  if base_count <=? idx then
    if negb (has_key (snd st) child_name idx) then
      if is_safe_to_add_child child_name (name base_block) then
        insert_child base_block child_name mod_name_ idx mod_child "added_child_block" st
      else
        ((fst (fst st),
          snd (fst st) ++ [mkMergeChange (child_path (name base_block) child_name idx)
                             "skipped_unsafe" mod_name_ (SkippedUnsafe child_name)]),
         snd st)
    else st
  else if base_count =? 0 then
    if negb (has_key (snd st) child_name idx) then
      if is_safe_to_add_child child_name (name base_block) then
        insert_child base_block child_name mod_name_ idx mod_child "added_new_child" st
      else st
    else st
  else st.

(** [enumerate(l)] *)
Definition enumerate {A : Type} (l : list A) : list (nat * A) :=
  combine (seq 0 (length l)) l.

Definition add_new_children (base_block : ParsedBlock)
    (mod_blocks : list (str * ParsedBlock)) (st : State) : State :=
  fst (fold_left
         (fun acc (m : str * ParsedBlock) =>
            fold_left
              (fun acc (kv : str * list ParsedBlock) =>
                 let base_count := length (get_all_children base_block (fst kv)) in
                 fold_left (add_new_child base_block (fst kv) (fst m) base_count)
                           (enumerate (snd kv)) acc)
              (children (snd m)) acc)
         mod_blocks (st, [])).

(** [[(mod_name, mod_children[idx]) for each mod that has such a child]] *)
Definition child_mod_blocks_at (mod_blocks : list (str * ParsedBlock))
    (child_name : str) (idx : nat) : list (str * ParsedBlock) :=
  flat_map (fun m : str * ParsedBlock =>
              match mod_child_at (snd m) child_name idx with
              | Some c => [(fst m, c)]
              | None => []
              end) mod_blocks.

(** [_deep_merge_block]: the text of the merged block and the changes
    recorded so far.  The recursion is on the base block. *)
Fixpoint _deep_merge_block (base_block : ParsedBlock)
    (mod_blocks : list (str * ParsedBlock)) (chs : list MergeChange)
    {struct base_block} : State :=
  match base_block with
  | mkParsedBlock base_name base_full _ _ _ _ _ base_children _ _ =>
      match get_merge_strategy base_name [] with
      | REPLACE_WHOLE =>
          match rev mod_blocks with
          | (last_mod_name, last_mod_block) :: _ =>
              (full_text last_mod_block,
               chs ++ [mkMergeChange base_name "replaced_whole" last_mod_name
                         (Text base_name)])
          | [] => (base_full, chs)
          end
      | _ =>
          if is_gui_background_container base_name then
            _merge_gui_container base_block mod_blocks chs
          else
            let st :=
              (fix over_names (cs : list (str * list ParsedBlock)) (st : State)
                 {struct cs} : State :=
                 match cs with
                 | [] => st
                 | (child_name, base_children_list) :: cs' =>
                     let child_strategy := get_merge_strategy child_name base_name in
                     over_names cs'
                       ((fix over_idx (l : list ParsedBlock) (idx : nat) (st : State)
                           {struct l} : State :=
                           match l with
                           | [] => st
                           | base_child :: l' =>
                               over_idx l' (S idx)
                                 match child_strategy with
                                 | ACCUMULATE_LIST =>
                                     accumulate_child base_name child_name idx
                                       base_child mod_blocks st
                                 | RECURSIVE =>
                                     match child_mod_blocks_at mod_blocks child_name idx with
                                     | [] => st
                                     | child_mod_blocks =>
                                         let (merged_child_text, chs') :=
                                           _deep_merge_block base_child child_mod_blocks
                                             (snd st) in
                                         (Py.replace1 (fst st) (full_text base_child)
                                            merged_child_text, chs')
                                     end
                                 | REPLACE_WHOLE =>
                                     replace_whole_child base_name child_name idx
                                       base_child (rev mod_blocks) st
                                 | KEEP_BASE => st
                                 end
                           end) base_children_list 0 st)
                 end) base_children (base_full, chs) in
            add_new_children base_block mod_blocks st
      end
  end.

(** *** merge_contents *)

(** An entry of [all_changes]: (mod_name, change_type, parsed). *)
Definition Change : Type := str * str * ParsedBlock.

Definition append_change (all_changes : Dict.t (list Change)) (block_name : str)
    (c : Change) : Dict.t (list Change) :=
  match Dict.get all_changes block_name with
  | Some l => Dict.set all_changes block_name (l ++ [c])
  | None => Dict.set all_changes block_name [c]
  end.

(** The body of [for block_name, mod_block in mod_blocks.items()]. *)
Definition collect_block_change (base_blocks : Dict.t ParsedBlock) (mod_name_ : str)
    (all_changes : Dict.t (list Change)) (kv : str * ParsedBlock)
  : Dict.t (list Change) :=
  let (block_name, mod_block) := kv in
  if Py.startswith block_name "__" then all_changes
  else
    match Dict.get base_blocks block_name with
    | None => append_change all_changes block_name (mod_name_, "new" : str, mod_block)
    | Some base_block =>
        if _blocks_differ base_block mod_block
        then append_change all_changes block_name (mod_name_, "modified" : str, mod_block)
        else all_changes
    end.

(** The body of [for mod_name, mod_content in mod_contents]. *)
Definition collect_mod_changes (base_blocks : Dict.t ParsedBlock)
    (all_changes : Dict.t (list Change)) (m : str * str) : Dict.t (list Change) :=
  fold_left (collect_block_change base_blocks (fst m))
            (Dict.items (_parse_top_level_blocks (snd m))) all_changes.

Definition collect_changes (base_blocks : Dict.t ParsedBlock)
    (mod_contents : list (str * str)) : Dict.t (list Change) :=
  fold_left (collect_mod_changes base_blocks) mod_contents [].

(** [changes[-1]]; every list stored in [all_changes] is non-empty. *)
Definition last_change (chs : list Change) (block_name : str) : str * ParsedBlock :=
  match rev chs with
  | (last_mod_name, _, last_mod_block) :: _ => (last_mod_name, last_mod_block)
  | [] => ([], mkParsedBlock block_name [] [] 0 0 [] false [] [] [])
  end.

(** The body of [for block_name, changes in all_changes.items()]; the state
    is (result_content, self.changes). *)
Definition apply_change (base_blocks : Dict.t ParsedBlock) (filename : str)
    (st : State) (entry : str * list Change) : State :=
  let (block_name, chs) := entry in
  let (result, log) := st in
  let top_strategy := get_top_level_strategy block_name filename in
  match Dict.get base_blocks block_name with
  | None =>
      let (last_mod_name, last_mod_block) := last_change chs block_name in
      (Py.rstrip result ++ [Py.NL; Py.NL] ++ full_text last_mod_block,
       log ++ [mkMergeChange block_name "added_unique_block" last_mod_name
                 (Text block_name)])
  | Some base_block =>
      match top_strategy with
      | ATOMIC_ACCUMULATE =>
          let (last_mod_name, last_mod_block) := last_change chs block_name in
          (Py.replace1 result (full_text base_block) (full_text last_mod_block),
           log ++ [mkMergeChange block_name "replaced_atomic" last_mod_name
                     (Text block_name)])
      | MERGEABLE_CONTAINER =>
          let mod_blocks_list := map (fun c : Change => (fst (fst c), snd c)) chs in
          let (merged_text, log') := _deep_merge_block base_block mod_blocks_list log in
          (Py.replace1 result (full_text base_block) merged_text, log')
      end
  end.

(** The warnings of the validator, as change records. *)
Definition warning_changes (issues : list StructureValidator.ValidationError)
  : list MergeChange :=
  map (fun issue =>
         mkMergeChange (StructureValidator.path issue) "validation_warning" []
           (Validation (StructureValidator.message issue)))
      (filter (fun issue => Py.str_eqb (StructureValidator.severity issue) "warning")
              issues).

(** [merge_contents].  [self_changes] is the value of [self.changes] at the
    call ([merge_file] sets it to the empty list first); the second
    component of the result is its value at the return.  No statement of the
    [try] body raises for any text, so the [except] branch is not reached. *)
Definition merge_contents (self_changes : list MergeChange) (base_content : str)
    (mod_contents : list (str * str)) (filename : str)
  : StructuralMergeResult * list MergeChange :=
  let base_content := Py.replace base_content [Py.CR; Py.NL] [Py.NL] in
  let mod_contents :=
    map (fun m : str * str => (fst m, Py.replace (snd m) [Py.CR; Py.NL] [Py.NL]))
        mod_contents in
  let base_blocks := _parse_top_level_blocks base_content in
  let all_changes := collect_changes base_blocks mod_contents in
  let (result, log) :=
    fold_left (apply_change base_blocks filename) (Dict.items all_changes)
              (base_content, self_changes) in
  let (is_valid, issues) := StructureValidator.validate result filename in
  let log := log ++ warning_changes issues in
  if negb (_validate_braces result) then
    let (open_c, close_c) := _count_braces result in
    (mkResult false [] (UnbalancedAfterMerge open_c close_c) [], log)
  else
    (mkResult true result NoError log, log).

(** [merge_file]: a file that cannot be read or decoded is [None]; the
    call of [merge_contents] passes no file name. *)
Fixpoint read_all (mod_files : list (str * option str)) : option (list (str * str)) :=
  match mod_files with
  | [] => Some []
  | (mod_name_, Some text) :: rest =>
      match read_all rest with
      | Some l => Some ((mod_name_, text) :: l)
      | None => None
      end
  | (_, None) :: _ => None
  end.

Definition merge_file (base_file : option str) (mod_files : list (str * option str))
  : StructuralMergeResult * list MergeChange :=
  match base_file with
  | None => (mkResult false [] ReadError [], [])
  | Some base_content =>
      match read_all mod_files with
      | None => (mkResult false [] ReadError [], [])
      | Some mod_contents => merge_contents [] base_content mod_contents []
      end
  end.

End StructuralMerger.

(** ** pdx_parser.py: the syntax tree *)

Module Pdx.

Inductive NodeType := ROOT | BLOCK | PROPERTY | LIST_ITEM | COMMENT | EMPTY_LINE.

Definition NodeType_eqb (a b : NodeType) : bool :=
  match a, b with
  | ROOT, ROOT | BLOCK, BLOCK | PROPERTY, PROPERTY | LIST_ITEM, LIST_ITEM
  | COMMENT, COMMENT | EMPTY_LINE, EMPTY_LINE => true
  | _, _ => false
  end.

#[warnings="-register-all"]
Inductive PdxNode : Type := mkPdxNode
  { node_type : NodeType;
    name : str;
    value : str;
    children : list PdxNode;
    comment : str;
    is_commented : bool;
    raw_line : str;
    indent : str }.

(** [PdxNode(node_type=..., ...)] with the defaults of the dataclass for the
    fields that a call leaves out *)
Definition node (t : NodeType) (name_ value_ comment_ raw_line_ indent_ : str)
    (children_ : list PdxNode) : PdxNode :=
  mkPdxNode t name_ value_ children_ comment_ false raw_line_ indent_.

Definition set_children (n : PdxNode) (cs : list PdxNode) : PdxNode :=
  mkPdxNode (node_type n) (name n) (value n) cs (comment n) (is_commented n)
            (raw_line n) (indent n).

End Pdx.

(** ** pdx_parser.py: PdxParser *)

Module PdxParser.

Import Pdx.

Definition _find_comment_pos (line : str) : Z := find_comment line.

Definition is_blank (c : ascii) : bool := Py.chr_eqb c " " || Py.chr_eqb c Py.TAB.

(** [while i < len(content) and content[i] in ' \t': i += 1] *)
Fixpoint skip_blanks (s : str) : str :=
  match s with
  | c :: r => if is_blank c then skip_blanks r else s
  | [] => []
  end.

(** [while i < len(content) and content[i] not in stops: i += 1]: the
    characters passed and the rest *)
Fixpoint take_until (stops : str) (s : str) : str * str :=
  match s with
  | c :: r =>
      if existsb (Py.chr_eqb c) stops then ([], s)
      else let (t, rest) := take_until stops r in (c :: t, rest)
  | [] => ([], [])
  end.

(** [while i < len(content) and depth > 0] of the inline block: the
    characters passed (the closing brace included when it is found) and the
    rest *)
Fixpoint take_block (s : str) (depth : Z) : str * str :=
  match s with
  | c :: r =>
      if (0 <? depth)%Z then
        let depth' := if Py.chr_eqb c "{" then (depth + 1)%Z
                      else if Py.chr_eqb c "}" then (depth - 1)%Z else depth in
        let (t, rest) := take_block r depth' in (c :: t, rest)
      else ([], s)
  | [] => ([], [])
  end.

(** The [while i < len(content)] loop of [_parse_inline_content] on the text
    from index [i] on.  Every turn passes at least one character and the
    nested call reads a shorter text, so [fuel] = length + 1 is enough. *)
Fixpoint inline_loop (fuel : nat) (s : str) : list PdxNode :=
  match fuel with
  | O => []
  | S fuel' =>
      let s := skip_blanks s in
      match s with
      | [] => []
      | _ =>
          let (tok, s1) := take_until [" "%char; Py.TAB; "="%char; "{"%char; "}"%char] s in
          let token := Py.strip tok in
          if negb (Py.nonempty token) then inline_loop fuel' (skipn 1 s1)
          else
            let s2 := skip_blanks s1 in
            match s2 with
            | c :: s3 =>
                if Py.chr_eqb c "=" then
                  let s4 := skip_blanks s3 in
                  match s4 with
                  | c' :: s5 =>
                      if Py.chr_eqb c' "{" then
                        let (passed, rest) := take_block s5 1%Z in
                        let block_content := Py.strip (removelast passed) in
                        node BLOCK token [] [] [] []
                          (if Py.nonempty block_content
                           then inline_loop fuel' (Py.strip block_content) else [])
                        :: inline_loop fuel' rest
                      else
                        let (v, rest) := take_until [" "%char; Py.TAB; "{"%char; "}"%char] s4 in
                        node PROPERTY token (Py.strip v) [] [] [] [] :: inline_loop fuel' rest
                  | [] => node PROPERTY token [] [] [] [] [] :: inline_loop fuel' []
                  end
                else node LIST_ITEM [] token [] [] [] [] :: inline_loop fuel' s2
            | [] => [node LIST_ITEM [] token [] [] [] []]
            end
      end
  end.

Definition _parse_inline_content (content : str) : list PdxNode :=
  let content := Py.strip content in
  if negb (Py.nonempty content) then []
  else inline_loop (S (length content)) content.

(** [r'^([a-zA-Z0-9_][a-zA-Z0-9_\.:\s]*?)\s*=\s*\{(.* )$'] (the blank before
    the last closing parenthesis is not in the source) *)
Definition RE_BLOCK : list Re.atom :=
  [Re.One Re.word; Re.LazyStar Re.ident_or_space; Re.Star Re.space;
   Re.One (Re.chr "="); Re.Star Re.space; Re.One (Re.chr "{");
   Re.Star Re.dot_any; Re.Eol].

(** [r'^([a-zA-Z0-9_][a-zA-Z0-9_\.:]* )\s*=\s*(.+)$'] *)
Definition RE_PROP : list Re.atom :=
  [Re.One Re.word; Re.Star Re.ident; Re.Star Re.space; Re.One (Re.chr "=");
   Re.Star Re.space; Re.Plus Re.dot_any; Re.Eol].

(** [r'^([a-zA-Z0-9_\.:]+)(.* )$'] *)
Definition RE_LIST : list Re.atom :=
  [Re.Plus Re.ident; Re.Star Re.dot_any; Re.Eol].

(** [leading_close]: the loop strips white space and then asks for a closing
    brace, again and again; it counts the closing braces of the longest
    prefix made of white space and closing braces. *)
Fixpoint leading_close_of (temp : str) : nat :=
  match temp with
  | c :: r =>
      if Py.chr_eqb c "}" then S (leading_close_of r)
      else if Py.isspace c then leading_close_of r
      else 0
  | [] => 0
  end.

(** [for _ in range(leading_close): pos = remaining.find('}'); ...] *)
Fixpoint drop_closes (n : nat) (remaining : str) : str :=
  match n with
  | O => remaining
  | S n' =>
      let pos := Py.find remaining "}" in
      drop_closes n'
        (if (0 <=? pos)%Z then Py.strip (Py.from remaining (pos + 1)%Z) else remaining)
  end.

(** The stack of open blocks, innermost first.  In the source a block is
    appended to its parent's [children] when it is opened and stays shared
    with the stack; until it is popped no other node is appended to that
    parent, so appending the block when it is popped (or when the input
    ends) yields the same list.  The root is the last element. *)
Definition Stack : Type := list PdxNode.

(** [stack[-1].children.append(n)] *)
Definition append_child (stack : Stack) (n : PdxNode) : Stack :=
  match stack with
  | top :: below => set_children top (children top ++ [n]) :: below
  | [] => []
  end.

(** [if len(stack) > 1: stack.pop()] *)
Definition pop (stack : Stack) : Stack :=
  match stack with
  | top :: (parent :: below) as rest => append_child rest top
  | _ => stack
  end.

Fixpoint pop_n (n : nat) (stack : Stack) : Stack :=
  match n with
  | O => stack
  | S n' => pop_n n' (pop stack)
  end.

(** The open blocks that the end of the input leaves on the stack stay in
    their parents; the root is returned. *)
Fixpoint unwind (fuel : nat) (stack : Stack) : Stack :=
  match fuel with
  | O => stack
  | S fuel' => unwind fuel' (pop stack)
  end.

(** The body of [for line_num, line in enumerate(lines)]. *)
Definition parse_line (stack : Stack) (line : str) : Stack :=
  let original_line := line in
  let stripped := Py.strip line in
  let indent_ := if Py.nonempty stripped then Py.prefix_minus line stripped else [] in
  if negb (Py.nonempty stripped) then
    append_child stack (node EMPTY_LINE [] [] [] original_line indent_ [])
  else
    let hash_pos := _find_comment_pos stripped in
    let line_for_braces :=
      if (0 <=? hash_pos)%Z then Py.upto stripped hash_pos else stripped in
    let leading_close := leading_close_of line_for_braces in
    let stack := pop_n leading_close stack in
    let remaining := drop_closes leading_close stripped in
    if negb (Py.nonempty remaining) then stack
    else if Py.startswith remaining "#" then
      append_child stack (node COMMENT [] remaining [] original_line indent_ [])
    else
      match Re.rmatch RE_BLOCK remaining with
      | Some (ms, _) =>
          let name_ := Py.strip (Re.group ms 0 2) in
          let rest := Re.item ms 6 in
          let rest_hash := _find_comment_pos rest in
          let comment_ :=
            if (0 <=? rest_hash)%Z then Py.strip (Py.from rest rest_hash) else [] in
          let rest := if (0 <=? rest_hash)%Z then Py.upto rest rest_hash else rest in
          let rest := Py.strip rest in
          if Py.endswith rest "}" then
            let inner := Py.strip (removelast rest) in
            append_child stack
              (node BLOCK name_ [] comment_ original_line indent_
                 (if Py.nonempty inner then _parse_inline_content inner else []))
          else
            node BLOCK name_ [] comment_ original_line indent_ [] :: stack
      | None =>
          match Re.rmatch RE_PROP remaining with
          | Some (ms, _) =>
              let name_ := Py.strip (Re.group ms 0 2) in
              let value_ := Py.strip (Re.item ms 5) in
              let val_hash := _find_comment_pos value_ in
              let comment_ :=
                if (0 <=? val_hash)%Z then Py.strip (Py.from value_ val_hash) else [] in
              let value_ :=
                if (0 <=? val_hash)%Z then Py.strip (Py.upto value_ val_hash) else value_ in
              append_child stack
                (node PROPERTY name_ value_ comment_ original_line indent_ [])
          | None =>
              match Re.rmatch RE_LIST remaining with
              | Some (ms, _) =>
                  let value_ := Re.item ms 0 in
                  let rest := Py.strip (Re.item ms 1) in
                  let comment_ := if Py.startswith rest "#" then rest else [] in
                  append_child stack
                    (node LIST_ITEM [] value_ comment_ original_line indent_ [])
              | None =>
                  append_child stack
                    (node COMMENT [] remaining [] original_line indent_ [])
              end
          end
      end.

(** [parse] *)
Definition parse (content : str) : PdxNode :=
  let content := Py.replace (Py.replace content [Py.CR; Py.NL] [Py.NL]) [Py.CR] [Py.NL] in
  let lines := Py.split content Py.NL in
  let root := node ROOT "__root__" [] [] [] [] [] in
  let stack := fold_left parse_line lines [root] in
  match unwind (length stack) stack with
  | r :: _ => r
  | [] => root
  end.

End PdxParser.

(** ** pdx_parser.py: PdxSerializer *)

Module PdxSerializer.

Import Pdx.

Definition is_real (c : PdxNode) : bool :=
  negb (NodeType_eqb (node_type c) EMPTY_LINE || NodeType_eqb (node_type c) COMMENT).

(** [_can_be_inline] *)
Fixpoint _can_be_inline (n : PdxNode) : bool :=
  match n with
  | mkPdxNode _ _ _ cs _ _ _ _ =>
      let real_children := filter is_real cs in
      if 8 <? length real_children then false
      else
        (fix all_blocks_inline (l : list PdxNode) : bool :=
           match l with
           | [] => true
           | child :: l' =>
               if is_real child && NodeType_eqb (node_type child) BLOCK
                  && negb (_can_be_inline child)
               then false else all_blocks_inline l'
           end) cs
  end.

(** [_inline_child] *)
Fixpoint _inline_child (n : PdxNode) : str :=
  match n with
  | mkPdxNode t name_ value_ cs _ _ _ _ =>
      match t with
      | PROPERTY => name_ ++ " = " ++ value_
      | LIST_ITEM => value_
      | BLOCK =>
          match cs with
          | [] => name_ ++ " = { }"
          | _ =>
              let content :=
                Py.join " "
                  ((fix go (l : list PdxNode) : list str :=
                      match l with
                      | [] => []
                      | c :: l' => if is_real c then _inline_child c :: go l' else go l'
                      end) cs) in
              name_ ++ " = { " ++ content ++ " }"
          end
      | _ => []
      end
  end.

(** [f"{line} {comment}"] when the comment is not empty *)
Definition with_comment (line comment_ : str) : str :=
  if Py.nonempty comment_ then line ++ " " ++ comment_ else line.

(** [_serialize_node]; [None] is Python's [None]. *)
Fixpoint _serialize_node (n : PdxNode) (indent_level : nat) : option str :=
  let indent_ := Py.tabs indent_level in
  match n with
  | mkPdxNode t name_ value_ cs comment_ commented raw indent_field =>
      match t with
      | EMPTY_LINE => Some []
      | COMMENT =>
          if Py.nonempty raw then Some (Py.rstrip_chars [Py.CR; Py.NL] raw)
          else Some (indent_ ++ value_)
      | PROPERTY => Some (with_comment (indent_ ++ name_ ++ " = " ++ value_) comment_)
      | LIST_ITEM => Some (with_comment (indent_ ++ value_) comment_)
      | BLOCK =>
          if commented then
            if Py.nonempty raw then
              Some (Py.join [Py.NL]
                      ([Py.rstrip_chars [Py.CR; Py.NL] raw]
                       ++ map (fun c => Py.rstrip_chars [Py.CR; Py.NL] (raw_line c))
                              (filter (fun c => Py.nonempty (raw_line c)) cs)
                       ++ [indent_ ++ "#}"]))
            else
              Some (Py.join [Py.NL]
                      ([indent_ ++ "#" ++ name_ ++ " = {"]
                       ++ (fix go (l : list PdxNode) : list str :=
                             match l with
                             | [] => []
                             | c :: l' =>
                                 match _serialize_node c (S indent_level) with
                                 | Some child_ser =>
                                     if Py.nonempty child_ser then child_ser :: go l'
                                     else go l'
                                 | None => go l'
                                 end
                             end) cs
                       ++ [indent_ ++ "#}"]))
          else
            let header := with_comment (indent_ ++ name_ ++ " = {") comment_ in
            match cs with
            | [] => Some (header ++ " }")
            | _ =>
                if _can_be_inline n then
                  let content :=
                    Py.join " " (map _inline_child (filter is_real cs)) in
                  Some (header ++ " " ++ content ++ " }")
                else
                  Some (Py.join [Py.NL]
                          ([header]
                           ++ (fix go (l : list PdxNode) : list str :=
                                 match l with
                                 | [] => []
                                 | c :: l' =>
                                     match _serialize_node c (S indent_level) with
                                     | Some child_ser => child_ser :: go l'
                                     | None => go l'
                                     end
                                 end) cs
                           ++ [indent_ ++ "}"]))
            end
      | ROOT => None
      end
  end.

(** [serialize] *)
Definition serialize (n : PdxNode) (indent_level : nat) : str :=
  Py.join [Py.NL]
    (flat_map (fun child => match _serialize_node child indent_level with
                            | Some serialized => [serialized]
                            | None => []
                            end)
              (children n)).

End PdxSerializer.

(** ** smart_patch_generator.py: the file loop of generate_patch

    The file system is its content as the loop sees it: a file is absent,
    present but unreadable (the [open]/[read] raises), or present with a
    text.  A relative path is the list of its parts ([Path.parts]). *)

Module SmartPatchGenerator.

Inductive FileState := Absent | Unreadable | Readable (text : str).

Definition RelPath : Type := list str.

(** [str(path)] *)
Definition path_str (p : RelPath) : str := Py.join "/" p.

Definition MERGEABLE_EXTENSIONS : list str := [ ".txt" : str; ".gui" : str; ".gfx" : str ].

Definition MERGEABLE_FOLDERS : list str :=
  [ "common" : str; "events" : str; "history" : str; "decisions" : str;
    "gui" : str; "interface" : str; "gfx" : str; "scripted_triggers" : str;
    "scripted_effects" : str; "on_actions" : str ].

Definition IGNORED_FOLDERS : list str :=
  [ "fonts" : str; "music" : str; "sound" : str; "tools" : str;
    "dlc" : str; "dlc_metadata" : str; "localization" : str; "map_data" : str;
    "content_source" : str; "portraits" : str; "coat_of_arms" : str ].

(** [Path.suffix]: the last component from its last dot on, when that dot
    is neither its first nor its last character. *)
Definition suffix (p : RelPath) : str :=
  let name_ := last p [] in
  let i := Py.rfind name_ "." in
  if (0 <? i)%Z && (i <? Py.len name_ - 1)%Z then Py.from name_ i else [].

Definition _is_mergeable (relative_path : RelPath) : bool :=
  if negb (str_in (Py.lower (suffix relative_path)) MERGEABLE_EXTENSIONS) then false
  else
    match relative_path with
    | top :: _ =>
        let top_folder := Py.lower top in
        if str_in top_folder (map Py.lower IGNORED_FOLDERS) then false
        else if negb (str_in top_folder (map Py.lower MERGEABLE_FOLDERS)) then false
        else true
    | [] => true
    end.

(** [_normalize_content] of the generator: comments are cut at the first
    [#], every blank, tab and carriage return is removed. *)
Definition _normalize_content (content : str) : str :=
  let cut (line : str) : str :=
    if Py.contains line "#" then Py.upto line (Py.find line "#") else line in
  let lines := filter Py.nonempty
                 (map (fun line => Py.strip (cut line)) (Py.split content Py.NL)) in
  filter (fun c => negb (Py.chr_eqb c " " || Py.chr_eqb c Py.TAB || Py.chr_eqb c Py.CR))
         (concat lines).

Inductive StatError :=
| MergeFailed (relative_path : RelPath) (e : StructuralMerger.MergeError).

Record PatchStats := mkStats
  { total_files : Z;
    merged_files : Z;
    copied_files : Z;
    skipped_files : Z;
    failed_files : Z;
    errors : list StatError }.

(** What the loop does to the output directory: [_save_file] writes a text,
    [_copy_file] copies a source file (named by its mod). *)
Inductive Output :=
| Saved (relative_path : RelPath) (text : str)
| Copied (relative_path : RelPath) (mod_name_ : str) (source : FileState).

(** A source of a file: the mod (by its name, [read_mod_name]) and the
    file in that mod. *)
Definition Source : Type := str * FileState.

Definition is_changed (base_normalized : option str) (s : Source) : bool :=
  match snd s with
  | Readable mod_content =>
      match base_normalized with
      | None => true
      | Some b => negb (Py.str_eqb (_normalize_content mod_content) b)
      end
  | _ => true
  end.

Definition as_read (f : FileState) : option str :=
  match f with Readable t => Some t | _ => None end.

Definition World : Type := PatchStats * list Output.

Definition bump_skipped (s : PatchStats) : PatchStats :=
  mkStats (total_files s) (merged_files s) (copied_files s) (skipped_files s + 1)
          (failed_files s) (errors s).
Definition bump_merged (s : PatchStats) : PatchStats :=
  mkStats (total_files s) (merged_files s + 1) (copied_files s) (skipped_files s)
          (failed_files s) (errors s).
Definition bump_copied (s : PatchStats) : PatchStats :=
  mkStats (total_files s) (merged_files s) (copied_files s + 1) (skipped_files s)
          (failed_files s) (errors s).
Definition bump_failed (s : PatchStats) (e : StatError) : PatchStats :=
  mkStats (total_files s) (merged_files s) (copied_files s) (skipped_files s)
          (failed_files s + 1) (errors s ++ [e]).

(** The body of [for i, (relative_path, sources) in enumerate(mod_files.items())]. *)
Definition process_file (base : RelPath -> FileState) (w : World)
    (entry : RelPath * list Source) : World :=
  let (relative_path, sources) := entry in
  let (stats, out) := w in
  match base relative_path with
  | Absent => (bump_skipped stats, out)
  | base_file =>
      let base_normalized := option_map _normalize_content (as_read base_file) in
      let changed_sources := filter (is_changed base_normalized) sources in
      match rev changed_sources with
      | [] => (bump_skipped stats, out)
      | (last_mod, last_file) :: _ =>
          if _is_mergeable relative_path then
            let mod_file_pairs :=
              map (fun s : Source => (fst s, as_read (snd s))) changed_sources in
            let result :=
              fst (StructuralMerger.merge_file (as_read base_file) mod_file_pairs) in
            if StructuralMerger.success result then
              match StructuralMerger.changes result with
              | [] => (bump_skipped stats, out)
              | _ => (bump_merged stats,
                      out ++ [Saved relative_path (StructuralMerger.result_content result)])
              end
            else
              (bump_failed stats (MergeFailed relative_path (StructuralMerger.error result)),
               out)
          else
            (bump_copied stats, out ++ [Copied relative_path last_mod last_file])
      end
  end.

(** The whole loop, from fresh statistics with [total_files] set. *)
Definition process_files (base : RelPath -> FileState)
    (mod_files : list (RelPath * list Source)) : World :=
  fold_left (process_file base) mod_files
    (mkStats (Z.of_nat (length mod_files)) 0 0 0 0 [], []).

End SmartPatchGenerator.

(** * Definitions used in the statements *)

Definition str_dec (a b : str) : {a = b} + {a <> b} := list_eq_dec ascii_dec a b.

(** The keys of a dictionary, in order *)
Definition keys {V : Type} (d : Dict.t V) : list str := map fst d.

Module FuelDefs.

(** The size of a list of lines: its characters, plus one per line. *)
Fixpoint size (lines : list str) : nat :=
  match lines with
  | [] => 0
  | l :: r => S (length l + size r)
  end.

End FuelDefs.

Module TopLevelDefs.

Import ParadoxRules StructuralMerger.

(** The blocks that the loop of [_parse_top_level_blocks] builds, in the
    order in which it stores them. *)
Fixpoint scan_loop (fuel : nat) (lines : list str) (i : Z) : list ParsedBlock :=
  match fuel with
  | O => []
  | S fuel' =>
      match lines with
      | [] => []
      | line :: rest =>
          let stripped := Py.strip line in
          if negb (Py.nonempty stripped) || Py.startswith stripped "#" then
            scan_loop fuel' rest (i + 1)%Z
          else
            match Re.rmatch RE_BLOCK_START stripped with
            | Some (ms, _) =>
                let (block_lines, left) := collect_block lines 0%Z in
                make_block (Re.group ms 0 2) line i block_lines
                :: scan_loop fuel' left (i + Z.of_nat (length block_lines))%Z
            | None => scan_loop fuel' rest (i + 1)%Z
            end
      end
  end.

Definition top_level_blocks (content : str) : list ParsedBlock :=
  let lines := Py.split content Py.NL in
  scan_loop (length lines) lines 0%Z.

Definition store (d : Dict.t ParsedBlock) (b : ParsedBlock) : Dict.t ParsedBlock :=
  Dict.set d (name b) b.

(** The last block of a given name in a list. *)
Definition last_named (nm : str) (bs : list ParsedBlock) : option ParsedBlock :=
  find (fun b => Py.str_eqb (name b) nm) (rev bs).

End TopLevelDefs.

Module MergeDefs.

Import ParadoxRules StructuralMerger TopLevelDefs.

(** [content.replace('\r\n', '\n')] *)
Definition crlf_to_lf (t : str) : str := Py.replace t [Py.CR; Py.NL] [Py.NL].

(** The block of a given name in a mod's file. *)
Definition mod_block (nm : str) (mod_text : str) : option ParsedBlock :=
  Dict.get (_parse_top_level_blocks (crlf_to_lf mod_text)) nm.

(** The block of a given name in a mod's file differs from the block [B]
    of the base. *)
Definition differs_in (B : ParsedBlock) (nm : str) (mod_text : str) : bool :=
  match mod_block nm mod_text with
  | Some Bm => _blocks_differ B Bm
  | None => false
  end.

(** The end of [merge_contents]: validation of the rewritten text. *)
Definition finish (filename : str) (st : State) : StructuralMergeResult * list MergeChange :=
  let result := fst st in
  let log := snd st ++ warning_changes (snd (StructureValidator.validate result filename)) in
  if _validate_braces result
  then (mkResult true result NoError log, log)
  else (mkResult false []
          (UnbalancedAfterMerge (fst (_count_braces result)) (snd (_count_braces result)))
          [], log).

Section Atomic.

Variables (base_blocks : Dict.t ParsedBlock) (nm : str).

Definition prev (acc : Dict.t (list Change)) : list Change :=
  match Dict.get acc nm with Some l => l | None => [] end.

(** When the mods change no other block, [all_changes] has the entry of
    [nm] and nothing else. *)
Definition untouched_elsewhere (mod_text : str) : Prop :=
  forall k v, In (k, v) (_parse_top_level_blocks mod_text) -> k <> nm ->
    Py.startswith k "__" = true
    \/ exists Bk, Dict.get base_blocks k = Some Bk /\ _blocks_differ Bk v = false.

Definition only_nm (acc : Dict.t (list Change)) : Prop :=
  acc = [] \/ exists l, acc = [(nm, l)].

End Atomic.

(** A witness: scenario S2 of the specification. *)
Definition s2_base : str :=
  "europe.0001 = {" ++ [Py.NL] ++ "	title = base_title" ++ [Py.NL]
  ++ "	option = { name = a }" ++ [Py.NL] ++ "}".

Definition s2_mod_a : str :=
  "europe.0001 = {" ++ [Py.NL] ++ "	title = modA_title" ++ [Py.NL]
  ++ "	option = { name = a }" ++ [Py.NL] ++ "}".

Definition s2_mod_b : str :=
  "europe.0001 = {" ++ [Py.NL] ++ "	title = base_title" ++ [Py.NL]
  ++ "	option = { name = b }" ++ [Py.NL] ++ "}".

Definition block_or_empty (o : option ParsedBlock) : ParsedBlock :=
  match o with
  | Some b => b
  | None => mkParsedBlock [] [] [] 0 0 [] false [] [] []
  end.

End MergeDefs.

Module DuplicateDefs.

Import ParadoxRules StructuralMerger TopLevelDefs MergeDefs.


End DuplicateDefs.

Module AccumulateDefs.

Import ParadoxRules StructuralMerger.

(** The items of [items] that are not in [seen], each once, in the order of
    their first occurrence. *)
Fixpoint novel (seen : list str) (items : list str) : list str :=
  match items with
  | [] => []
  | x :: rest =>
      if str_in x seen then novel seen rest
      else x :: novel (seen ++ [x]) rest
  end.

(** The list items that the mods hold at child [child_name], index [idx],
    in mod order. *)
Definition mod_items_at (mods : list (str * ParsedBlock)) (child_name : str) (idx : nat)
  : list str :=
  flat_map (fun m : str * ParsedBlock =>
              match mod_child_at (snd m) child_name idx with
              | Some c => list_items c
              | None => []
              end) mods.

(** Scenario S1 of the specification. *)
Definition s1_base : str := "on_game_start = { on_actions = { vanilla_init } }".

Definition s1_mod_a : str :=
  "on_game_start = { on_actions = { vanilla_init modA_init } }".

Definition s1_mod_b : str :=
  "on_game_start = { on_actions = { vanilla_init modB_init } }".

Definition list_block (nm : str) (items : list str) : ParsedBlock :=
  mkParsedBlock nm [] [] 0 0 [] false [] items [].

Definition holder (child : ParsedBlock) : ParsedBlock :=
  mkParsedBlock "on_game_start" [] [] 0 0 [] false [(name child, [child])] [] [].

(** The list items of child [child_name], index [idx], of the top-level
    block [block_name] of a file. *)
Definition items_in_file (text block_name child_name : str) (idx : nat) : option (list str) :=
  match Dict.get (_parse_top_level_blocks text) block_name with
  | Some b =>
      match mod_child_at b child_name idx with
      | Some c => Some (list_items c)
      | None => None
      end
  | None => None
  end.

End AccumulateDefs.

Module ValidatorDefs.

Import ParadoxRules StructureValidator.



End ValidatorDefs.

Module GeneratorDefs.

Import SmartPatchGenerator.

(** The sources that the loop keeps for a file, and the merge it runs. *)
Definition changed_sources_of (base_file : FileState) (sources : list Source)
  : list Source :=
  filter (is_changed (option_map _normalize_content (as_read base_file))) sources.

Definition merge_result_of (base_file : FileState) (sources : list Source)
  : StructuralMerger.StructuralMergeResult :=
  fst (StructuralMerger.merge_file (as_read base_file)
         (map (fun s : Source => (fst s, as_read (snd s)))
              (changed_sources_of base_file sources))).

Definition c8_path : RelPath := ["common" : str; "traits" : str; "x.txt" : str].

Definition c8_base (p : RelPath) : FileState :=
  if list_eq_dec str_dec p c8_path then Readable ("a = {" ++ [Py.NL] ++ "}") else Absent.

Definition c8_sources : list Source :=
  [("m" : str, Readable ("a = {" ++ [Py.NL] ++ "b = {" ++ [Py.NL] ++ "}"))].

End GeneratorDefs.

Module CommentedBlockDefs.

Import Pdx PdxParser.

(** No node of the tree is marked as a commented block. *)
Fixpoint no_commented (n : PdxNode) : bool :=
  match n with
  | mkPdxNode _ _ _ cs _ commented _ _ => negb commented && forallb no_commented cs
  end.

Definition clean_stack (stack : Stack) : Prop :=
  Forall (fun n => no_commented n = true) stack.

Definition c6_input : str :=
  "#test.1 = {" ++ [Py.NL] ++ "#	type = character_event" ++ [Py.NL] ++ "#}".

End CommentedBlockDefs.

Module BraceDefs.

Import Pdx PdxParser PdxSerializer.

Definition is_brace (c : ascii) : bool := Py.chr_eqb c "{" || Py.chr_eqb c "}".

Definition is_mark (c : ascii) : bool := Py.chr_eqb c "#" || Py.chr_eqb c Py.QUOTE.

(** no brace in the text *)
Definition brace_free (s : str) : bool := forallb (fun c => negb (is_brace c)) s.

(** neither [#] nor a double quote in the text *)
Definition mark_free (s : str) : bool := forallb (fun c => negb (is_mark c)) s.

(** A quote toggles unless the character before it is a backslash. *)
Definition unescaped (prev : option ascii) : bool :=
  match prev with
  | None => true
  | Some p => negb (Py.chr_eqb p Py.BACKSLASH)
  end.

(** The scan of [_find_comment_pos] over a text, with the state in which it
    ends: inside quotes or not.  There is no result when the scan meets a
    [#] outside quotes, a brace inside quotes, or a newline. *)
Fixpoint quote_scan (line : str) (prev : option ascii) (in_quotes : bool) : option bool :=
  match line with
  | [] => Some in_quotes
  | char :: rest =>
      if Py.chr_eqb char Py.QUOTE && unescaped prev
      then quote_scan rest (Some char) (negb in_quotes)
      else if Py.chr_eqb char "#" && negb in_quotes then None
      else if is_brace char && in_quotes then None
      else if Py.chr_eqb char Py.NL then None
      else quote_scan rest (Some char) in_quotes
  end.

(** A calm text: one line, no [#] outside quotes, no brace inside quotes,
    and every quote closed. *)
Definition calm (s : str) : bool :=
  match quote_scan s None false with
  | Some false => true
  | _ => false
  end.


(** The count the claim speaks of: braces outside [#]-comments and outside
    double-quoted strings, line by line.  Quotes toggle as in
    [_find_comment_pos]. *)
Fixpoint count_outside (line : str) (prev : option ascii) (in_quotes : bool) : Z * Z :=
  match line with
  | [] => (0, 0)%Z
  | char :: rest =>
      if Py.chr_eqb char Py.QUOTE &&
         match prev with
         | None => true
         | Some p => negb (Py.chr_eqb p Py.BACKSLASH)
         end
      then count_outside rest (Some char) (negb in_quotes)
      else if Py.chr_eqb char "#" && negb in_quotes then (0, 0)%Z
      else
        let (o, c) := count_outside rest (Some char) in_quotes in
        if in_quotes then (o, c)
        else ((if Py.chr_eqb char "{" then 1 else 0) + o,
              (if Py.chr_eqb char "}" then 1 else 0) + c)%Z
  end.

Definition sum_pairs (l : list (Z * Z)) : Z * Z :=
  fold_right (fun p acc => (fst p + fst acc, snd p + snd acc)%Z) (0, 0)%Z l.

Definition brace_counts (text : str) : Z * Z :=
  sum_pairs (map (fun line => count_outside line None false) (Py.split text Py.NL)).





(** The merger's own count of a line *)
Definition code_count_line (line : str) : Z * Z :=
  let hash_pos := StructuralMerger._find_comment_start line in
  let line := if (0 <=? hash_pos)%Z then Py.upto line hash_pos else line in
  (Py.count line "{", Py.count line "}").







End BraceDefs.

Module OperatorDefs.

Import Pdx PdxParser PdxSerializer.

(** a text whose last character is not white space *)
Definition ends_nonspace (s : str) : Prop :=
  match rev s with
  | z :: _ => Py.isspace z = false
  | [] => False
  end.

Definition ends_nonspace_b (s : str) : bool :=
  match rev s with
  | z :: _ => negb (Py.isspace z)
  | [] => false
  end.

Section OperatorLine.

Variables (c0 o : ascii) (tail R : str).

Definition op_line : str := c0 :: tail ++ " "%char :: o :: R.

End OperatorLine.

Section EqualsLine.

Variables (c0 v : ascii) (tail vs : str).

Definition prop_line : str := c0 :: tail ++ " "%char :: "="%char :: " "%char :: v :: vs.

Definition block_line : str := c0 :: tail ++ " = {".

End EqualsLine.

(** a name: [[a-zA-Z0-9_][a-zA-Z0-9_\.:]*] *)
Definition is_name (s : str) : bool :=
  match s with
  | c :: t => Re.word c && forallb Re.ident t
  | [] => false
  end.

(** a right-hand side: a calm text (one line, every quote closed, no [#]
    outside quotes, no brace inside quotes) that does not end with white
    space *)
Definition is_rhs (s : str) : bool := ends_nonspace_b s && BraceDefs.calm s.

(** a value: a right-hand side that starts with neither white space nor an
    opening brace; a number, a name, a quoted string *)
Definition is_value (s : str) : bool :=
  match s with
  | v :: _ => negb (Py.isspace v) && negb (Py.chr_eqb v "{") && is_rhs s
  | [] => false
  end.

(** the operators other than [=] *)
Definition comparison_operators : list str := ["<" : str; ">" : str; "<=" : str; ">=" : str; "?=" : str].

(** the line [name OP rhs] *)
Definition line_of (name_ op rhs : str) : str := name_ ++ " " ++ op ++ " " ++ rhs.

Definition c7_stack : Stack := [node ROOT "__root__" [] [] [] [] []].

End OperatorDefs.

Module RoundTripDefs.

Import Pdx PdxParser PdxSerializer OperatorDefs.

(** The lines that [parse] reads. *)
Definition pdx_lines (content : str) : list str :=
  Py.split (Py.replace (Py.replace content [Py.CR; Py.NL] [Py.NL]) [Py.CR] [Py.NL]) Py.NL.

(** A line that is blank, or whose first character after the indentation
    is [#]. *)
Definition comment_or_blank (line : str) : bool :=
  negb (Py.nonempty (Py.strip line)) || Py.startswith (Py.strip line) "#".

(** A property line in the form in which the serializer writes it at the
    top level: a name, one blank, the equals sign, one blank, and a value
    (a number, a name, a quoted string). *)
Definition canonical_property (line : str) : option (str * str) :=
  let (n, rest) := take_until [" "%char] line in
  match rest with
  | " "%char :: "="%char :: " "%char :: v =>
      if is_name n && is_value v then Some (n, v) else None
  | _ => None
  end.

(** The lines that come back as they are: blank lines and comments,
    canonical property lines, and lines that are one name. *)
Definition kept_line (line : str) : bool :=
  comment_or_blank line
  || match canonical_property line with Some _ => true | None => false end
  || is_name line.

(** The node that [parse] builds for such a line. *)
Definition node_of_line (line : str) : PdxNode :=
  if negb (Py.nonempty (Py.strip line)) then node EMPTY_LINE [] [] [] line [] []
  else if Py.startswith (Py.strip line) "#" then
    node COMMENT [] (Py.strip line) [] line (Py.prefix_minus line (Py.strip line)) []
  else
    match canonical_property line with
    | Some (n, v) => node PROPERTY n v [] line [] []
    | None => node LIST_ITEM [] line [] line [] []
    end.




End RoundTripDefs.

Module RuleDefs.

(** One character of [path.replace('\\', '/')] *)
Definition swap_sep (x : ascii) : ascii := if Py.chr_eqb x Py.BACKSLASH then "/"%char else x.

End RuleDefs.

Module MergeMoreDefs.

Import ParadoxRules StructuralMerger MergeDefs.

(** No top-level block of the given name in a mod's file. *)
Definition lacks (nm : str) (mod_text : str) : bool :=
  match mod_block nm mod_text with
  | Some _ => false
  | None => true
  end.

(** A witness: a base with one block and two mods that bring a new one. *)
Definition nb_base : str := "a = {" ++ [Py.NL] ++ "x = 1" ++ [Py.NL] ++ "}" ++ [Py.NL].

Definition nb_mod_a : str :=
  "a = {" ++ [Py.NL] ++ "x = 1" ++ [Py.NL] ++ "}" ++ [Py.NL]
  ++ "b = {" ++ [Py.NL] ++ "y = 1" ++ [Py.NL] ++ "}".

Definition nb_mod_b : str :=
  "b = {" ++ [Py.NL] ++ "y = 2" ++ [Py.NL] ++ "}".

End MergeMoreDefs.

Module DeepMergeDefs.

Import ParadoxRules StructuralMerger.

(** A mod has no child of the given name at the given index, or one that
    does not differ from the base child. *)
Definition keeps_child (base_child : ParsedBlock) (child_name : str) (idx : nat)
    (m : str * ParsedBlock) : bool :=
  match mod_child_at (snd m) child_name idx with
  | Some c => negb (_blocks_differ base_child c)
  | None => true
  end.

(** The records that the addition of new children may write. *)
Definition addition_record (c : MergeChange) : Prop :=
  change_type c = ("added_child_block" : str) \/ change_type c = ("skipped_unsafe" : str).

Definition is_added (c : MergeChange) : bool :=
  Py.str_eqb (change_type c) "added_child_block".

(** What the loop over the new children keeps true of its state: the changes
    are the earlier ones followed by records of additions, and the text has
    changed only if one of them is an [added_child_block]. *)
Definition additions_inv (text0 : str) (chs0 : list MergeChange)
    (acc : State * list (str * nat)) : Prop :=
  exists records,
    snd (fst acc) = chs0 ++ records
    /\ Forall addition_record records
    /\ (existsb is_added records = false -> fst (fst acc) = text0).

(** A block with one child block. *)
Definition one_child (nm : str) (child : ParsedBlock) : ParsedBlock :=
  mkParsedBlock nm [] [] 0 0 [] false [(name child, [child])] [] [].

Definition leaf (nm full inner : str) : ParsedBlock :=
  mkParsedBlock nm full inner 0 0 [] false [] [] [].

End DeepMergeDefs.

Module ListTextDefs.

Import ParadoxRules StructuralMerger.

(** A text of white space only. *)
Definition blank (s : str) : bool := forallb Py.isspace s.

(** A line of the cleaned text of a list: white space, then maybe an item. *)
Definition entry_text (e : str * option str) : str :=
  match snd e with
  | Some it => fst e ++ it
  | None => fst e
  end.

Definition entry_items (es : list (str * option str)) : list str :=
  flat_map (fun e : str * option str =>
              match snd e with Some it => [it] | None => [] end) es.

Definition entry_ok (e : str * option str) : bool :=
  blank (fst e) &&
  match snd e with
  | Some it => OperatorDefs.is_name it
  | None => true
  end.

(** The end of [_parse_list_items], after the loop over the characters. *)
Definition finish_items (st : Z * str * list str) : list str :=
  let '(_, current, items) := st in
  let items :=
    if Py.nonempty (Py.strip current) &&
       (negb (Py.contains current "=") || Py.contains current "{")
    then items ++ [Py.strip current] else items in
  filter (re_matches RE_SIMPLE_IDENT) items.

End ListTextDefs.

Module GeneratorMoreDefs.

Import SmartPatchGenerator GeneratorDefs.

(** The files that the loop has dealt with, by the counters. *)
Definition processed (s : PatchStats) : Z :=
  (merged_files s + copied_files s + skipped_files s + failed_files s)%Z.

Definition is_saved (o : Output) : bool :=
  match o with Saved _ _ => true | Copied _ _ _ => false end.

Definition is_copied (o : Output) : bool :=
  match o with Saved _ _ => false | Copied _ _ _ => true end.

Definition output_path (o : Output) : RelPath :=
  match o with Saved p _ => p | Copied p _ _ => p end.

(** Where an output comes from: the merge of the changed sources of a
    mergeable file, or the last changed source of a file that is not
    mergeable. *)
Definition justified (base : RelPath -> FileState) (sources : list Source) (o : Output)
  : Prop :=
  let p := output_path o in
  base p <> Absent
  /\ changed_sources_of (base p) sources <> []
  /\ match o with
     | Saved _ text =>
         _is_mergeable p = true
         /\ StructuralMerger.success (merge_result_of (base p) sources) = true
         /\ StructuralMerger.changes (merge_result_of (base p) sources) <> []
         /\ text = StructuralMerger.result_content (merge_result_of (base p) sources)
     | Copied _ mod_name_ source =>
         _is_mergeable p = false
         /\ last (changed_sources_of (base p) sources) ([], Absent) = (mod_name_, source)
     end.

(** The counters after some files, seen from the state before them. *)
Definition counted (n : nat) (w0 w : World) : Prop :=
  total_files (fst w) = total_files (fst w0)
  /\ processed (fst w) = (processed (fst w0) + Z.of_nat n)%Z
  /\ (merged_files (fst w) - merged_files (fst w0)
      = Z.of_nat (length (filter is_saved (snd w)))
        - Z.of_nat (length (filter is_saved (snd w0))))%Z
  /\ (copied_files (fst w) - copied_files (fst w0)
      = Z.of_nat (length (filter is_copied (snd w)))
        - Z.of_nat (length (filter is_copied (snd w0))))%Z
  /\ (failed_files (fst w) - failed_files (fst w0)
      = Z.of_nat (length (errors (fst w))) - Z.of_nat (length (errors (fst w0))))%Z
  /\ (skipped_files (fst w0) <= skipped_files (fst w))%Z.

End GeneratorMoreDefs.

Module InlineDefs.

Import Pdx PdxParser PdxSerializer.

(** The node of an item of an inline list. *)
Definition list_item (it : str) : PdxNode := node LIST_ITEM [] it [] [] [] [].

(** A block written on one line: [name = { a b c }]. *)
Definition inline_text (name_ : str) (items : list str) : str :=
  name_ ++ " = { " ++ Py.join " " items ++ " }".

End InlineDefs.

Module LocationDefs.

Import ParadoxRules StructuralMerger TopLevelDefs.

(** The name of the block that a line opens, if it opens one. *)
Definition opened_block (line : str) : option str :=
  match Re.rmatch RE_BLOCK_START (Py.strip line) with
  | Some (ms, _) => Some (Re.group ms 0 2)
  | None => None
  end.

(** The lines [i .. j] of a list of lines. *)
Definition lines_between (lines : list str) (i j : Z) : list str :=
  firstn (Z.to_nat (j - i + 1)) (skipn (Z.to_nat i) lines).

(** A block lies in the text at the lines that it records. *)
Definition located (lines : list str) (b : ParsedBlock) : Prop :=
  (0 <= start_line b <= end_line b)%Z
  /\ (end_line b < Z.of_nat (length lines))%Z
  /\ full_text b = Py.join [Py.NL] (lines_between lines (start_line b) (end_line b))
  /\ inner_text b = inner_of (full_text b)
  /\ option_map opened_block (nth_error lines (Z.to_nat (start_line b)))
     = Some (Some (name b))
  /\ is_commented b = false.

End LocationDefs.

Module ChildrenDefs.

Import ParadoxRules StructuralMerger.

(** The block after [block.add_child(child)]. *)
Definition with_child (b child : ParsedBlock) : ParsedBlock :=
  mkParsedBlock (name b) (full_text b) (inner_text b) (start_line b) (end_line b)
    (indent b) (is_commented b) (add_child (children b) child) (list_items b)
    (properties b).

End ChildrenDefs.

Module LayoutDefs.

Import ParadoxRules StructuralMerger ListTextDefs.

(** What [_normalize_content] keeps of a line. *)
Definition code_of (line : str) : str := Py.strip (strip_comment line).

Definition one_line (s : str) : bool := forallb (fun c => negb (Py.chr_eqb Py.NL c)) s.

(** A line of a text laid out anew: a line of the old text between white
    space, or an added line that is blank or holds only a comment. *)
Inductive layout_line :=
| Kept (before line after : str)
| Added (line : str).

Definition old_line (d : layout_line) : list str :=
  match d with
  | Kept _ line _ => [line]
  | Added _ => []
  end.

Definition new_line (d : layout_line) : str :=
  match d with
  | Kept before line after => before ++ line ++ after
  | Added line => line
  end.

Definition layout_ok (d : layout_line) : bool :=
  match d with
  | Kept before line after =>
      blank before && blank after && one_line before && one_line line && one_line after
  | Added line =>
      (blank line || Py.startswith (Py.strip line) "#") && one_line line
  end.

Definition old_text (ds : list layout_line) : str :=
  Py.join [Py.NL] (flat_map old_line ds).

Definition new_text (ds : list layout_line) : str :=
  Py.join [Py.NL] (map new_line ds).

(** A block with a given inner text. *)
Definition block_of (nm inner : str) : ParsedBlock :=
  mkParsedBlock nm (nm ++ " = {" ++ inner ++ "}") inner 0 0 [] false [] [] [].

End LayoutDefs.

Module LineEndingDefs.

(** A line holds neither a carriage return nor a newline. *)
Definition clean_line (l : str) : bool :=
  forallb (fun c => negb (Py.chr_eqb Py.CR c) && negb (Py.chr_eqb Py.NL c)) l.

(** The text of a list of lines under a line ending. *)
Definition text_with (ending : str) (lines : list str) : str := Py.join ending lines.

End LineEndingDefs.

Module GroupingDefs.

Import ParadoxRules StructuralMerger.

(** The children of a block are filed under their own names, no name has an
    empty list, and the same holds in every child. *)
Fixpoint grouped (b : ParsedBlock) : Prop :=
  match b with
  | mkParsedBlock _ _ _ _ _ _ _ cs _ _ =>
      (fix entries (cs : list (str * list ParsedBlock)) : Prop :=
         match cs with
         | [] => True
         | (nm, l) :: cs' =>
             l <> []
             /\ (fix each (l : list ParsedBlock) : Prop :=
                   match l with
                   | [] => True
                   | c :: l' => name c = nm /\ grouped c /\ each l'
                   end) l
             /\ entries cs'
         end) cs
  end.

(** The same, for a dictionary of children. *)
Definition grouped_children (cs : Dict.t (list ParsedBlock)) : Prop :=
  Forall (fun e : str * list ParsedBlock =>
            snd e <> [] /\ Forall (fun c => name c = fst e /\ grouped c) (snd e)) cs.

End GroupingDefs.

(** * Basic facts about text and dictionaries *)

Section TextFacts.

Lemma chr_eqb_eq (a b : ascii) : Py.chr_eqb a b = true <-> a = b.
Proof. apply Ascii.eqb_eq. Qed.

Lemma chr_eqb_refl (a : ascii) : Py.chr_eqb a a = true.
Proof. apply Ascii.eqb_refl. Qed.

Lemma str_eqb_eq (a b : str) : Py.str_eqb a b = true <-> a = b.
Proof.
  revert b; induction a as [|x a IH]; intros [|y b]; simpl; split; intro H;
    try reflexivity; try discriminate.
  - apply andb_true_iff in H as [Hx Hr].
    apply chr_eqb_eq in Hx; apply IH in Hr; congruence.
  - injection H as -> ->. rewrite chr_eqb_refl. simpl. now apply IH.
Qed.

Lemma str_eqb_refl (a : str) : Py.str_eqb a a = true.
Proof. now apply str_eqb_eq. Qed.

Lemma str_eqb_neq (a b : str) : Py.str_eqb a b = false <-> a <> b.
Proof.
  split; intro H.
  - intro E; apply str_eqb_eq in E; congruence.
  - destruct (Py.str_eqb a b) eqn:E; trivial. apply str_eqb_eq in E; contradiction.
Qed.

Lemma str_in_In (x : str) (l : list str) : str_in x l = true <-> In x l.
Proof.
  unfold str_in. rewrite existsb_exists. split.
  - intros (y & Hy & E). apply str_eqb_eq in E. now subst.
  - intro H. exists x. split; trivial. apply str_eqb_refl.
Qed.

Lemma str_in_app (x : str) (l1 l2 : list str) :
  str_in x (l1 ++ l2) = str_in x l1 || str_in x l2.
Proof. unfold str_in. apply existsb_app. Qed.

End TextFacts.

Section DictFacts.
Context {V : Type}.
Implicit Types (d : Dict.t V) (k : str) (v : V).

Lemma get_set_same d k v : Dict.get (Dict.set d k v) k = Some v.
Proof.
  induction d as [|[k' v'] d IH]; simpl.
  - now rewrite str_eqb_refl.
  - destruct (Py.str_eqb k' k) eqn:E; simpl; rewrite E; trivial.
Qed.

Lemma get_set_other d k k' v : k' <> k -> Dict.get (Dict.set d k v) k' = Dict.get d k'.
Proof.
  intro N. induction d as [|[k0 v0] d IH]; simpl.
  - apply str_eqb_neq in N. 
    destruct (Py.str_eqb k k') eqn:E; trivial.
    apply str_eqb_eq in E. apply str_eqb_neq in N. congruence.
  - destruct (Py.str_eqb k0 k) eqn:E; simpl.
    + apply str_eqb_eq in E; subst k0.
      destruct (Py.str_eqb k k') eqn:E'; trivial.
      apply str_eqb_eq in E'. congruence.
    + now rewrite IH.
Qed.

Lemma keys_set d k v :
  keys (Dict.set d k v) = if Dict.mem d k then keys d else keys d ++ [k].
Proof.
  unfold Dict.mem. induction d as [|[k0 v0] d IH]; simpl; trivial.
  destruct (Py.str_eqb k0 k) eqn:E; simpl; trivial.
  rewrite IH. now destruct (Dict.get d k).
Qed.

Lemma get_None_keys d k : Dict.get d k = None <-> ~ In k (keys d).
Proof.
  induction d as [|[k0 v0] d IH]; simpl.
  - tauto.
  - destruct (Py.str_eqb k0 k) eqn:E.
    + apply str_eqb_eq in E. split; [discriminate | tauto].
    + apply str_eqb_neq in E. rewrite IH. tauto.
Qed.

Lemma NoDup_keys_set d k v : NoDup (keys d) -> NoDup (keys (Dict.set d k v)).
Proof.
  intro H. rewrite keys_set. unfold Dict.mem.
  destruct (Dict.get d k) eqn:E; trivial.
  apply get_None_keys in E.
  apply NoDup_app; auto.
  - constructor; [intros []|constructor].
  - intros x Hx [<-|[]]. contradiction.
Qed.

Lemma In_get d k v : NoDup (keys d) -> In (k, v) d -> Dict.get d k = Some v.
Proof.
  induction d as [|[k0 v0] d IH]; simpl; intros ND Hin; [contradiction|].
  destruct Hin as [E|Hin].
  - injection E as -> ->. now rewrite str_eqb_refl.
  - inversion ND as [|? ? Hn ND']; subst.
    destruct (Py.str_eqb k0 k) eqn:E.
    + apply str_eqb_eq in E; subst. exfalso. apply Hn.
      change k with (fst (k, v)). now apply in_map.
    + auto.
Qed.

Lemma get_In d k v : Dict.get d k = Some v -> In (k, v) d.
Proof.
  induction d as [|[k0 v0] d IH]; simpl; try discriminate.
  destruct (Py.str_eqb k0 k) eqn:E.
  - apply str_eqb_eq in E. intro H; injection H as ->. subst. now left.
  - auto.
Qed.

End DictFacts.

(** * The loops have fuel enough

    Each loop that the model runs on fuel gives the same result with any
    larger amount: the fuel that the model passes never cuts a loop short. *)

Module FuelFacts.

Import StructuralMerger PdxParser FuelDefs.

(** ** [str.replace] *)

Lemma startswith_length (s p : str) : Py.startswith s p = true -> length p <= length s.
Proof.
  revert s; induction p as [|x p IH]; intros [|y s] H; cbn [length]; try lia.
  - discriminate H.
  - cbn [Py.startswith] in H. apply andb_true_iff in H as [_ H].
    apply IH in H. lia.
Qed.

Lemma replace_fuel_enough (old new : str) :
  old <> [] ->
  forall f1 f2 s, length s < f1 -> length s < f2 ->
    Py.replace_fuel f1 s old new = Py.replace_fuel f2 s old new.
Proof.
  intro Hold. induction f1 as [|f1 IH]; intros f2 s H1 H2; [lia|].
  destruct f2 as [|f2]; [lia|]. cbn [Py.replace_fuel].
  destruct (Py.startswith s old) eqn:E.
  - f_equal. apply startswith_length in E.
    assert (0 < length old) by (destruct old; [contradiction|cbn; lia]).
    apply IH; rewrite length_skipn; lia.
  - destruct s as [|c r]; trivial. f_equal. cbn [length] in *. apply IH; lia.
Qed.

(** [Py.replace] is the limit of [replace_fuel]. *)
Lemma replace_any_fuel (s old new : str) fuel :
  old <> [] -> length s < fuel -> Py.replace_fuel fuel s old new = Py.replace s old new.
Proof. intros Hold H. unfold Py.replace. apply replace_fuel_enough; trivial. lia. Qed.

(** ** [_parse_top_level_blocks] *)

Lemma collect_block_length : forall lines d taken left,
  collect_block lines d = (taken, left) -> length left <= length lines - 1.
Proof.
  induction lines as [|l rest IH]; intros d taken left E; cbn [collect_block] in E.
  - injection E as <- <-. cbn. lia.
  - destruct (_ <=? 0)%Z.
    + injection E as <- <-. cbn. lia.
    + destruct (collect_block rest _) as [t l'] eqn:E'.
      injection E as <- <-. apply IH in E'. cbn [length]. lia.
Qed.

Lemma top_loop_enough : forall f1 f2 lines i blocks hdr,
  length lines <= f1 -> length lines <= f2 ->
  top_loop f1 lines i blocks hdr = top_loop f2 lines i blocks hdr.
Proof.
  induction f1 as [|f1 IH]; intros f2 lines i blocks hdr H1 H2.
  - destruct lines; [|cbn in H1; lia]. now destruct f2.
  - destruct f2 as [|f2].
    + destruct lines; [|cbn in H2; lia]. reflexivity.
    + cbn [top_loop]. destruct lines as [|line rest]; trivial.
      cbn [length] in H1, H2.
      destruct (negb _ || _); [apply IH; lia|].
      destruct (Re.rmatch RE_BLOCK_START _) as [[ms r]|]; [|apply IH; lia].
      destruct (collect_block (line :: rest) 0%Z) as [bl left] eqn:E.
      apply collect_block_length in E. cbn [length] in E. apply IH; lia.
Qed.

(** ** [_parse_block_contents] *)

Lemma size_app (a b : list str) : size (a ++ b) = size a + size b.
Proof. induction a as [|x a IH]; cbn [app size]; lia. Qed.

Lemma size_split (s : str) (sep : ascii) : size (Py.split s sep) = S (length s).
Proof.
  induction s as [|c r IH]; [reflexivity|]. cbn [Py.split].
  destruct (Py.chr_eqb c sep).
  - cbn [size length]. lia.
  - destruct (Py.split r sep) as [|h t]; [discriminate IH|].
    cbn [size length] in *. lia.
Qed.

Lemma size_join (ls : list str) (sep : ascii) :
  ls <> [] -> S (length (Py.join [sep] ls)) = size ls.
Proof.
  induction ls as [|l r IH]; [contradiction|]. intros _.
  destruct r as [|l' r'].
  - cbn. lia.
  - change (Py.join [sep] (l :: l' :: r')) with (l ++ [sep] ++ Py.join [sep] (l' :: r')).
    rewrite !length_app. cbn [size length] in *.
    specialize (IH ltac:(discriminate)). lia.
Qed.

Lemma collect_child_app : forall lines d taken left,
  collect_child lines d = (taken, left) -> lines = taken ++ left.
Proof.
  induction lines as [|l rest IH]; intros d taken left E; cbn [collect_child] in E.
  - now injection E as <- <-.
  - destruct (0 <? d)%Z.
    + destruct (collect_child rest _) as [t l'] eqn:E'.
      injection E as <- <-. apply IH in E'. cbn [app]. now rewrite <- E'.
    + now injection E as <- <-.
Qed.

Lemma rfind_from_lt (s : str) (c : ascii) : forall i last,
  (last < i)%Z -> (Py.rfind_from s c i last < i + Z.of_nat (length s))%Z.
Proof.
  induction s as [|x r IH]; intros i last H; cbn [Py.rfind_from length].
  - lia.
  - specialize (IH (i + 1)%Z (if Py.chr_eqb x c then i else last)).
    destruct (Py.chr_eqb x c); lia.
Qed.

Lemma inner_of_shorter (t : str) : t <> [] -> length (inner_of t) < length t.
Proof.
  intro Ht. assert (0 < length t) by (destruct t; [contradiction|cbn; lia]).
  unfold inner_of. destruct (_ <? _)%Z; [|cbn; lia].
  unfold Py.slice, Py.from, Py.upto. rewrite length_skipn, length_firstn.
  pose proof (rfind_from_lt t "}" 0 (-1) ltac:(lia)) as R. fold (Py.rfind t "}") in R.
  lia.
Qed.

Lemma strip_nonempty_line (line : str) : Py.nonempty (Py.strip line) = true -> line <> [].
Proof. intros H ->. discriminate H. Qed.

Lemma parse_lines_enough : forall f1 f2 lines i acc,
  size lines < f1 -> size lines < f2 ->
  parse_lines f1 lines i acc = parse_lines f2 lines i acc.
Proof.
  induction f1 as [|f1 IH]; intros f2 lines i acc H1 H2; [lia|].
  destruct f2 as [|f2]; [lia|]. cbn [parse_lines].
  destruct lines as [|line rest]; trivial. cbn [size] in H1, H2.
  destruct (Py.nonempty (Py.strip line)) eqn:Hne; cbn [negb orb]; [|apply IH; lia].
  destruct (Py.startswith (Py.strip line) _); [apply IH; lia|].
  destruct (Re.rmatch RE_CHILD_BLOCK _) as [[ms r]|].
  - destruct (Py.endswith _ _); [apply IH; lia|].
    destruct (collect_child rest 1%Z) as [taken left] eqn:E.
    apply collect_child_app in E.
    assert (Hs : size rest = size taken + size left) by (rewrite E; apply size_app).
    assert (Hin : size (Py.split (inner_of (Py.join [Py.NL] (line :: taken))) Py.NL)
                  <= length line + size taken).
    { rewrite size_split.
      pose proof (size_join (line :: taken) Py.NL ltac:(discriminate)) as J.
      cbn [size] in J.
      assert (Hl : Py.join [Py.NL] (line :: taken) <> []).
      { apply strip_nonempty_line in Hne. destruct line; [contradiction|].
        destruct taken; discriminate. }
      pose proof (inner_of_shorter _ Hl). lia. }
    rewrite (IH f2 (Py.split _ Py.NL)) by lia.
    apply IH; lia.
  - destruct (Re.rmatch RE_PROPERTY _) as [[ms r]|]; [apply IH; lia|].
    destruct (item_match _); apply IH; lia.
Qed.

(** [_parse_block_contents] is the limit of [parse_lines]. *)
Lemma parse_block_contents_any_fuel (content : str) fuel :
  S (length content) < fuel ->
  parse_lines fuel (Py.split content Py.NL) 0%Z (mkContents [] [] [])
  = _parse_block_contents content.
Proof.
  intro H. unfold _parse_block_contents, contents_fuel.
  apply parse_lines_enough; rewrite size_split; lia.
Qed.

(** ** [_parse_inline_content] *)

Lemma skip_blanks_length (s : str) : length (skip_blanks s) <= length s.
Proof.
  induction s as [|c r IH]; cbn [skip_blanks length]; trivial.
  destruct (is_blank c); cbn [length]; lia.
Qed.

Lemma take_until_app stops : forall s t rest,
  take_until stops s = (t, rest) -> s = t ++ rest.
Proof.
  induction s as [|c r IH]; intros t rest E; cbn [take_until] in E.
  - now injection E as <- <-.
  - destruct (existsb _ stops).
    + now injection E as <- <-.
    + destruct (take_until stops r) as [t' rest'] eqn:E'.
      injection E as <- <-. cbn [app]. now rewrite (IH _ _ eq_refl).
Qed.

Lemma take_block_app : forall s d t rest,
  take_block s d = (t, rest) -> s = t ++ rest.
Proof.
  induction s as [|c r IH]; intros d t rest E; cbn [take_block] in E.
  - now injection E as <- <-.
  - destruct (0 <? d)%Z.
    + destruct (take_block r _) as [t' rest'] eqn:E'.
      injection E as <- <-. cbn [app]. now rewrite (IH _ _ _ E').
    + now injection E as <- <-.
Qed.

Lemma lstrip_length (s : str) : length (Py.lstrip s) <= length s.
Proof.
  induction s as [|c r IH]; cbn [Py.lstrip length]; trivial.
  destruct (Py.isspace c); cbn [length]; lia.
Qed.

Lemma strip_length (s : str) : length (Py.strip s) <= length s.
Proof.
  unfold Py.strip, Py.rstrip. rewrite length_rev.
  pose proof (lstrip_length (rev (Py.lstrip s))) as H. rewrite length_rev in H.
  pose proof (lstrip_length s). lia.
Qed.

Lemma removelast_length (s : str) : length (removelast s) <= length s.
Proof.
  induction s as [|c r IH]; trivial. cbn [removelast].
  destruct r; cbn [length] in *; lia.
Qed.

Lemma inline_loop_enough : forall f1 f2 s,
  length s < f1 -> length s < f2 -> inline_loop f1 s = inline_loop f2 s.
Proof.
  induction f1 as [|f1 IH]; intros f2 s H1 H2; [lia|].
  destruct f2 as [|f2]; [lia|]. cbn [inline_loop].
  pose proof (skip_blanks_length s) as L0.
  destruct (skip_blanks s) as [|c0 r0] eqn:E0; trivial.
  destruct (take_until _ (c0 :: r0)) as [tok s1] eqn:E1.
  apply take_until_app in E1.
  assert (L1 : length tok + length s1 = length (c0 :: r0))
    by (rewrite E1; now rewrite length_app).
  cbn [length] in L0, L1.
  destruct (Py.nonempty (Py.strip tok)) eqn:Hne; cbn [negb].
  - assert (0 < length tok) by (destruct tok; [discriminate Hne|cbn; lia]).
    pose proof (skip_blanks_length s1) as L2.
    destruct (skip_blanks s1) as [|c s3] eqn:E2; trivial.
    cbn [length] in L2.
    destruct (Py.chr_eqb c "=").
    + pose proof (skip_blanks_length s3) as L3.
      destruct (skip_blanks s3) as [|c' s5] eqn:E3.
      * f_equal. apply IH; cbn; lia.
      * cbn [length] in L3. destruct (Py.chr_eqb c' "{").
        -- destruct (take_block s5 1%Z) as [passed rest] eqn:E4.
           apply take_block_app in E4.
           assert (L4 : length passed + length rest = length s5)
             by (rewrite E4; now rewrite length_app).
           pose proof (strip_length (removelast passed)).
           pose proof (strip_length (Py.strip (removelast passed))).
           pose proof (removelast_length passed).
           rewrite (IH f2 (Py.strip (Py.strip (removelast passed)))) by lia.
           rewrite (IH f2 rest) by lia. reflexivity.
        -- destruct (take_until _ (c' :: s5)) as [v rest] eqn:E4.
           apply take_until_app in E4.
           assert (L4 : length v + length rest = length (c' :: s5))
             by (rewrite E4; now rewrite length_app).
           cbn [length] in L4. f_equal. apply IH; lia.
    + f_equal. apply IH; cbn [length]; lia.
  - apply IH; rewrite length_skipn; lia.
Qed.

(** [_parse_inline_content] is the limit of [inline_loop]. *)
Lemma parse_inline_content_any_fuel (content : str) fuel :
  Py.nonempty (Py.strip content) = true -> length (Py.strip content) < fuel ->
  inline_loop fuel (Py.strip content) = _parse_inline_content content.
Proof.
  intros Hne H. unfold _parse_inline_content. rewrite Hne. cbn [negb].
  apply inline_loop_enough; lia.
Qed.

(** ** The end of [parse] *)

Lemma pop_short (stack : Stack) : length stack <= 1 -> pop stack = stack.
Proof. destruct stack as [|a [|b r]]; cbn [length]; trivial. lia. Qed.

Lemma pop_length (stack : Stack) : 1 < length stack -> length (pop stack) = length stack - 1.
Proof. destruct stack as [|a [|b r]]; cbn [length]; try lia. reflexivity. Qed.

Lemma unwind_short fuel : forall stack, length stack <= 1 -> unwind fuel stack = stack.
Proof.
  induction fuel as [|fuel IH]; intros stack H; trivial.
  cbn [unwind]. rewrite pop_short by trivial. now apply IH.
Qed.

Lemma unwind_enough : forall f1 f2 stack,
  length stack <= S f1 -> length stack <= S f2 -> unwind f1 stack = unwind f2 stack.
Proof.
  induction f1 as [|f1 IH]; intros f2 stack H1 H2.
  - now rewrite !unwind_short.
  - destruct f2 as [|f2]; [now rewrite !unwind_short|].
    cbn [unwind]. destruct (Nat.le_gt_cases (length stack) 1) as [L|L].
    + rewrite pop_short by trivial. apply IH; lia.
    + apply IH; rewrite pop_length; lia.
Qed.

(** What [parse] returns is the root, alone on the stack. *)
Lemma unwind_root (stack : Stack) :
  stack <> [] -> length (unwind (length stack) stack) = 1.
Proof.
  remember (length stack) as n eqn:E. revert stack E.
  induction n as [|n IH]; intros stack E H.
  - destruct stack; [contradiction|discriminate].
  - cbn [unwind]. destruct (Nat.le_gt_cases (length stack) 1) as [L|L].
    + rewrite pop_short, unwind_short by trivial.
      destruct stack as [|a [|b r]]; cbn [length] in *; trivial; lia.
    + assert (P : length (pop stack) = n) by (rewrite pop_length; lia).
      apply IH; [now rewrite P|]. intro Z. rewrite Z in P. cbn in P. lia.
Qed.

End FuelFacts.

(** * The top-level parse of the structural merger *)

Module TopLevelFacts.

Import ParadoxRules StructuralMerger TopLevelDefs.

Lemma name_make_block bn line i ls : name (make_block bn line i ls) = bn.
Proof. reflexivity. Qed.

Lemma top_loop_scan fuel : forall lines i blocks hdr,
  fst (top_loop fuel lines i blocks hdr) = fold_left store (scan_loop fuel lines i) blocks.
Proof.
  induction fuel as [|fuel IH]; intros lines i blocks hdr; trivial.
  destruct lines as [|line rest]; trivial.
  cbn [top_loop scan_loop].
  destruct (negb (Py.nonempty (Py.strip line)) || Py.startswith (Py.strip line) "#").
  - apply IH.
  - destruct (Re.rmatch RE_BLOCK_START (Py.strip line)) as [[ms r]|].
    + destruct (collect_block (line :: rest) 0) as [block_lines left] eqn:E.
      rewrite IH. reflexivity.
    + apply IH.
Qed.

Lemma get_fold_store bs : forall d nm,
  Dict.get (fold_left store bs d) nm =
  match last_named nm bs with
  | Some b => Some b
  | None => Dict.get d nm
  end.
Proof.
  unfold last_named.
  induction bs as [|b bs IH] using rev_ind; intros d nm; simpl; trivial.
  rewrite fold_left_app, rev_app_distr. simpl.
  unfold store at 1.
  destruct (Py.str_eqb (name b) nm) eqn:E.
  - apply str_eqb_eq in E. subst nm. apply get_set_same.
  - apply str_eqb_neq in E. rewrite get_set_other by congruence. apply IH.
Qed.

Lemma NoDup_fold_store bs : forall d,
  NoDup (keys d) -> NoDup (keys (fold_left store bs d)).
Proof.
  induction bs as [|b bs IH]; intros d H; simpl; trivial.
  apply IH. now apply NoDup_keys_set.
Qed.

Lemma parse_top_level_blocks_eq content :
  _parse_top_level_blocks content =
  let lines := Py.split content Py.NL in
  let d := fold_left store (top_level_blocks content) [] in
  match snd (top_loop (length lines) lines 0%Z [] []) with
  | [] => d
  | hdr => Dict.set d "__header__" (header_block hdr)
  end.
Proof.
  unfold _parse_top_level_blocks, top_level_blocks. cbv zeta.
  rewrite <- top_loop_scan with (hdr := []).
  destruct (top_loop _ _ _ _ _) as [blocks hdr]. simpl.
  destruct hdr; reflexivity.
Qed.

(** The dictionary of the top-level parse has no key twice. *)
Lemma NoDup_parse_top_level content : NoDup (keys (_parse_top_level_blocks content)).
Proof.
  rewrite parse_top_level_blocks_eq. cbv zeta.
  assert (H : NoDup (keys (fold_left store (top_level_blocks content) []))).
  { apply NoDup_fold_store. constructor. }
  destruct (snd _); trivial. now apply NoDup_keys_set.
Qed.

(** Under a name other than the header's, the dictionary holds the last
    block of that name. *)
Lemma get_parse_top_level content nm :
  nm <> ("__header__" : str) ->
  Dict.get (_parse_top_level_blocks content) nm = last_named nm (top_level_blocks content).
Proof.
  intro N. rewrite parse_top_level_blocks_eq. cbv zeta.
  assert (H : Dict.get (fold_left store (top_level_blocks content) []) nm
              = last_named nm (top_level_blocks content)).
  { rewrite get_fold_store. now destruct (last_named _ _). }
  destruct (snd _); trivial.
  rewrite get_set_other; trivial.
Qed.

End TopLevelFacts.

(** * merge_contents *)

Module MergeFacts.

Import ParadoxRules StructuralMerger TopLevelDefs TopLevelFacts MergeDefs.

Lemma merge_contents_eq self base mods filename :
  merge_contents self base mods filename =
  let b := crlf_to_lf base in
  let base_blocks := _parse_top_level_blocks b in
  let all_changes :=
    collect_changes base_blocks (map (fun m => (fst m, crlf_to_lf (snd m))) mods) in
  finish filename
    (fold_left (apply_change base_blocks filename) (Dict.items all_changes) (b, self)).
Proof.
  unfold merge_contents, finish, crlf_to_lf. cbv zeta.
  destruct (fold_left _ _ _) as [result log]. cbn [fst snd].
  destruct (StructureValidator.validate result filename) as [v issues]. cbn [snd].
  destruct (_validate_braces result); cbn [negb]; trivial.
  destruct (_count_braces result); reflexivity.
Qed.

Lemma blocks_differ_refl b : _blocks_differ b b = false.
Proof. unfold _blocks_differ. now rewrite str_eqb_refl. Qed.

(** A mod whose file parses to the base's blocks adds nothing to
    [all_changes]. *)
Lemma collect_block_change_same base_blocks mod_name_ acc kv :
  NoDup (keys base_blocks) -> In kv base_blocks ->
  collect_block_change base_blocks mod_name_ acc kv = acc.
Proof.
  intros ND Hin. destruct kv as [k v]. unfold collect_block_change.
  destruct (Py.startswith k "__"); trivial.
  rewrite (In_get _ _ _ ND Hin). now rewrite blocks_differ_refl.
Qed.

Lemma collect_mod_changes_same base_blocks acc m :
  NoDup (keys base_blocks) -> _parse_top_level_blocks (snd m) = base_blocks ->
  collect_mod_changes base_blocks acc m = acc.
Proof.
  intros ND E. unfold collect_mod_changes. rewrite E. unfold Dict.items.
  assert (G : forall l, incl l base_blocks ->
                fold_left (collect_block_change base_blocks (fst m)) l acc = acc).
  { induction l as [|kv l IH]; intro Hl; simpl; trivial.
    rewrite collect_block_change_same; auto with datatypes.
    apply IH. intros x Hx. apply Hl. now right. }
  apply G. apply incl_refl.
Qed.

Lemma collect_changes_same base_blocks mods :
  NoDup (keys base_blocks) ->
  (forall m, In m mods -> _parse_top_level_blocks (snd m) = base_blocks) ->
  collect_changes base_blocks mods = [].
Proof.
  intros ND H. unfold collect_changes.
  induction mods as [|m mods IH]; simpl; trivial.
  rewrite collect_mod_changes_same; auto with datatypes.
Qed.

(** Every error of the validator has severity [error]; its warnings come
    from [_validate_events] only. *)
Lemma validate_errors_severity content filename e :
  In e (StructureValidator.validate_errors content filename) ->
  StructureValidator.severity e = ("error" : str).
Proof.
  unfold StructureValidator.validate_errors. rewrite in_app_iff. intros [H|H].
  - destruct (negb _); [|contradiction]. destruct H as [<-|[]]. reflexivity.
  - unfold StructureValidator._check_duplicate_blocks in H.
    apply in_flat_map in H as ([block count] & _ & H).
    destruct (_ && _); [|contradiction]. destruct H as [<-|[]]. reflexivity.
Qed.


Lemma warning_changes_validate content filename :
  warning_changes (snd (StructureValidator.validate content filename)) =
  warning_changes (StructureValidator.validate_warnings content filename).
Proof.
  unfold StructureValidator.validate, warning_changes. cbn [snd].
  rewrite filter_app.
  assert (E' : forall l, (forall e, In e l -> StructureValidator.severity e = ("error" : str)) ->
     filter (fun issue => Py.str_eqb (StructureValidator.severity issue) "warning") l = []).
  { induction l as [|e l IH]; intro H; simpl; trivial.
    rewrite (H e) by now left. simpl. apply IH. intros; apply H; now right. }
  rewrite E' by apply validate_errors_severity. reflexivity.
Qed.

(** C5 (as the code has it).  For every base text whose braces balance
    under the merger's own count, and every list of mods whose texts equal
    the base after CRLF-to-LF normalization, [merge_contents] succeeds with
    the normalized base text as content and records no merge change: the
    only records it can return are warnings of the validator, and there are
    none when the file name does not mention events (in particular under
    [merge_file], which passes no file name). *)
Theorem merge_identity (base : str) (mods : list (str * str)) (filename : str) :
  (forall m, In m mods -> crlf_to_lf (snd m) = crlf_to_lf base) ->
  _validate_braces (crlf_to_lf base) = true ->
  let r := fst (merge_contents [] base mods filename) in
  success r = true
  /\ result_content r = crlf_to_lf base
  /\ changes r =
     warning_changes (StructureValidator.validate_warnings (crlf_to_lf base) filename)
  /\ (Py.contains filename "events" || Py.endswith filename "_events.txt" = false ->
      changes r = []).
Proof.
  intros Hsame Hbal r. subst r. rewrite merge_contents_eq. cbv zeta.
  rewrite collect_changes_same.
  - cbn [Dict.items fold_left]. unfold finish. cbn [fst snd].
    rewrite Hbal. cbn [fst success result_content changes app].
    rewrite warning_changes_validate.
    repeat split.
    intro Hname. unfold StructureValidator.validate_warnings. now rewrite Hname.
  - apply NoDup_parse_top_level.
  - intros m Hm. apply in_map_iff in Hm as (m0 & <- & Hm0). cbn [snd].
    f_equal. now apply Hsame.
Qed.

Lemma merge_identity_witness :
  let base : str := "a = { b }" in
  let mods : list (str * str) := [("m" : str, base)] in
  (forall m, In m mods -> crlf_to_lf (snd m) = crlf_to_lf base)
  /\ _validate_braces (crlf_to_lf base) = true
  /\ success (fst (merge_contents [] base mods [])) = true.
Proof.
  intros base mods.
  assert (H1 : forall m, In m mods -> crlf_to_lf (snd m) = crlf_to_lf base).
  { intros m [<-|[]]. reflexivity. }
  assert (H2 : _validate_braces (crlf_to_lf base) = true) by reflexivity.
  split; [exact H1|]. split; [exact H2|].
  exact (proj1 (merge_identity base mods [] H1 H2)).
Defined.

(** C5 as stated fails on a base whose braces do not balance: every mod is
    identical to the base, yet the merge reports a failure and returns no
    content. *)
Lemma merge_identity_fails_on_unbalanced_base :
  let base : str := "a = {" in
  let mods : list (str * str) := [("m" : str, base)] in
  mods <> []
  /\ (forall m, In m mods -> crlf_to_lf (snd m) = crlf_to_lf base)
  /\ success (fst (merge_contents [] base mods [])) = false
  /\ result_content (fst (merge_contents [] base mods [])) <> crlf_to_lf base.
Proof.
  intros base mods. split; [discriminate|]. split.
  - intros m [<-|[]]. reflexivity.
  - split; [reflexivity|]. vm_compute. discriminate.
Qed.

(** ** Atomic replacement *)

Section Atomic.

Variables (base_blocks : Dict.t ParsedBlock) (nm : str) (B : ParsedBlock).
Hypothesis base_has : Dict.get base_blocks nm = Some B.
Hypothesis not_reserved : Py.startswith nm "__" = false.

Local Abbreviation prev := (MergeDefs.prev nm).

Lemma get_append_change_same acc c :
  Dict.get (append_change acc nm c) nm = Some (prev acc ++ [c]).
Proof.
  unfold append_change, prev.
  destruct (Dict.get acc nm); now rewrite get_set_same.
Qed.

Lemma get_append_change_other acc k c :
  k <> nm -> Dict.get (append_change acc k c) nm = Dict.get acc nm.
Proof.
  intro N. unfold append_change.
  destruct (Dict.get acc k); now rewrite get_set_other by congruence.
Qed.

Lemma get_collect_block_change_other mod_name_ acc k v :
  k <> nm ->
  Dict.get (collect_block_change base_blocks mod_name_ acc (k, v)) nm = Dict.get acc nm.
Proof.
  intro N. unfold collect_block_change.
  destruct (Py.startswith k "__"); trivial.
  destruct (Dict.get base_blocks k).
  - destruct (_blocks_differ _ _); trivial. now apply get_append_change_other.
  - now apply get_append_change_other.
Qed.

Lemma get_fold_collect_notin mod_name_ l : forall acc,
  ~ In nm (keys l) ->
  Dict.get (fold_left (collect_block_change base_blocks mod_name_) l acc) nm
  = Dict.get acc nm.
Proof.
  induction l as [|[k v] l IH]; intros acc N; simpl; trivial.
  simpl in N. rewrite IH by tauto.
  apply get_collect_block_change_other. intro E; subst; tauto.
Qed.

(** A mod whose block [nm] differs from the base's appends itself to the
    entry of [nm], whatever else it contains. *)
Lemma get_collect_mod_changes acc mod_name_ mod_text Bm :
  Dict.get (_parse_top_level_blocks mod_text) nm = Some Bm ->
  _blocks_differ B Bm = true ->
  Dict.get (collect_mod_changes base_blocks acc (mod_name_, mod_text)) nm
  = Some (prev acc ++ [(mod_name_, "modified" : str, Bm)]).
Proof.
  intros Hget Hdiff. unfold collect_mod_changes, Dict.items. cbn [fst snd].
  pose proof (NoDup_parse_top_level mod_text) as ND.
  apply get_In in Hget. apply in_split in Hget as (l1 & l2 & E).
  rewrite E in *. unfold keys in ND. rewrite map_app in ND. simpl in ND.
  apply NoDup_remove_2 in ND. rewrite in_app_iff in ND.
  rewrite fold_left_app. cbn [fold_left].
  rewrite get_fold_collect_notin by (unfold keys; tauto).
  unfold collect_block_change at 1. rewrite not_reserved, base_has, Hdiff.
  rewrite get_append_change_same. unfold prev.
  now rewrite get_fold_collect_notin by (unfold keys; tauto).
Qed.

(** A mod without a block [nm], or whose block [nm] does not differ from
    the base's, leaves the entry of [nm] as it is. *)
Lemma get_collect_mod_changes_unchanged acc mod_name_ mod_text :
  match Dict.get (_parse_top_level_blocks mod_text) nm with
  | Some Bm => _blocks_differ B Bm = false
  | None => True
  end ->
  Dict.get (collect_mod_changes base_blocks acc (mod_name_, mod_text)) nm
  = Dict.get acc nm.
Proof.
  intro H. unfold collect_mod_changes, Dict.items. cbn [fst snd].
  destruct (Dict.get (_parse_top_level_blocks mod_text) nm) as [Bm|] eqn:Hget.
  - pose proof (NoDup_parse_top_level mod_text) as ND.
    apply get_In in Hget. apply in_split in Hget as (l1 & l2 & E).
    rewrite E in *. unfold keys in ND. rewrite map_app in ND. simpl in ND.
    apply NoDup_remove_2 in ND. rewrite in_app_iff in ND.
    rewrite fold_left_app. cbn [fold_left].
    rewrite get_fold_collect_notin by (unfold keys; tauto).
    unfold collect_block_change at 1. rewrite not_reserved, base_has, H.
    now rewrite get_fold_collect_notin by (unfold keys; tauto).
  - apply get_fold_collect_notin. now apply get_None_keys.
Qed.

Lemma get_fold_collect_mods_unchanged later : forall acc,
  forallb (fun m => negb (differs_in B nm (snd m))) later = true ->
  Dict.get (fold_left (collect_mod_changes base_blocks)
              (map (fun m => (fst m, crlf_to_lf (snd m))) later) acc) nm
  = Dict.get acc nm.
Proof.
  induction later as [|m later IH]; intros acc H; trivial.
  cbn [forallb] in H. apply andb_true_iff in H as [Hm H].
  cbn [map fold_left]. rewrite IH by trivial.
  apply get_collect_mod_changes_unchanged.
  unfold differs_in, mod_block in Hm. cbn [snd].
  destruct (Dict.get (_parse_top_level_blocks (crlf_to_lf (snd m))) nm); trivial.
  now apply negb_true_iff in Hm.
Qed.

(** The step of the rewriting loop on the entry of an atomic block. *)
Lemma apply_change_atomic filename st l mod_name_ kind Bm :
  get_top_level_strategy nm filename = ATOMIC_ACCUMULATE ->
  apply_change base_blocks filename st (nm, l ++ [(mod_name_, kind, Bm)])
  = (Py.replace1 (fst st) (full_text B) (full_text Bm),
     snd st ++ [mkMergeChange nm "replaced_atomic" mod_name_ (Text nm)]).
Proof.
  intro Hs. unfold apply_change. destruct st as [result log].
  rewrite base_has, Hs. unfold last_change. rewrite rev_app_distr. reflexivity.
Qed.

Local Abbreviation untouched_elsewhere := (MergeDefs.untouched_elsewhere base_blocks nm).

Local Abbreviation only_nm := (MergeDefs.only_nm nm).

Lemma only_nm_append acc c : only_nm acc -> only_nm (append_change acc nm c).
Proof.
  intros [->|[l ->]]; right; unfold append_change; cbn [Dict.get Dict.set].
  - eauto.
  - rewrite str_eqb_refl. eauto.
Qed.

Lemma only_nm_collect_mod acc m :
  untouched_elsewhere (snd m) -> only_nm acc ->
  only_nm (collect_mod_changes base_blocks acc m).
Proof.
  intros Hu. unfold collect_mod_changes, Dict.items.
  assert (G : forall l, incl l (_parse_top_level_blocks (snd m)) -> forall acc,
            only_nm acc -> only_nm (fold_left (collect_block_change base_blocks (fst m)) l acc)).
  { induction l as [|[k v] l IH]; intros Hl acc0 Hacc; simpl; trivial.
    apply IH; [intros x Hx; apply Hl; now right|].
    unfold collect_block_change.
    destruct (Py.startswith k _) eqn:Ek; trivial.
    destruct (str_dec k nm) as [->|N].
    - rewrite base_has. destruct (_blocks_differ _ _); trivial.
      now apply only_nm_append.
    - destruct (Hu k v) as [H|(Bk & H1 & H2)]; trivial.
      + apply Hl; now left.
      + cbn [String.list_ascii_of_string] in H. congruence.
      + now rewrite H1, H2. }
  apply G. apply incl_refl.
Qed.

Lemma only_nm_collect mods : forall acc,
  (forall m, In m mods -> untouched_elsewhere (snd m)) -> only_nm acc ->
  only_nm (fold_left (collect_mod_changes base_blocks) mods acc).
Proof.
  induction mods as [|m mods IH]; intros acc H Hacc; simpl; trivial.
  apply IH; [intros; apply H; now right|].
  apply only_nm_collect_mod; trivial. apply H; now left.
Qed.

End Atomic.

(** C1 (as the code has it).  Let the base hold a top-level block [B]
    under a name that does not start with two underscores, let the strategy
    of that name be ATOMIC_ACCUMULATE, and take the last mod of the list
    whose block of that name differs from [B] under normalization: the mods
    after it have no such block, or one that does not differ.  Then the
    entry of the name in [all_changes] ends with that mod, and the rewriting
    step on it replaces the first occurrence of [B]'s full text by the full
    text of that mod's block and records [replaced_atomic] for that mod: no
    text of another mod enters.  When the mods change no other block,
    [merge_contents] returns exactly the base text rewritten in this way if
    its braces balance, and a failure if they do not. *)
Theorem atomic_block_replaced_by_last_mod
    (self : list MergeChange) (base : str) (earlier later : list (str * str))
    (mod_name_ mod_text filename nm : str) (B Blast : ParsedBlock) :
  let b := crlf_to_lf base in
  let base_blocks := _parse_top_level_blocks b in
  let mods := earlier ++ (mod_name_, mod_text) :: later in
  let change := mkMergeChange nm "replaced_atomic" mod_name_ (Text nm) in
  let new := Py.replace1 b (full_text B) (full_text Blast) in
  Dict.get base_blocks nm = Some B ->
  Py.startswith nm "__" = false ->
  get_top_level_strategy nm filename = ATOMIC_ACCUMULATE ->
  mod_block nm mod_text = Some Blast ->
  _blocks_differ B Blast = true ->
  forallb (fun m => negb (differs_in B nm (snd m))) later = true ->
  (exists chs,
      Dict.get (collect_changes base_blocks
                  (map (fun m => (fst m, crlf_to_lf (snd m))) mods)) nm = Some chs
      /\ forall st,
           apply_change base_blocks filename st (nm, chs)
           = (Py.replace1 (fst st) (full_text B) (full_text Blast), snd st ++ [change]))
  /\ ((forall m, In m mods -> untouched_elsewhere base_blocks nm (crlf_to_lf (snd m))) ->
      merge_contents self base mods filename = finish filename (new, self ++ [change])
      /\ (_validate_braces new = true ->
          let r := fst (merge_contents self base mods filename) in
          success r = true /\ result_content r = new /\ In change (changes r))
      /\ (_validate_braces new = false ->
          success (fst (merge_contents self base mods filename)) = false)).
Proof.
  intros b base_blocks mods change new Hbase Hres Hstrat Hmod Hdiff Hlater.
  assert (A : exists l,
             Dict.get (collect_changes base_blocks
                         (map (fun m => (fst m, crlf_to_lf (snd m))) mods)) nm
             = Some (l ++ [(mod_name_, "modified" : str, Blast)])).
  { unfold collect_changes, mods. rewrite map_app, fold_left_app. cbn [map fold_left fst snd].
    rewrite get_fold_collect_mods_unchanged with (B := B) by trivial.
    eexists. apply get_collect_mod_changes with (B := B); trivial. }
  destruct A as [l A].
  split.
  - exists (l ++ [(mod_name_, "modified" : str, Blast)]). split; trivial.
    intro st. now apply apply_change_atomic.
  - intro Hu.
    assert (E : merge_contents self base mods filename
                = finish filename (new, self ++ [change])).
    { rewrite merge_contents_eq. cbv zeta. fold b base_blocks.
      assert (O : only_nm nm (collect_changes base_blocks
                     (map (fun m => (fst m, crlf_to_lf (snd m))) mods))).
      { apply only_nm_collect with (B := B); trivial; [|now left].
        intros m Hm. apply in_map_iff in Hm as (m0 & <- & Hm0). cbn [snd]. now apply Hu. }
      destruct O as [O|[l' O]]; rewrite O in A |- *.
      - discriminate.
      - cbn [Dict.get] in A. rewrite str_eqb_refl in A. injection A as ->.
        cbn [Dict.items fold_left]. f_equal.
        now rewrite apply_change_atomic with (B := B). }
    split; [exact E|]. rewrite E. unfold finish. cbn [fst snd]. split.
    + intros ->. cbn [fst success result_content changes]. repeat split.
      rewrite !in_app_iff. left. right. now left.
    + intros ->. reflexivity.
Qed.

Lemma atomic_block_replaced_by_last_mod_witness :
  result_content
    (fst (merge_contents [] s2_base
            [("A" : str, s2_mod_a); ("B" : str, s2_mod_b); ("C" : str, s2_base)] []))
  = s2_mod_b.
Proof.
  pose (nm := "europe.0001" : str).
  pose (B := block_or_empty (Dict.get (_parse_top_level_blocks (crlf_to_lf s2_base)) nm)).
  pose (Blast := block_or_empty (mod_block nm s2_mod_b)).
  assert (H1 : Dict.get (_parse_top_level_blocks (crlf_to_lf s2_base)) nm = Some B)
    by (vm_compute; reflexivity).
  assert (H2 : Py.startswith nm "__" = false) by reflexivity.
  assert (H3 : get_top_level_strategy nm [] = ATOMIC_ACCUMULATE) by reflexivity.
  assert (H4 : mod_block nm s2_mod_b = Some Blast) by (vm_compute; reflexivity).
  assert (H5 : _blocks_differ B Blast = true) by (vm_compute; reflexivity).
  assert (H6 : forall m, In m ([("A" : str, s2_mod_a)] ++ ("B" : str, s2_mod_b)
                                 :: [("C" : str, s2_base)]) ->
                 untouched_elsewhere (_parse_top_level_blocks (crlf_to_lf s2_base)) nm
                   (crlf_to_lf (snd m))).
  { intros m [<-|[<-|[<-|[]]]] k v Hin N; vm_compute in Hin;
      destruct Hin as [E|[]]; injection E as <- _; now elim N. }
  assert (H7 : _validate_braces
                 (Py.replace1 (crlf_to_lf s2_base) (full_text B) (full_text Blast)) = true)
    by (vm_compute; reflexivity).
  assert (H9 : forallb (fun m => negb (differs_in B nm (snd m))) [("C" : str, s2_base)]
               = true) by (vm_compute; reflexivity).
  destruct (atomic_block_replaced_by_last_mod [] s2_base [("A" : str, s2_mod_a)]
              [("C" : str, s2_base)] "B" s2_mod_b [] nm B Blast H1 H2 H3 H4 H5 H9)
    as [_ H].
  destruct (H H6) as (_ & H8 & _).
  destruct (H8 H7) as (_ & E & _).
  etransitivity; [exact E|]. vm_compute. reflexivity.
Defined.

(** C1 as stated fails in two ways.  A block whose name starts with two
    underscores is skipped when the changes are collected, so the merge
    returns the base unchanged and records nothing; and a replacement that
    leaves the braces unbalanced makes the merge fail, with no content. *)
Lemma atomic_replacement_fails_on_reserved_name_or_unbalanced_text :
  (let base : str := "__a = {" ++ [Py.NL] ++ "}" in
   let mod_text : str := "__a = {" ++ [Py.NL] ++ "x = 1" ++ [Py.NL] ++ "}" in
   let r := fst (merge_contents [] base [("m" : str, mod_text)] []) in
   exists B Bm,
     Dict.get (_parse_top_level_blocks (crlf_to_lf base)) "__a" = Some B
     /\ mod_block "__a" mod_text = Some Bm
     /\ _blocks_differ B Bm = true
     /\ get_top_level_strategy "__a" [] = ATOMIC_ACCUMULATE
     /\ success r = true
     /\ result_content r = base
     /\ result_content r <> Py.replace1 base (full_text B) (full_text Bm)
     /\ changes r = [])
  /\
  (let base : str := "a = {" ++ [Py.NL] ++ "}" in
   let mod_text : str := "a = {" ++ [Py.NL] ++ "b = {" ++ [Py.NL] ++ "}" in
   let r := fst (merge_contents [] base [("m" : str, mod_text)] []) in
   exists B Bm,
     Dict.get (_parse_top_level_blocks (crlf_to_lf base)) "a" = Some B
     /\ mod_block "a" mod_text = Some Bm
     /\ _blocks_differ B Bm = true
     /\ get_top_level_strategy "a" [] = ATOMIC_ACCUMULATE
     /\ success r = false
     /\ result_content r <> Py.replace1 base (full_text B) (full_text Bm)).
Proof.
  split.
  - eexists. eexists.
    split; [vm_compute; reflexivity|]. split; [vm_compute; reflexivity|].
    split; [vm_compute; reflexivity|]. split; [reflexivity|].
    split; [vm_compute; reflexivity|]. split; [vm_compute; reflexivity|].
    split; [vm_compute; discriminate|]. vm_compute; reflexivity.
  - eexists. eexists.
    split; [vm_compute; reflexivity|]. split; [vm_compute; reflexivity|].
    split; [vm_compute; reflexivity|]. split; [reflexivity|].
    split; [vm_compute; reflexivity|]. vm_compute; discriminate.
Qed.

End MergeFacts.

(** * Duplicate top-level blocks *)

Module DuplicateFacts.

Import ParadoxRules StructuralMerger TopLevelDefs TopLevelFacts MergeDefs MergeFacts DuplicateDefs.

Lemma startswith_app (old post : str) : Py.startswith (old ++ post) old = true.
Proof.
  induction old as [|c old IH]; simpl.
  - now destruct post.
  - now rewrite chr_eqb_refl.
Qed.

Lemma startswith_nil (s : str) : Py.startswith s [] = true.
Proof. now destruct s. Qed.





End DuplicateFacts.

(** * Accumulated lists *)

Module AccumulateFacts.

Import ParadoxRules StructuralMerger AccumulateDefs.

Lemma novel_In seen items x :
  In x (novel seen items) <-> In x items /\ ~ In x seen.
Proof.
  revert seen; induction items as [|y rest IH]; intro seen; simpl.
  - tauto.
  - destruct (str_in y seen) eqn:E.
    + apply str_in_In in E. rewrite IH. split.
      * tauto.
      * intros [[->|H] N]; tauto.
    + assert (Ny : ~ In y seen) by (intro H; apply str_in_In in H; congruence).
      simpl. rewrite IH, in_app_iff. simpl. split.
      * intros [->|[H N]]; [tauto|]. split; [tauto|]. tauto.
      * intros [[->|H] N]; [tauto|].
        destruct (str_dec y x) as [->|D]; [tauto|]. right. split; trivial.
        intros [H'|[H'|[]]]; tauto.
Qed.

Lemma novel_NoDup seen items : NoDup (novel seen items).
Proof.
  revert seen; induction items as [|y rest IH]; intro seen; simpl.
  - constructor.
  - destruct (str_in y seen); trivial.
    constructor; trivial. rewrite novel_In, in_app_iff. simpl. tauto.
Qed.

Lemma novel_app seen l1 l2 :
  novel seen (l1 ++ l2) = novel seen l1 ++ novel (seen ++ novel seen l1) l2.
Proof.
  revert seen; induction l1 as [|y rest IH]; intro seen; simpl.
  - now rewrite app_nil_r.
  - destruct (str_in y seen); trivial.
    simpl. rewrite IH. now rewrite <- app_assoc.
Qed.

Lemma fold_accumulate_item path_ mod_name_ items : forall acc chs,
  fold_left (accumulate_item path_ mod_name_) items (acc, chs)
  = (acc ++ novel acc items,
     chs ++ map (fun x => mkMergeChange path_ "added_list_item" mod_name_ (Text x))
                (novel acc items)).
Proof.
  induction items as [|x rest IH]; intros acc chs; simpl.
  - now rewrite !app_nil_r.
  - unfold accumulate_item at 1. destruct (str_in x acc).
    + apply IH.
    + rewrite IH. cbn [map]. now rewrite <- !app_assoc.
Qed.

Lemma accumulate_mod_eq base_name child_name idx acc mod_name_ mod_block :
  accumulate_mod base_name child_name idx acc (mod_name_, mod_block)
  = match mod_child_at mod_block child_name idx with
    | Some mod_child =>
        fold_left (accumulate_item (child_path base_name child_name idx) mod_name_)
                  (list_items mod_child) acc
    | None => acc
    end.
Proof. reflexivity. Qed.

Lemma accumulate_eq base_name child_name idx mods : forall acc chs,
  exists records,
    fold_left (accumulate_mod base_name child_name idx) mods (acc, chs)
    = (acc ++ novel acc (mod_items_at mods child_name idx), chs ++ records)
    /\ map content records = map Text (novel acc (mod_items_at mods child_name idx))
    /\ Forall (fun c => change_type c = ("added_list_item" : str)) records.
Proof.
  induction mods as [|[mod_name_ mod_block] mods IH]; intros acc chs.
  - exists []. cbn. rewrite !app_nil_r. auto.
  - cbn [fold_left mod_items_at flat_map snd]. fold (mod_items_at mods child_name idx).
    rewrite accumulate_mod_eq.
    destruct (mod_child_at mod_block child_name idx) as [c|]; cbn [snd app].
    + rewrite fold_accumulate_item.
      destruct (IH (acc ++ novel acc (list_items c))
                   (chs ++ map (fun x => mkMergeChange (child_path base_name child_name idx)
                                           "added_list_item" mod_name_ (Text x))
                               (novel acc (list_items c)))) as (rec & E & M & F).
      cbn [String.list_ascii_of_string] in *.
      eexists. rewrite E, novel_app, <- !app_assoc. split; [reflexivity|]. split.
      * rewrite !map_app, M, map_map. reflexivity.
      * apply Forall_app. split; trivial. apply Forall_forall.
        intros ch Hc. apply in_map_iff in Hc as (x & <- & _). reflexivity.
    + apply IH.
Qed.

(** C2 (as the code has it).  For a child classified ACCUMULATE_LIST whose
    base list is not empty, the merged item list is the base child's
    [list_items] followed by the novel items of the mods, each once, in the
    order in which the mods first bring them; no base item is removed; and
    the list text is handed to the rewriting only when there is a novel
    item.  On scenario S1 the merged file holds
    [vanilla_init modA_init modB_init], in that order. *)
Theorem accumulate_list_keeps_base_and_appends_novel
    (base_name child_name : str) (idx : nat) (base_child : ParsedBlock)
    (mods : list (str * ParsedBlock)) (st : State) :
  list_items base_child <> [] ->
  let base_items := list_items base_child in
  let new_items := novel base_items (mod_items_at mods child_name idx) in
  let merged := fst (accumulate base_name child_name idx base_items mods (snd st)) in
  merged = base_items ++ new_items
  /\ incl base_items merged
  /\ NoDup new_items
  /\ (forall x, In x new_items <->
                In x (mod_items_at mods child_name idx) /\ ~ In x base_items)
  /\ fst (accumulate_child base_name child_name idx base_child mods st)
     = (if length new_items =? 0 then fst st
        else _update_list_in_text (fst st) child_name base_items merged
               (full_text base_child))
  /\ result_content
       (fst (merge_contents [] s1_base [("A" : str, s1_mod_a); ("B" : str, s1_mod_b)] []))
     = ("on_game_start = { on_actions = { vanilla_init modA_init modB_init } }" : str).
Proof.
  intros Hne base_items new_items merged.
  destruct (accumulate_eq base_name child_name idx mods base_items (snd st))
    as (records & E & _ & _).
  assert (M : merged = base_items ++ new_items).
  { unfold merged, accumulate. now rewrite E. }
  split; [exact M|]. split; [rewrite M; apply incl_appl, incl_refl|].
  split; [apply novel_NoDup|]. split; [intro x; apply novel_In|]. split.
  - unfold accumulate_child. fold base_items.
    destruct base_items as [|b0 bs] eqn:Eb; [contradiction|].
    unfold accumulate. rewrite E. fold new_items. rewrite length_app.
    destruct new_items as [|n0 ns].
    + cbn [length Nat.eqb]. rewrite Nat.add_0_r, Nat.ltb_irrefl. reflexivity.
    + cbn [length Nat.eqb].
      destruct (S (length bs) <? S (length bs) + S (length ns)) eqn:L.
      * cbn [fst]. now rewrite M.
      * apply Nat.ltb_ge in L. lia.
  - vm_compute. reflexivity.
Qed.

Lemma accumulate_list_keeps_base_and_appends_novel_witness :
  fst (accumulate "on_game_start" "on_actions" 0 ["vanilla_init" : str]
         [("A" : str, holder (list_block "on_actions" ["vanilla_init" : str; "modA_init" : str]));
          ("B" : str, holder (list_block "on_actions" ["vanilla_init" : str; "modB_init" : str]))]
         [])
  = ["vanilla_init" : str; "modA_init" : str; "modB_init" : str].
Proof.
  assert (H : list_items (list_block "on_actions" ["vanilla_init" : str]) <> [])
    by discriminate.
  etransitivity;
    [exact (proj1 (accumulate_list_keeps_base_and_appends_novel
                     "on_game_start" "on_actions" 0
                     (list_block "on_actions" ["vanilla_init" : str])
                     [("A" : str, holder (list_block "on_actions"
                                            ["vanilla_init" : str; "modA_init" : str]));
                      ("B" : str, holder (list_block "on_actions"
                                            ["vanilla_init" : str; "modB_init" : str]))]
                     ([], []) H))|].
  vm_compute. reflexivity.
Defined.

(** C2 as stated fails on a base list that is empty: the branch is guarded
    by [if base_child.list_items], so the item of the mod is dropped, the
    merged text is the base text and nothing is recorded. *)
Lemma empty_base_list_is_not_accumulated :
  let base : str := "on_game_start = { on_actions = { } }" in
  let mod_text : str := "on_game_start = { on_actions = { modA_init } }" in
  let r := fst (merge_contents [] base [("A" : str, mod_text)] []) in
  get_top_level_strategy "on_game_start" [] = MERGEABLE_CONTAINER
  /\ get_merge_strategy "on_actions" "on_game_start" = ACCUMULATE_LIST
  /\ items_in_file base "on_game_start" "on_actions" 0 = Some []
  /\ items_in_file mod_text "on_game_start" "on_actions" 0 = Some ["modA_init" : str]
  /\ novel [] ["modA_init" : str] = ["modA_init" : str]
  /\ success r = true
  /\ result_content r = base
  /\ items_in_file (result_content r) "on_game_start" "on_actions" 0 = Some []
  /\ changes r = [].
Proof. repeat split; vm_compute; reflexivity. Qed.

(** A remark on the rewriting of the text.  [_update_list_in_text] rewrites
    the first place of the running text where the child's name is followed
    by an equals sign and an opening brace, which need not be the child it
    was called for: here the items computed for [events] overwrite the list
    of [random_events], whose own item is lost. *)
Lemma update_list_rewrites_first_textual_match :
  let base : str :=
    "on_birth = {" ++ [Py.NL] ++ "	random_events = { a.1 }" ++ [Py.NL]
    ++ "	events = { b.1 }" ++ [Py.NL] ++ "}" in
  let mod_text : str :=
    "on_birth = {" ++ [Py.NL] ++ "	random_events = { a.1 }" ++ [Py.NL]
    ++ "	events = { b.1 c.1 }" ++ [Py.NL] ++ "}" in
  let r := fst (merge_contents [] base [("A" : str, mod_text)] []) in
  success r = true
  /\ result_content r
     = "on_birth = {" ++ [Py.NL] ++ "	random_events = { b.1 c.1 }" ++ [Py.NL]
       ++ "	events = { b.1 }" ++ [Py.NL] ++ "}".
Proof. split; vm_compute; reflexivity. Qed.

End AccumulateFacts.

(** * The validator *)

Module ValidatorFacts.

Import ParadoxRules StructureValidator ValidatorDefs.








End ValidatorFacts.

(** * The file loop of the patch generator *)

Module GeneratorFacts.

Import SmartPatchGenerator GeneratorDefs.

(** C8 (as the code has it).  For a mergeable file that is present in the
    base, that some mod changed and whose structural merge fails (a brace
    imbalance after the merge included), the loop writes nothing, adds one
    to the counter of failures and appends the file to the list of errors;
    the other counters stay, and the loop goes on with the files that
    follow. *)
Theorem failed_merge_is_counted_and_not_written
    (base : RelPath -> FileState) (stats : PatchStats) (out : list Output)
    (relative_path : RelPath) (sources : list Source)
    (before after : list (RelPath * list Source)) :
  base relative_path <> Absent ->
  changed_sources_of (base relative_path) sources <> [] ->
  _is_mergeable relative_path = true ->
  StructuralMerger.success (merge_result_of (base relative_path) sources) = false ->
  let e := MergeFailed relative_path
             (StructuralMerger.error (merge_result_of (base relative_path) sources)) in
  process_file base (stats, out) (relative_path, sources)
  = (mkStats (total_files stats) (merged_files stats) (copied_files stats)
       (skipped_files stats) (failed_files stats + 1) (errors stats ++ [e]), out)
  /\ fold_left (process_file base) (before ++ (relative_path, sources) :: after) (stats, out)
     = fold_left (process_file base) after
         (process_file base (fold_left (process_file base) before (stats, out))
            (relative_path, sources)).
Proof.
  intros Hb Hc Hm Hf e. split.
  - unfold process_file.
    unfold merge_result_of, changed_sources_of in *.
    destruct (base relative_path) eqn:Eb; [contradiction| |];
      (destruct (rev (filter _ sources)) as [|[last_mod last_file] l] eqn:Er;
       [apply (f_equal (@rev _)) in Er; rewrite rev_involutive in Er; simpl in Er;
        contradiction|]);
      rewrite Hm, Hf; reflexivity.
  - rewrite fold_left_app. reflexivity.
Qed.

Lemma failed_merge_is_counted_and_not_written_witness :
  process_file c8_base (mkStats 1 0 0 0 0 [], []) (c8_path, c8_sources)
  = (mkStats 1 0 0 0 1
       [MergeFailed c8_path (StructuralMerger.UnbalancedAfterMerge 2 1)], []).
Proof.
  assert (H1 : c8_base c8_path <> Absent) by (vm_compute; discriminate).
  assert (H2 : changed_sources_of (c8_base c8_path) c8_sources <> [])
    by (vm_compute; discriminate).
  assert (H3 : _is_mergeable c8_path = true) by reflexivity.
  assert (H4 : StructuralMerger.success (merge_result_of (c8_base c8_path) c8_sources)
               = false) by (vm_compute; reflexivity).
  etransitivity;
    [exact (proj1 (failed_merge_is_counted_and_not_written c8_base
                     (mkStats 1 0 0 0 0 []) [] c8_path c8_sources [] [] H1 H2 H3 H4))|].
  vm_compute. reflexivity.
Defined.

(** C8 as stated fails: after a failed merge the output directory holds no
    copy of the last changed mod's file -- nothing is written for the file. *)
Lemma failed_merge_writes_no_fallback_copy :
  _is_mergeable c8_path = true
  /\ StructuralMerger.success (merge_result_of (c8_base c8_path) c8_sources) = false
  /\ changed_sources_of (c8_base c8_path) c8_sources = c8_sources
  /\ snd (process_files c8_base [(c8_path, c8_sources)]) = []
  /\ failed_files (fst (process_files c8_base [(c8_path, c8_sources)])) = 1%Z.
Proof. repeat split; vm_compute; reflexivity. Qed.

End GeneratorFacts.

(** * Commented blocks in the parser *)

Module CommentedBlockFacts.

Import Pdx PdxParser CommentedBlockDefs.

Lemma no_commented_node t nm v c raw ind cs :
  forallb no_commented cs = true -> no_commented (node t nm v c raw ind cs) = true.
Proof. intro H. simpl. exact H. Qed.

Lemma forallb_snoc {A} (f : A -> bool) l x :
  forallb f (l ++ [x]) = forallb f l && f x.
Proof. rewrite forallb_app. simpl. now rewrite andb_true_r. Qed.

Lemma clean_append_child stack n :
  clean_stack stack -> no_commented n = true -> clean_stack (append_child stack n).
Proof.
  intros Hs Hn. destruct stack as [|top below]; simpl; trivial.
  inversion Hs as [|? ? Ht Hb]; subst. constructor; trivial.
  destruct top as [t nm v cs c b raw ind]. simpl in *.
  apply andb_true_iff in Ht as [Hb' Hcs].
  rewrite Hb', forallb_snoc, Hcs, Hn. reflexivity.
Qed.

Lemma clean_pop stack : clean_stack stack -> clean_stack (pop stack).
Proof.
  intro Hs. destruct stack as [|top [|parent below]]; trivial.
  unfold pop. inversion Hs; subst. now apply clean_append_child.
Qed.

Lemma clean_pop_n n : forall stack, clean_stack stack -> clean_stack (pop_n n stack).
Proof.
  induction n as [|n IH]; intros stack H; simpl; trivial.
  apply IH. now apply clean_pop.
Qed.

Lemma clean_unwind n : forall stack, clean_stack stack -> clean_stack (unwind n stack).
Proof.
  induction n as [|n IH]; intros stack H; simpl; trivial.
  apply IH. now apply clean_pop.
Qed.

Lemma clean_inline_loop fuel : forall s,
  forallb no_commented (inline_loop fuel s) = true.
Proof.
  induction fuel as [|fuel IH]; intro s; trivial.
  cbn [inline_loop].
  destruct (skip_blanks s) as [|c0 s0] eqn:Es; trivial.
  destruct (take_until _ (c0 :: s0)) as [tok s1].
  destruct (negb (Py.nonempty (Py.strip tok))); [apply IH|].
  destruct (skip_blanks s1) as [|c s3]; trivial.
  destruct (Py.chr_eqb c "=").
  - destruct (skip_blanks s3) as [|c' s5].
    + cbn [forallb]. rewrite IH. reflexivity.
    + destruct (Py.chr_eqb c' "{").
      * destruct (take_block s5 1) as [passed rest].
        cbn [forallb]. rewrite IH, andb_true_r. apply no_commented_node.
        destruct (Py.nonempty _); trivial.
      * destruct (take_until _ (c' :: s5)) as [v rest].
        cbn [forallb]. rewrite IH. reflexivity.
  - cbn [forallb]. rewrite IH. reflexivity.
Qed.

Lemma clean_parse_line stack line :
  clean_stack stack -> clean_stack (parse_line stack line).
Proof.
  intro Hs. unfold parse_line.
  destruct (negb (Py.nonempty (Py.strip line))).
  { now apply clean_append_child. }
  set (lc := leading_close_of _).
  assert (Hp : clean_stack (pop_n lc stack)) by now apply clean_pop_n.
  destruct (negb (Py.nonempty (drop_closes lc (Py.strip line)))); trivial.
  destruct (Py.startswith (drop_closes lc (Py.strip line)) _).
  { now apply clean_append_child. }
  destruct (Re.rmatch RE_BLOCK _) as [[ms r]|].
  - destruct (Py.endswith _ _).
    + apply clean_append_child; trivial. apply no_commented_node.
      destruct (Py.nonempty _); trivial.
      unfold _parse_inline_content. destruct (negb _); trivial.
      apply clean_inline_loop.
    + constructor; trivial.
  - destruct (Re.rmatch RE_PROP _) as [[ms r]|].
    + now apply clean_append_child.
    + destruct (Re.rmatch RE_LIST _) as [[ms r]|]; now apply clean_append_child.
Qed.

(** [parse] never builds a commented block, whatever the text. *)
Lemma parse_never_builds_a_commented_block (content : str) :
  no_commented (parse content) = true.
Proof.
  unfold parse.
  set (lines := Py.split _ _).
  set (root := node ROOT _ _ _ _ _ _).
  assert (H : clean_stack (fold_left parse_line lines [root])).
  { assert (G : forall ls st, clean_stack st -> clean_stack (fold_left parse_line ls st)).
    { induction ls as [|l ls IH]; intros st Hst; simpl; trivial.
      apply IH. now apply clean_parse_line. }
    apply G. constructor; [reflexivity|constructor]. }
  apply clean_unwind with (n := length (fold_left parse_line lines [root])) in H.
  destruct (unwind _ _) as [|r rest]; [reflexivity|].
  now inversion H.
Qed.

(** C6 at its failing input: the three lines of a commented block come out
    as three top-level Comment nodes; no Block node is built, and no node is
    marked as commented. *)
Theorem commented_block_lines_are_plain_comments :
  children (parse c6_input)
  = [ node COMMENT [] "#test.1 = {" [] "#test.1 = {" [] [];
      node COMMENT [] "#	type = character_event" [] "#	type = character_event" [] [];
      node COMMENT [] "#}" [] "#}" [] [] ]
  /\ forall content, no_commented (parse content) = true.
Proof.
  split; [vm_compute; reflexivity|]. apply parse_never_builds_a_commented_block.
Qed.

End CommentedBlockFacts.

(** * Brace balance of the serializer's output *)

Module BraceFacts.

Import Pdx PdxParser PdxSerializer BraceDefs.

(** ** Counting *)




Lemma mark_free_app a b : mark_free (a ++ b) = mark_free a && mark_free b.
Proof. apply forallb_app. Qed.


Lemma split_nonempty (s : str) sep : Py.split s sep <> [].
Proof.
  destruct s as [|c s]; simpl; [discriminate|].
  destruct (Py.chr_eqb c sep); [discriminate|]. now destruct (Py.split s sep).
Qed.

Lemma split_app_nl (a b : str) :
  Py.split (a ++ Py.NL :: b) Py.NL = Py.split a Py.NL ++ Py.split b Py.NL.
Proof.
  induction a as [|c a IH]; simpl.
  - reflexivity.
  - destruct (Py.chr_eqb c Py.NL); rewrite IH; [reflexivity|].
    pose proof (split_nonempty a Py.NL). now destruct (Py.split a Py.NL).
Qed.

(** ** Lines that are free of braces or free of marks *)


Lemma lines_mark_free (s : str) :
  mark_free s = true -> Forall (fun l => mark_free l = true) (Py.split s Py.NL).
Proof.
  induction s as [|c s IH]; simpl; intro H.
  - now constructor.
  - apply andb_true_iff in H as [Hc Hs]. specialize (IH Hs).
    destruct (Py.chr_eqb c Py.NL).
    + now constructor.
    + destruct (Py.split s Py.NL) as [|h t]; [constructor; [simpl; now rewrite Hc|constructor]|].
      inversion IH; subst. constructor; trivial. simpl. now rewrite Hc.
Qed.


(** ** Calm texts *)

Lemma quote_scan_prev line p1 p2 q :
  unescaped p1 = unescaped p2 -> quote_scan line p1 q = quote_scan line p2 q.
Proof. intro H. destruct line as [|c r]; trivial. cbn [quote_scan]. now rewrite H. Qed.

(** The scan passes over a character that is no quote, no [#], no brace
    and no newline. *)
Lemma quote_scan_pass c line prev q :
  Py.chr_eqb c Py.QUOTE = false -> Py.chr_eqb c "#" = false -> is_brace c = false ->
  Py.chr_eqb c Py.NL = false ->
  quote_scan (c :: line) prev q = quote_scan line (Some c) q.
Proof. intros H1 H2 H3 H4. cbn [quote_scan]. now rewrite H1, H2, H3, H4. Qed.

Lemma quote_scan_app a : forall b prev q,
  quote_scan (a ++ " "%char :: b) prev q
  = match quote_scan a prev q with
    | Some q' => quote_scan b (Some " "%char) q'
    | None => None
    end.
Proof.
  induction a as [|c a IH]; intros b prev q.
  - cbn [app]. now rewrite quote_scan_pass by reflexivity.
  - cbn [app quote_scan]. destruct (_ && _); [apply IH|].
    destruct (_ && _); trivial. destruct (_ && _); trivial.
    destruct (Py.chr_eqb c Py.NL); trivial.
Qed.

(** Two calm texts with a blank between them make a calm text. *)
Lemma calm_space a b : calm a = true -> calm b = true -> calm (a ++ " "%char :: b) = true.
Proof.
  unfold calm. intros Ha Hb. rewrite quote_scan_app.
  destruct (quote_scan a None false) as [[]|]; try discriminate.
  now rewrite (quote_scan_prev b (Some " "%char) None false eq_refl).
Qed.


Lemma calm_join pieces :
  Forall (fun p => calm p = true) pieces -> calm (Py.join " " pieces) = true.
Proof.
  induction 1 as [|p rest Hp _ IH]; trivial.
  destruct rest as [|q rest']; [exact Hp|].
  change (Py.join " " (p :: q :: rest')) with (p ++ " "%char :: Py.join " " (q :: rest')).
  now apply calm_space.
Qed.

(** [name = value] *)
Lemma calm_assign nm v : calm nm = true -> calm v = true -> calm (nm ++ " = " ++ v) = true.
Proof.
  intros Hn Hv. change (nm ++ " = " ++ v) with (nm ++ " "%char :: ("=" ++ " "%char :: v)).
  apply calm_space; trivial. now apply (calm_space "=" v).
Qed.

(** [{ content }] *)
Lemma calm_braces content : calm content = true -> calm ("{ " ++ content ++ " }") = true.
Proof.
  intro H. change ("{ " ++ content ++ " }") with ("{" ++ " "%char :: (content ++ " "%char :: "}")).
  apply (calm_space "{"); trivial. now apply calm_space.
Qed.

(** A text without [#], quote, brace inside quotes or newline is calm. *)
Lemma calm_mark_free (s : str) :
  mark_free s = true -> forallb (fun c => negb (Py.chr_eqb c Py.NL)) s = true ->
  calm s = true.
Proof.
  intros Hm Hn. unfold calm.
  assert (G : forall prev, quote_scan s prev false = Some false).
  { induction s as [|c s IH]; intro prev; trivial.
    cbn [mark_free forallb] in Hm, Hn.
    apply andb_true_iff in Hm as [Hc Hm]. apply andb_true_iff in Hn as [Hc' Hn].
    unfold is_mark in Hc. apply negb_true_iff, orb_false_iff in Hc as [H1 H2].
    apply negb_true_iff in Hc'.
    cbn [quote_scan]. rewrite H1, H2, Hc'. cbn [andb negb]. rewrite andb_false_r.
    now apply IH. }
  now rewrite G.
Qed.









Lemma find_comment_mark_free line : forall i prev q,
  mark_free line = true -> find_comment_from line i prev q = (-1)%Z.
Proof.
  induction line as [|x line IH]; intros i prev q H; [reflexivity|].
  cbn [mark_free forallb] in H. apply andb_true_iff in H as [Hx Hl].
  unfold is_mark in Hx. apply negb_true_iff, orb_false_iff in Hx as [H1 H2].
  cbn [find_comment_from]. rewrite H1, H2. cbn [andb]. now apply IH.
Qed.

Lemma find_comment_scan line : forall i prev q q',
  quote_scan line prev q = Some q' -> find_comment_from line i prev q = (-1)%Z.
Proof.
  induction line as [|x line IH]; intros i prev q q' H; [reflexivity|].
  cbn [quote_scan] in H. cbn [find_comment_from].
  change (match prev with
          | None => true
          | Some p => negb (Py.chr_eqb p Py.BACKSLASH)
          end) with (unescaped prev).
  destruct (Py.chr_eqb x Py.QUOTE && unescaped prev); [now apply IH with (q' := q')|].
  destruct (Py.chr_eqb x "#" && negb q); [discriminate|].
  destruct (is_brace x && q); [discriminate|].
  destruct (Py.chr_eqb x Py.NL); [discriminate|]. now apply IH with (q' := q').
Qed.


Lemma fold_add (g : str -> Z * Z) lines : forall a b,
  fold_left (fun (acc : Z * Z) (l : str) => (fst acc + fst (g l), snd acc + snd (g l))%Z)
            lines (a, b)
  = (a + fst (sum_pairs (map g lines)), b + snd (sum_pairs (map g lines)))%Z.
Proof.
  induction lines as [|l lines IH]; intros a b.
  - simpl. f_equal; lia.
  - cbn [fold_left map sum_pairs fold_right fst snd]. rewrite IH.
    fold (sum_pairs (map g lines)). f_equal; lia.
Qed.

Lemma code_count_fold lines : forall a b,
  fold_left
    (fun (acc : Z * Z) (line : str) =>
       let hash_pos := StructuralMerger._find_comment_start line in
       let line := if (0 <=? hash_pos)%Z then Py.upto line hash_pos else line in
       (fst acc + Py.count line "{", snd acc + Py.count line "}")%Z)
    lines (a, b)
  = (a + fst (sum_pairs (map code_count_line lines)),
     b + snd (sum_pairs (map code_count_line lines)))%Z.
Proof. intros a b. exact (fold_add code_count_line lines a b). Qed.



(** ** The serializer on tidy trees *)


Lemma mark_free_tabs k : mark_free (Py.tabs k) = true.
Proof. induction k; simpl; trivial. Qed.















(** A remark on trailing comments.  The serializer puts the comment of a
    block's opening line into the header and, for a block written on one
    line, the content and the closing brace after it: they end up inside the
    comment.  Here a balanced text comes out with its closing brace
    commented away. *)
Lemma block_comment_swallows_the_closing_brace :
  let t : str := "a = { # c" ++ [Py.NL] ++ "b = 1" ++ [Py.NL] ++ "}" in
  StructuralMerger._validate_braces t = true
  /\ serialize (parse t) 0 = ("a = { # c b = 1 }" : str)
  /\ brace_counts (serialize (parse t) 0) = (1, 0)%Z
  /\ StructuralMerger._validate_braces (serialize (parse t) 0) = false.
Proof. repeat split; vm_compute; reflexivity. Qed.

End BraceFacts.

(** * Operators *)

Module OperatorFacts.

Import Pdx PdxParser PdxSerializer OperatorDefs.

(** ** The matcher on texts of a known shape *)

Section Matcher.

Variable cls : ascii -> bool.
Variable k : Re.cont.

(** A greedy repetition takes a whole run of its class when the
    continuation accepts what follows. *)
Lemma greedy_all (m r : str) res : forall acc,
  forallb cls m = true ->
  match r with [] => True | c :: _ => cls c = false end ->
  k (acc ++ m) r = Some res ->
  Re.greedy cls k acc (m ++ r) = Some res.
Proof.
  induction m as [|c m IH]; intros acc Hm Hr Hk.
  - rewrite app_nil_r in Hk. cbn [app]. destruct r as [|c r]; cbn [Re.greedy]; trivial.
    now rewrite Hr.
  - cbn [forallb] in Hm. apply andb_true_iff in Hm as [Hc Hm].
    cbn [app Re.greedy]. rewrite Hc.
    rewrite (IH (acc ++ [c])); trivial. now rewrite <- app_assoc.
Qed.

(** It fails when the continuation refuses every place of the run. *)
Lemma greedy_none (m r : str) : forall acc,
  forallb cls m = true ->
  match r with [] => True | c :: _ => cls c = false end ->
  (forall m1 m2, m = m1 ++ m2 -> k (acc ++ m1) (m2 ++ r) = None) ->
  Re.greedy cls k acc (m ++ r) = None.
Proof.
  induction m as [|c m IH]; intros acc Hm Hr Hk.
  - specialize (Hk [] [] eq_refl). rewrite app_nil_r in Hk. cbn [app] in *.
    destruct r as [|c r]; cbn [Re.greedy]; trivial. now rewrite Hr.
  - cbn [forallb] in Hm. apply andb_true_iff in Hm as [Hc Hm].
    cbn [app Re.greedy]. rewrite Hc. rewrite (IH (acc ++ [c])); trivial.
    + specialize (Hk [] (c :: m) eq_refl). now rewrite app_nil_r in Hk.
    + intros m1 m2 E. rewrite <- app_assoc. apply (Hk (c :: m1) m2). now rewrite E.
Qed.

(** A lazy repetition passes over a run that the continuation refuses at
    every place but the last. *)
Lemma lazy_skip (m r : str) res : forall acc,
  forallb cls m = true ->
  (forall m1 c m2, m = m1 ++ c :: m2 -> k (acc ++ m1) (c :: m2 ++ r) = None) ->
  k (acc ++ m) r = Some res ->
  Re.lazy cls k acc (m ++ r) = Some res.
Proof.
  induction m as [|c m IH]; intros acc Hm Hn Hk.
  - rewrite app_nil_r in Hk. cbn [app]. destruct r; cbn [Re.lazy]; now rewrite Hk.
  - cbn [forallb] in Hm. apply andb_true_iff in Hm as [Hc Hm].
    cbn [app Re.lazy].
    pose proof (Hn [] c m eq_refl) as H0. rewrite app_nil_r in H0. cbn [app] in H0.
    rewrite H0, Hc. apply IH; trivial.
    + intros m1 c' m2 E. rewrite <- app_assoc. apply (Hn (c :: m1) c' m2). now rewrite E.
    + now rewrite <- app_assoc.
Qed.

Lemma lazy_none (m r : str) : forall acc,
  forallb cls m = true ->
  match r with [] => True | c :: _ => cls c = false end ->
  (forall m1 m2, m = m1 ++ m2 -> k (acc ++ m1) (m2 ++ r) = None) ->
  Re.lazy cls k acc (m ++ r) = None.
Proof.
  induction m as [|c m IH]; intros acc Hm Hr Hk.
  - pose proof (Hk [] [] eq_refl) as H0. rewrite app_nil_r in H0. cbn [app] in *.
    destruct r as [|c r]; cbn [Re.lazy]; rewrite H0; trivial. now rewrite Hr.
  - cbn [forallb] in Hm. apply andb_true_iff in Hm as [Hc Hm].
    cbn [app Re.lazy].
    pose proof (Hk [] (c :: m) eq_refl) as H0. rewrite app_nil_r in H0. cbn [app] in H0.
    rewrite H0, Hc. apply IH; trivial.
    intros m1 m2 E. rewrite <- app_assoc. apply (Hk (c :: m1) m2). now rewrite E.
Qed.

End Matcher.

(** ** Characters *)

Lemma ident_facts (c : ascii) :
  Re.ident c = true ->
  Py.isspace c = false /\ Py.chr_eqb c "=" = false /\ Py.chr_eqb c "}" = false
  /\ Py.chr_eqb c "{" = false /\ Py.chr_eqb c "#" = false
  /\ Py.chr_eqb c Py.QUOTE = false /\ Re.ident_or_space c = true.
Proof.
  destruct c as [[] [] [] [] [] [] [] []]; intro H; vm_compute in H;
    try discriminate H; repeat split; reflexivity.
Qed.

Lemma word_ident (c : ascii) : Re.word c = true -> Re.ident c = true.
Proof. unfold Re.ident, Re.union. now intros ->. Qed.

Lemma ident_not_nl (c : ascii) : Re.ident c = true -> Py.chr_eqb c Py.NL = false.
Proof.
  destruct c as [[] [] [] [] [] [] [] []]; intro H; vm_compute in H;
    try discriminate H; reflexivity.
Qed.

Lemma space_facts (c : ascii) :
  Py.isspace c = true ->
  Py.chr_eqb c "=" = false /\ Py.chr_eqb c "{" = false /\ Re.ident c = false
  /\ Re.ident_or_space c = true.
Proof.
  destruct c as [[] [] [] [] [] [] [] []]; intro H; vm_compute in H;
    try discriminate H; repeat split; reflexivity.
Qed.

Lemma forallb_impl {A} (f g : A -> bool) (l : list A) :
  (forall x, f x = true -> g x = true) -> forallb f l = true -> forallb g l = true.
Proof.
  intros H. induction l as [|x l IH]; simpl; trivial.
  intro E. apply andb_true_iff in E as [E1 E2]. now rewrite (H x E1), IH.
Qed.

(** ** Unfolding the matcher one item at a time *)

Lemma push_some m r ms rest :
  r = Some (ms, rest) -> Re.push m r = Some (m :: ms, rest).
Proof. now intros ->. Qed.

Lemma rmatch_star cls P s :
  Re.rmatch (Re.Star cls :: P) s
  = Re.greedy cls (fun m rest => Re.push m (Re.rmatch P rest)) [] s.
Proof. reflexivity. Qed.

Lemma rmatch_lazy cls P s :
  Re.rmatch (Re.LazyStar cls :: P) s
  = Re.lazy cls (fun m rest => Re.push m (Re.rmatch P rest)) [] s.
Proof. reflexivity. Qed.

Lemma rmatch_one cls P c s :
  Re.rmatch (Re.One cls :: P) (c :: s)
  = if cls c then Re.push [c] (Re.rmatch P s) else None.
Proof. reflexivity. Qed.

Lemma rmatch_plus cls P c s :
  Re.rmatch (Re.Plus cls :: P) (c :: s)
  = if cls c then Re.greedy cls (fun m rest => Re.push m (Re.rmatch P rest)) [c] s
    else None.
Proof. reflexivity. Qed.

Lemma rmatch_eol_nil : Re.rmatch [Re.Eol] [] = Some ([[]], []).
Proof. reflexivity. Qed.

(** [\s*=] refuses a text whose first character after the white space is
    not an equals sign. *)
Lemma spaces_then_equals_fails P (sp : str) c s' :
  forallb Re.space sp = true -> Re.space c = false -> Py.chr_eqb c "=" = false ->
  Re.rmatch (Re.Star Re.space :: Re.One (Re.chr "=") :: P) (sp ++ c :: s') = None.
Proof.
  intros Hsp Hc Heq. rewrite rmatch_star. apply greedy_none; trivial.
  intros m1 m2 E. destruct m2 as [|x m2]; cbn [app]; rewrite rmatch_one.
  - unfold Re.chr. now rewrite Heq.
  - assert (Hx : Re.space x = true).
    { rewrite E, forallb_app in Hsp. apply andb_true_iff in Hsp as [_ Hsp].
      cbn [forallb] in Hsp. now apply andb_true_iff in Hsp as [Hx _]. }
    unfold Re.chr. now destruct (space_facts x Hx) as (-> & _).
Qed.

(** [.*$] takes a whole text without a newline. *)
Lemma rest_of_line_matches (s : str) :
  forallb Re.dot_any s = true ->
  Re.rmatch [Re.Star Re.dot_any; Re.Eol] s = Some ([s; []], []).
Proof.
  intro H. rewrite rmatch_star.
  rewrite <- (app_nil_r s) at 1.
  apply greedy_all; trivial.
Qed.

(** ** Stripping *)

Lemma lstrip_head c (r : str) : Py.isspace c = false -> Py.lstrip (c :: r) = c :: r.
Proof. intro H. cbn [Py.lstrip]. now rewrite H. Qed.

Lemma rstrip_last (a : str) z : Py.isspace z = false -> Py.rstrip (a ++ [z]) = a ++ [z].
Proof.
  intro H. unfold Py.rstrip. rewrite rev_app_distr. cbn [rev app].
  rewrite lstrip_head by trivial. cbn [rev]. now rewrite rev_involutive.
Qed.

Lemma strip_id c (r a : str) z :
  Py.isspace c = false -> Py.isspace z = false -> c :: r = a ++ [z] ->
  Py.strip (c :: r) = c :: r.
Proof.
  intros Hc Hz E. unfold Py.strip. rewrite lstrip_head by trivial.
  rewrite E. now apply rstrip_last.
Qed.

Lemma rstrip_cons c (t : str) : Py.isspace c = false -> Py.rstrip (c :: t) = c :: Py.rstrip t.
Proof.
  intro H. unfold Py.rstrip. cbn [rev].
  assert (G : forall a : str, Py.lstrip (a ++ [c]) = Py.lstrip a ++ [c]).
  { induction a as [|x a IH]; cbn [app Py.lstrip].
    - now rewrite H.
    - destruct (Py.isspace x); trivial. }
  rewrite G, rev_app_distr. reflexivity.
Qed.

Lemma prefix_minus_self (s : str) : Py.prefix_minus s s = [].
Proof. unfold Py.prefix_minus. now rewrite Nat.sub_diag. Qed.

Lemma ends_nonspace_app (a b : str) : ends_nonspace b -> ends_nonspace (a ++ b).
Proof.
  unfold ends_nonspace. rewrite rev_app_distr.
  destruct (rev b) as [|z r]; [contradiction|]. trivial.
Qed.

Lemma ends_nonspace_of_b (s : str) : ends_nonspace_b s = true -> ends_nonspace s.
Proof.
  unfold ends_nonspace_b, ends_nonspace. destruct (rev s); [discriminate|].
  intro H. now apply negb_true_iff in H.
Qed.

Lemma ends_nonspace_ident (v : str) :
  v <> [] -> forallb Re.ident v = true -> ends_nonspace v.
Proof.
  intros Hne Hv. unfold ends_nonspace.
  destruct (rev v) as [|z r] eqn:E.
  - apply (f_equal (@rev _)) in E. rewrite rev_involutive in E. contradiction.
  - assert (Hz : In z v) by (apply in_rev; rewrite E; now left).
    rewrite forallb_forall in Hv. now destruct (ident_facts z (Hv z Hz)).
Qed.

Lemma strip_id' c (r : str) :
  Py.isspace c = false -> ends_nonspace (c :: r) -> Py.strip (c :: r) = c :: r.
Proof.
  intros Hc He. unfold ends_nonspace in He.
  destruct (rev (c :: r)) as [|z t] eqn:E; [contradiction|].
  apply strip_id with (a := rev t) (z := z); trivial.
  apply (f_equal (@rev _)) in E. rewrite rev_involutive in E. exact E.
Qed.

Lemma mark_free_ident (s : str) : forallb Re.ident s = true -> BraceDefs.mark_free s = true.
Proof.
  apply forallb_impl. intros x Hx. unfold BraceDefs.is_mark.
  destruct (ident_facts x Hx) as (_ & _ & _ & _ & -> & -> & _). reflexivity.
Qed.

(** ** Calm texts *)

Lemma calm_ident (s : str) : forallb Re.ident s = true -> BraceDefs.calm s = true.
Proof.
  intro H. apply BraceFacts.calm_mark_free; [now apply mark_free_ident|].
  revert H. apply forallb_impl. intros x Hx. now rewrite (ident_not_nl x Hx).
Qed.

Lemma scan_dot_any (s : str) : forall prev q q',
  BraceDefs.quote_scan s prev q = Some q' -> forallb Re.dot_any s = true.
Proof.
  induction s as [|x s IH]; intros prev q q' H; [reflexivity|].
  cbn [BraceDefs.quote_scan] in H. cbn [forallb]. unfold Re.dot_any at 1.
  destruct (Py.chr_eqb x Py.QUOTE && BraceDefs.unescaped prev) eqn:E1.
  - apply andb_true_iff in E1 as [E1 _]. apply chr_eqb_eq in E1. subst x.
    now rewrite (IH _ _ _ H).
  - destruct (Py.chr_eqb x "#" && negb q); [discriminate|].
    destruct (BraceDefs.is_brace x && q); [discriminate|].
    destruct (Py.chr_eqb x Py.NL); [discriminate|]. now rewrite (IH _ _ _ H).
Qed.

Lemma calm_dot_any (s : str) : BraceDefs.calm s = true -> forallb Re.dot_any s = true.
Proof.
  unfold BraceDefs.calm. intro H.
  destruct (BraceDefs.quote_scan s None false) as [q|] eqn:E; [|discriminate].
  now apply scan_dot_any in E.
Qed.

Lemma calm_find_comment (s : str) : BraceDefs.calm s = true -> _find_comment_pos s = (-1)%Z.
Proof.
  unfold BraceDefs.calm. intro H.
  destruct (BraceDefs.quote_scan s None false) as [q|] eqn:E; [|discriminate].
  unfold _find_comment_pos, find_comment. now rewrite (BraceFacts.find_comment_scan _ _ _ _ _ E).
Qed.

Lemma calm_head (o : ascii) (R : str) :
  BraceDefs.calm (o :: R) = true -> Py.chr_eqb o "#" = false.
Proof.
  unfold BraceDefs.calm. cbn [BraceDefs.quote_scan BraceDefs.unescaped].
  destruct (Py.chr_eqb o Py.QUOTE) eqn:E1; cbn [andb].
  - apply chr_eqb_eq in E1. now subst.
  - destruct (Py.chr_eqb o "#"); cbn [negb andb]; [discriminate|trivial].
Qed.

(** the suffixes of a name followed by one blank *)
Lemma suffix_of_name_blank (tail m1 m2 : str) :
  forallb Re.ident tail = true -> tail ++ [" "%char] = m1 ++ m2 ->
  m2 = [] \/ m2 = [" "%char] \/ exists c t, m2 = c :: t /\ Re.ident c = true.
Proof.
  intros Ht E. destruct m2 as [|c t]; [now left|]. right.
  destruct (rev t) as [|z t'] eqn:Er.
  - apply (f_equal (@rev _)) in Er. rewrite rev_involutive in Er. cbn in Er. subst t.
    apply app_inj_tail in E as [_ <-]. now left.
  - right. exists c, t. split; trivial.
    apply (f_equal (@rev _)) in Er. rewrite rev_involutive in Er. cbn in Er. subst t.
    change (c :: rev t' ++ [z]) with ((c :: rev t') ++ [z]) in E.
    rewrite app_assoc in E. apply app_inj_tail in E as [E _].
    rewrite forallb_forall in Ht. apply Ht. rewrite E. apply in_or_app. right. now left.
Qed.

Lemma suffix_of_name (tail m1 m2 : str) :
  forallb Re.ident tail = true -> tail = m1 ++ m2 ->
  m2 = [] \/ exists c t, m2 = c :: t /\ Re.ident c = true.
Proof.
  intros Ht E. destruct m2 as [|c t]; [now left|]. right. exists c, t. split; trivial.
  rewrite forallb_forall in Ht. apply Ht. rewrite E. apply in_or_app. right. now left.
Qed.

Lemma startswith_hash_cons c (r : str) :
  Py.chr_eqb c "#" = false -> Py.startswith (c :: r) "#" = false.
Proof.
  intro H.
  change (Py.startswith (c :: r) "#") with (Py.chr_eqb "#" c && Py.startswith r []).
  unfold Py.chr_eqb in *. now rewrite Ascii.eqb_sym, H.
Qed.

(** ** A line [name o...], where [o] is neither white space, nor a name
    character, nor an equals sign *)

Section OperatorLine.

Variables (stack : Stack) (c0 o : ascii) (tail R : str).
Hypothesis Hc0 : Re.word c0 = true.
Hypothesis Htail : forallb Re.ident tail = true.
Hypothesis Ho_space : Py.isspace o = false.
Hypothesis Ho_ident : Re.ident o = false.
Hypothesis Ho_eq : Py.chr_eqb o "=" = false.
Hypothesis HR_calm : BraceDefs.calm (o :: R) = true.
Hypothesis HR_end : ends_nonspace (o :: R).

Local Abbreviation op_line := (OperatorDefs.op_line c0 o tail R).

Lemma op_line_strip : Py.strip op_line = op_line.
Proof.
  apply strip_id'.
  - now destruct (ident_facts c0 (word_ident c0 Hc0)).
  - change (ends_nonspace op_line).
    replace op_line with ((c0 :: tail ++ [" "%char]) ++ o :: R)
      by (unfold op_line; cbn [app]; now rewrite <- app_assoc).
    apply ends_nonspace_app, HR_end.
Qed.

Lemma name_calm : BraceDefs.calm (c0 :: tail) = true.
Proof. apply calm_ident. cbn [forallb]. now rewrite (word_ident c0 Hc0), Htail. Qed.

Lemma op_line_calm : BraceDefs.calm op_line = true.
Proof.
  change op_line with ((c0 :: tail) ++ " "%char :: o :: R).
  apply BraceFacts.calm_space; [apply name_calm|exact HR_calm].
Qed.

Lemma op_line_block_fails : Re.rmatch RE_BLOCK op_line = None.
Proof.
  unfold RE_BLOCK, op_line. rewrite rmatch_one, Hc0, rmatch_lazy.
  replace (tail ++ " "%char :: o :: R) with ((tail ++ [" "%char]) ++ o :: R)
    by now rewrite <- app_assoc.
  rewrite lazy_none; trivial.
  - rewrite forallb_app. cbn.
    rewrite (forallb_impl Re.ident Re.ident_or_space tail); trivial.
    intros x Hx. now destruct (ident_facts x Hx) as (_ & _ & _ & _ & _ & _ & ->).
  - unfold Re.ident_or_space, Re.union. now rewrite Ho_ident.
  - intros m1 m2 E. cbn [app].
    destruct (suffix_of_name_blank tail m1 m2 Htail E) as [->|[->|(c & t & -> & Hc)]].
    + rewrite (spaces_then_equals_fails _ [] o R); trivial.
    + rewrite (spaces_then_equals_fails _ [" "%char] o R); trivial.
    + destruct (ident_facts c Hc) as (Hs & He & _).
      rewrite (spaces_then_equals_fails _ [] c (t ++ o :: R)); trivial.
Qed.

Lemma op_line_prop_fails : Re.rmatch RE_PROP op_line = None.
Proof.
  unfold RE_PROP, op_line. rewrite rmatch_one, Hc0, rmatch_star.
  rewrite greedy_none; trivial.
  intros m1 m2 E. cbn [app].
  destruct (suffix_of_name tail m1 m2 Htail E) as [->|(c & t & -> & Hc)].
  - rewrite (spaces_then_equals_fails _ [" "%char] o R); trivial.
  - destruct (ident_facts c Hc) as (Hs & He & _).
    rewrite (spaces_then_equals_fails _ [] c (t ++ " "%char :: o :: R)); trivial.
Qed.

Lemma op_line_list_matches :
  Re.rmatch RE_LIST op_line = Some ([c0 :: tail; " "%char :: o :: R; []], []).
Proof.
  unfold RE_LIST, op_line. rewrite rmatch_plus, (word_ident c0 Hc0).
  rewrite greedy_all with (res := ([c0 :: tail; " "%char :: o :: R; []], [])); trivial.
  cbn [app]. rewrite rest_of_line_matches; trivial.
  change (forallb Re.dot_any (" "%char :: o :: R))
    with (Re.dot_any " " && forallb Re.dot_any (o :: R)).
  now rewrite (calm_dot_any _ HR_calm).
Qed.

(** The line yields a ListItem whose value is the name; the operator and
    what follows it are kept in [raw_line] only. *)
Lemma parse_line_op_line :
  parse_line stack op_line
  = append_child stack (node LIST_ITEM [] (c0 :: tail) [] op_line [] []).
Proof.
  unfold parse_line. rewrite op_line_strip, prefix_minus_self.
  assert (F : _find_comment_pos op_line = (-1)%Z)
    by (apply calm_find_comment, op_line_calm).
  rewrite F. cbn [Z.leb Z.compare].
  destruct (ident_facts c0 (word_ident c0 Hc0)) as (Hs & _ & Hcl & _ & Hh & _).
  assert (L : leading_close_of op_line = 0).
  { unfold op_line. cbn [leading_close_of]. now rewrite Hcl, Hs. }
  rewrite L. cbn [pop_n drop_closes].
  assert (N : Py.nonempty op_line = true) by reflexivity.
  rewrite N. cbn [negb].
  assert (S : Py.startswith op_line "#" = false).
  { unfold op_line. now apply startswith_hash_cons. }
  rewrite S, op_line_block_fails, op_line_prop_fails, op_line_list_matches.
  cbn [Re.item nth].
  assert (C : Py.startswith (Py.strip (" "%char :: o :: R)) "#" = false).
  { unfold Py.strip. cbn [Py.lstrip]. rewrite Ho_space.
    replace (Py.isspace " ") with true by reflexivity.
    rewrite rstrip_cons by trivial. apply startswith_hash_cons.
    exact (calm_head _ _ HR_calm). }
  rewrite C. reflexivity.
Qed.

End OperatorLine.

(** ** A line [name = ...] *)

(** [\s*X] refuses a text whose first character after the white space is
    not in the class [X], when [X] holds no white space. *)
Lemma spaces_then_other_fails cls P (sp : str) c s' :
  (forall x, Re.space x = true -> cls x = false) ->
  forallb Re.space sp = true -> Re.space c = false -> cls c = false ->
  Re.rmatch (Re.Star Re.space :: Re.One cls :: P) (sp ++ c :: s') = None.
Proof.
  intros Hcls Hsp Hc Heq. rewrite rmatch_star. apply greedy_none; trivial.
  intros m1 m2 E. destruct m2 as [|x m2]; cbn [app]; rewrite rmatch_one.
  - now rewrite Heq.
  - assert (Hx : Re.space x = true).
    { rewrite E, forallb_app in Hsp. apply andb_true_iff in Hsp as [_ Hsp].
      cbn [forallb] in Hsp. now apply andb_true_iff in Hsp as [Hx _]. }
    now rewrite (Hcls x Hx).
Qed.

(** [\s*=\s*\{] refuses [= v...] when [v] is neither white space nor an
    opening brace. *)
Lemma equals_then_no_brace P (sp : str) v s' :
  forallb Re.space sp = true -> Re.space v = false -> Py.chr_eqb v "{" = false ->
  Re.rmatch (Re.Star Re.space :: Re.One (Re.chr "=") :: Re.Star Re.space
             :: Re.One (Re.chr "{") :: P) (sp ++ "="%char :: " "%char :: v :: s') = None.
Proof.
  intros Hsp Hv Hb. rewrite rmatch_star. apply greedy_none; trivial.
  intros m1 m2 E. destruct m2 as [|x m2]; cbn [app]; rewrite rmatch_one.
  - replace (Re.chr "=" "=") with true by reflexivity.
    change (" "%char :: v :: s') with ([" "%char] ++ v :: s').
    rewrite (spaces_then_other_fails (Re.chr "{") P [" "%char] v s'); trivial.
    intros x Hx. unfold Re.chr. now destruct (space_facts x Hx) as (_ & -> & _).
  - assert (Hx : Re.space x = true).
    { rewrite E, forallb_app in Hsp. apply andb_true_iff in Hsp as [_ Hsp].
      cbn [forallb] in Hsp. now apply andb_true_iff in Hsp as [Hx _]. }
    unfold Re.chr. now destruct (space_facts x Hx) as (-> & _).
Qed.

(** What [parse_line] finds before it tries its patterns, on a calm line
    that starts with a name character. *)
Lemma plain_line_facts (line : str) :
  match line with c :: _ => Re.ident c = true | [] => False end ->
  BraceDefs.calm line = true ->
  _find_comment_pos line = (-1)%Z /\ leading_close_of line = 0
  /\ Py.nonempty line = true /\ Py.startswith line "#" = false.
Proof.
  intros Hc Hm. destruct line as [|c rest]; [contradiction|].
  destruct (ident_facts c Hc) as (Hs & _ & Hcl & _ & Hh & _).
  repeat split.
  - now apply calm_find_comment.
  - cbn [leading_close_of]. now rewrite Hcl, Hs.
  - now apply startswith_hash_cons.
Qed.

Section EqualsLine.

Variables (stack : Stack) (c0 v : ascii) (tail vs : str).
Hypothesis Hc0 : Re.word c0 = true.
Hypothesis Htail : forallb Re.ident tail = true.
Hypothesis Hv_space : Py.isspace v = false.
Hypothesis Hv_brace : Py.chr_eqb v "{" = false.
Hypothesis Hv_calm : BraceDefs.calm (v :: vs) = true.
Hypothesis Hv_end : ends_nonspace (v :: vs).

Local Abbreviation prop_line := (OperatorDefs.prop_line c0 v tail vs).
Local Abbreviation block_line := (OperatorDefs.block_line c0 tail).

Lemma prop_line_strip : Py.strip prop_line = prop_line.
Proof.
  apply strip_id'.
  - now destruct (ident_facts c0 (word_ident c0 Hc0)).
  - change (ends_nonspace prop_line).
    replace prop_line with ((c0 :: tail ++ " = ") ++ v :: vs)
      by (unfold prop_line; cbn [app]; now rewrite <- app_assoc).
    apply ends_nonspace_app, Hv_end.
Qed.

Lemma prop_line_calm : BraceDefs.calm prop_line = true.
Proof.
  change prop_line with ((c0 :: tail) ++ " "%char :: ("=" ++ " "%char :: v :: vs)).
  apply BraceFacts.calm_space; [now apply name_calm|].
  now apply (BraceFacts.calm_space "=").
Qed.

Lemma prop_line_block_fails : Re.rmatch RE_BLOCK prop_line = None.
Proof.
  unfold RE_BLOCK, prop_line. rewrite rmatch_one, Hc0, rmatch_lazy.
  replace (tail ++ " "%char :: "="%char :: " "%char :: v :: vs)
    with ((tail ++ [" "%char]) ++ "="%char :: " "%char :: v :: vs)
    by now rewrite <- app_assoc.
  rewrite lazy_none; trivial.
  - rewrite forallb_app. cbn.
    rewrite (forallb_impl Re.ident Re.ident_or_space tail); trivial.
    intros x Hx. now destruct (ident_facts x Hx) as (_ & _ & _ & _ & _ & _ & ->).
  - intros m1 m2 E. cbn [app].
    destruct (suffix_of_name_blank tail m1 m2 Htail E) as [->|[->|(c & t & -> & Hc)]].
    + rewrite (equals_then_no_brace _ [] v vs); trivial.
    + rewrite (equals_then_no_brace _ [" "%char] v vs); trivial.
    + destruct (ident_facts c Hc) as (Hs & He & _).
      rewrite (spaces_then_equals_fails _ [] c (t ++ "="%char :: " "%char :: v :: vs));
        trivial.
Qed.

Lemma prop_line_prop_matches :
  Re.rmatch RE_PROP prop_line
  = Some ([[c0]; tail; [" "%char]; ["="%char]; [" "%char]; v :: vs; []], []).
Proof.
  pose proof (calm_dot_any _ Hv_calm) as Hd. cbn [forallb] in Hd.
  apply andb_true_iff in Hd as [Hvd Hvsd].
  unfold RE_PROP, prop_line. rewrite rmatch_one, Hc0. apply push_some.
  rewrite rmatch_star. apply greedy_all; trivial. apply push_some.
  rewrite rmatch_star.
  apply (greedy_all _ _ [" "%char] ("="%char :: " "%char :: v :: vs)); trivial.
  apply push_some. rewrite rmatch_one.
  replace (Re.chr "=" "=") with true by reflexivity. apply push_some.
  rewrite rmatch_star. apply (greedy_all _ _ [" "%char] (v :: vs)); trivial.
  apply push_some. rewrite rmatch_plus, Hvd.
  rewrite <- (app_nil_r vs) at 1.
  apply (greedy_all _ _ vs []); trivial.
Qed.

(** [name = value] yields a Property with that name and value. *)
Lemma parse_line_prop_line :
  parse_line stack prop_line
  = append_child stack (node PROPERTY (c0 :: tail) (v :: vs) [] prop_line [] []).
Proof.
  destruct (ident_facts c0 (word_ident c0 Hc0)) as (Hs & _).
  destruct (plain_line_facts prop_line (word_ident c0 Hc0) prop_line_calm)
    as (F & L & N & S).
  unfold parse_line. rewrite prop_line_strip, prefix_minus_self.
  rewrite F. cbn [Z.leb Z.compare]. rewrite L. cbn [pop_n drop_closes].
  rewrite N. cbn [negb].
  rewrite S, prop_line_block_fails, prop_line_prop_matches.
  cbn [Re.item Re.group nth Nat.sub skipn firstn concat app].
  assert (Sv : Py.strip (v :: vs) = v :: vs) by (now apply strip_id').
  rewrite Sv.
  assert (Fv : _find_comment_pos (v :: vs) = (-1)%Z) by (now apply calm_find_comment).
  rewrite Fv. cbn [Z.leb Z.compare].
  assert (Sn : Py.strip (c0 :: tail) = c0 :: tail).
  { apply strip_id'; trivial.
    apply ends_nonspace_ident; [discriminate|].
    cbn [forallb]. now rewrite (word_ident c0 Hc0), Htail. }
  rewrite ?app_nil_r, Sn. reflexivity.
Qed.

Lemma block_line_strip : Py.strip block_line = block_line.
Proof.
  apply strip_id'.
  - now destruct (ident_facts c0 (word_ident c0 Hc0)).
  - change (ends_nonspace block_line).
    replace block_line with ((c0 :: tail) ++ " = {") by reflexivity.
    apply ends_nonspace_app. reflexivity.
Qed.

Lemma block_line_calm : BraceDefs.calm block_line = true.
Proof.
  change block_line with ((c0 :: tail) ++ " "%char :: "= {").
  apply BraceFacts.calm_space; [now apply name_calm|reflexivity].
Qed.

Lemma block_line_block_matches :
  Re.rmatch RE_BLOCK block_line
  = Some ([[c0]; tail; [" "%char]; ["="%char]; [" "%char]; ["{"%char]; []; []], []).
Proof.
  unfold RE_BLOCK, block_line. rewrite rmatch_one, Hc0, rmatch_lazy.
  apply push_some. apply lazy_skip.
  - apply (forallb_impl Re.ident Re.ident_or_space tail); trivial.
    intros x Hx. now destruct (ident_facts x Hx) as (_ & _ & _ & _ & _ & _ & ->).
  - intros m1 c m2 E. cbn [app].
    assert (Hc : Re.ident c = true).
    { rewrite forallb_forall in Htail. apply Htail. rewrite E.
      apply in_or_app. right. now left. }
    destruct (ident_facts c Hc) as (Hs & He & _).
    rewrite (spaces_then_equals_fails _ [] c (m2 ++ " = {")); trivial.
  - reflexivity.
Qed.

(** [name = {] opens a block: the new Block becomes the innermost open one. *)
Lemma parse_line_block_line :
  parse_line stack block_line
  = node BLOCK (c0 :: tail) [] [] block_line [] [] :: stack.
Proof.
  destruct (ident_facts c0 (word_ident c0 Hc0)) as (Hs & _).
  destruct (plain_line_facts block_line (word_ident c0 Hc0) block_line_calm)
    as (F & L & N & S).
  unfold parse_line. rewrite block_line_strip, prefix_minus_self.
  rewrite F. cbn [Z.leb Z.compare]. rewrite L. cbn [pop_n drop_closes].
  rewrite N. cbn [negb].
  rewrite S, block_line_block_matches.
  cbn [Re.item Re.group nth Nat.sub skipn firstn concat app].
  assert (Sn : Py.strip (c0 :: tail) = c0 :: tail).
  { apply strip_id'; trivial.
    apply ends_nonspace_ident; [discriminate|].
    cbn [forallb]. now rewrite (word_ident c0 Hc0), Htail. }
  rewrite ?app_nil_r, Sn. reflexivity.
Qed.

End EqualsLine.

(** ** The six operators *)

Lemma is_rhs_parts (s : str) :
  is_rhs s = true -> BraceDefs.calm s = true /\ ends_nonspace s.
Proof.
  unfold is_rhs. intro H. apply andb_true_iff in H as [H1 H2].
  split; trivial. now apply ends_nonspace_of_b.
Qed.

Lemma is_value_parts (v : ascii) (vs : str) :
  is_value (v :: vs) = true ->
  Py.isspace v = false /\ Py.chr_eqb v "{" = false
  /\ BraceDefs.calm (v :: vs) = true /\ ends_nonspace (v :: vs).
Proof.
  cbn [is_value]. intro H. apply andb_true_iff in H as [H H3].
  apply andb_true_iff in H as [H1 H2].
  apply negb_true_iff in H1. apply negb_true_iff in H2.
  destruct (is_rhs_parts _ H3). auto.
Qed.

Lemma is_value_rhs (s : str) : is_value s = true -> is_rhs s = true.
Proof.
  destruct s as [|v vs]; [discriminate|]. cbn [is_value]. intro H.
  now apply andb_true_iff in H as [_ H].
Qed.

(** A line [name OP rhs] whose operator is not [=] yields a ListItem that
    holds the name. *)
Lemma parse_line_comparison (stack : Stack) (name_ op rhs : str) :
  is_name name_ = true -> is_rhs rhs = true -> In op comparison_operators ->
  parse_line stack (line_of name_ op rhs)
  = append_child stack (node LIST_ITEM [] name_ [] (line_of name_ op rhs) [] []).
Proof.
  intros Hn Hr Hop.
  destruct name_ as [|c0 tail]; [discriminate|].
  cbn [is_name] in Hn. apply andb_true_iff in Hn as [Hc0 Htail].
  apply is_rhs_parts in Hr as [Hcalm Hend].
  assert (G : forall (o : ascii) (op' : str),
             Py.isspace o = false -> Re.ident o = false -> Py.chr_eqb o "=" = false ->
             BraceDefs.calm (o :: op') = true ->
             parse_line stack (line_of (c0 :: tail) (o :: op') rhs)
             = append_child stack
                 (node LIST_ITEM [] (c0 :: tail) [] (line_of (c0 :: tail) (o :: op') rhs) [] [])).
  { intros o op' H1 H2 H3 H4.
    assert (E : line_of (c0 :: tail) (o :: op') rhs
                = op_line c0 o tail (op' ++ " " ++ rhs)).
    { unfold line_of, op_line. reflexivity. }
    rewrite E. apply parse_line_op_line; trivial.
    - change (o :: op' ++ " " ++ rhs) with ((o :: op') ++ " "%char :: rhs).
      now apply BraceFacts.calm_space.
    - change (o :: op' ++ " " ++ rhs) with ((o :: op') ++ " " ++ rhs).
      rewrite app_assoc. now apply ends_nonspace_app. }
  unfold comparison_operators in Hop. cbn [In] in Hop.
  destruct Hop as [<-|[<-|[<-|[<-|[<-|[]]]]]]; apply G; reflexivity.
Qed.

(** C7, as the code has it.  Of the six operators only [=] is structural for
    the parser: [name = value] yields a Property with that name and value,
    and [name = {] opens a Block; with [<], [>], [<=], [>=] or [?=] the line
    yields a ListItem whose value is the name, whatever follows the operator
    -- a value or an opening brace --, so no Property is built and no block
    is opened.  In every case [raw_line] keeps the line with its operator.
    The serializer writes [ = ] for a Property and for a Block, and only the
    name for such a ListItem. *)
Theorem only_equals_is_structural (stack : Stack) (name_ value_ : str) :
  is_name name_ = true -> is_value value_ = true ->
  parse_line stack (line_of name_ "=" value_)
  = append_child stack (node PROPERTY name_ value_ [] (line_of name_ "=" value_) [] [])
  /\ parse_line stack (line_of name_ "=" "{")
     = node BLOCK name_ [] [] (line_of name_ "=" "{") [] [] :: stack
  /\ (forall op rhs, In op comparison_operators -> is_rhs rhs = true ->
        parse_line stack (line_of name_ op rhs)
        = append_child stack (node LIST_ITEM [] name_ [] (line_of name_ op rhs) [] []))
  /\ (forall k raw,
        _serialize_node (node PROPERTY name_ value_ [] raw [] []) k
        = Some (Py.tabs k ++ name_ ++ " = " ++ value_))
  /\ (forall k raw,
        _serialize_node (node BLOCK name_ [] [] raw [] []) k
        = Some (Py.tabs k ++ name_ ++ " = { }"))
  /\ (forall k raw,
        _serialize_node (node LIST_ITEM [] name_ [] raw [] []) k
        = Some (Py.tabs k ++ name_)).
Proof.
  intros Hn Hv. split; [|split; [|split; [|split; [|split]]]].
  - destruct name_ as [|c0 tail]; [discriminate|].
    cbn [is_name] in Hn. apply andb_true_iff in Hn as [Hc0 Htail].
    destruct value_ as [|v vs]; [discriminate|].
    apply is_value_parts in Hv as (Hsp & Hb & Hcalm & Hend).
    assert (E : line_of (c0 :: tail) "=" (v :: vs) = prop_line c0 v tail vs).
    { unfold line_of, prop_line. reflexivity. }
    rewrite E. now apply parse_line_prop_line.
  - destruct name_ as [|c0 tail]; [discriminate|].
    cbn [is_name] in Hn. apply andb_true_iff in Hn as [Hc0 Htail].
    assert (E : line_of (c0 :: tail) "=" "{" = block_line c0 tail).
    { unfold line_of, block_line. reflexivity. }
    rewrite E. now apply parse_line_block_line.
  - intros op rhs Hop Hr. now apply parse_line_comparison.
  - intros k raw. reflexivity.
  - intros k raw. cbn [_serialize_node node]. unfold with_comment. cbn [Py.nonempty].
    now rewrite <- !app_assoc.
  - intros k raw. reflexivity.
Qed.

Lemma only_equals_is_structural_witness :
  is_name "level" = true /\ is_value "5" = true
  /\ parse_line c7_stack (line_of "level" "=" "5")
     = append_child c7_stack (node PROPERTY "level" "5" [] "level = 5" [] [])
  /\ parse_line c7_stack (line_of "level" ">=" "5")
     = append_child c7_stack (node LIST_ITEM [] "level" [] "level >= 5" [] [])
  /\ parse_line c7_stack (line_of "level" "<" "{")
     = append_child c7_stack (node LIST_ITEM [] "level" [] "level < {" [] []).
Proof.
  split; [reflexivity|]. split; [reflexivity|].
  destruct (only_equals_is_structural c7_stack "level" "5" eq_refl eq_refl)
    as (H1 & _ & H3 & _).
  split; [exact H1|]. split.
  - apply (H3 ">=" "5"); [vm_compute; tauto | reflexivity].
  - apply (H3 "<" "{"); [vm_compute; tauto | reflexivity].
Defined.

(** A line whose operator is [>=] is no Property: the parser keeps the name
    as a ListItem, and serializing the tree drops the operator and the
    value.  With [<] before an opening brace no block is opened either: the
    following line becomes a sibling. *)
Lemma comparison_line_is_not_a_property :
  children (parse "level >= 5")
  = [node LIST_ITEM [] "level" [] "level >= 5" [] []]
  /\ serialize (parse "level >= 5") 0 = "level"
  /\ map node_type (children (parse ("limit < {" ++ [Py.NL] ++ "x = 1" ++ [Py.NL] ++ "}")))
     = [LIST_ITEM; PROPERTY].
Proof. repeat split; vm_compute; reflexivity. Qed.

End OperatorFacts.

(** * Round trip of the parser and the serializer *)

Module RoundTripFacts.

Import Pdx PdxParser PdxSerializer OperatorDefs OperatorFacts RoundTripDefs.

Lemma split_no_sep (s : str) (sep : ascii) (line : str) :
  In line (Py.split s sep) -> ~ In sep line.
Proof.
  revert line. induction s as [|c s IH]; intros line H; simpl in H.
  - destruct H as [<-|[]]. intros [].
  - destruct (Py.chr_eqb c sep) eqn:E.
    + destruct H as [<-|H]; [intros []|now apply IH].
    + destruct (Py.split s sep) as [|h t] eqn:Es.
      * destruct H as [<-|[]]. intros [->|[]]. now rewrite chr_eqb_refl in E.
      * destruct H as [<-|H].
        -- intros [->|H']; [now rewrite chr_eqb_refl in E|].
           apply (IH h); [now left|trivial].
        -- apply IH. now right.
Qed.





(** ** The four kinds of kept lines *)

Lemma parse_line_comment_or_blank stack line :
  comment_or_blank line = true ->
  parse_line stack line = append_child stack (node_of_line line).
Proof.
  unfold comment_or_blank, parse_line, node_of_line. intro H.
  destruct (Py.strip line) as [|c rest] eqn:Es; cbn [Py.nonempty negb] in *; trivial.
  cbn [orb] in H. rewrite H.
  cbn [Py.startswith String.list_ascii_of_string] in H.
  apply andb_true_iff in H as [Hc _]. apply chr_eqb_eq in Hc. subst c.
  assert (F : _find_comment_pos ("#"%char :: rest) = 0%Z) by reflexivity.
  rewrite F. cbn [Z.leb Z.compare Py.upto Z.to_nat firstn leading_close_of pop_n drop_closes
                  Py.nonempty negb].
  assert (G : Py.startswith ("#"%char :: rest) "#" = true) by (now destruct rest).
  rewrite G. reflexivity.
Qed.

Lemma canonical_property_spec line n v :
  canonical_property line = Some (n, v) ->
  line = line_of n "=" v /\ is_name n = true /\ is_value v = true.
Proof.
  unfold canonical_property.
  destruct (take_until [" "%char] line) as [n' rest] eqn:E.
  apply FuelFacts.take_until_app in E.
  destruct rest as [|[[] [] [] [] [] [] [] []] rest]; try discriminate.
  destruct rest as [|[[] [] [] [] [] [] [] []] rest]; try discriminate.
  destruct rest as [|[[] [] [] [] [] [] [] []] rest]; try discriminate.
  destruct (is_name n') eqn:Hn; [|discriminate].
  destruct (is_value rest) eqn:Hv; [|discriminate].
  cbn [andb]. intro H. injection H as <- <-. repeat split; trivial.
Qed.

Lemma is_name_facts (s : str) :
  is_name s = true ->
  Py.strip s = s /\ BraceDefs.calm s = true
  /\ match s with c :: _ => Re.ident c = true | [] => False end.
Proof.
  destruct s as [|c0 tail]; [discriminate|]. cbn [is_name]. intro H.
  apply andb_true_iff in H as [Hc0 Htail].
  assert (Hi : forallb Re.ident (c0 :: tail) = true)
    by (cbn [forallb]; now rewrite (word_ident c0 Hc0), Htail).
  repeat split.
  - apply strip_id'.
    + now destruct (ident_facts c0 (word_ident c0 Hc0)).
    + apply ends_nonspace_ident; [discriminate|trivial].
  - now apply calm_ident.
  - now apply word_ident.
Qed.

Lemma is_name_not_comment (s : str) :
  is_name s = true ->
  Py.nonempty (Py.strip s) = true /\ Py.startswith (Py.strip s) "#" = false.
Proof.
  intro H. destruct (is_name_facts s H) as (S & M & I). rewrite S.
  destruct (plain_line_facts s I M) as (_ & _ & N & P). now split.
Qed.

Lemma canonical_not_comment line n v :
  canonical_property line = Some (n, v) ->
  Py.nonempty (Py.strip line) = true /\ Py.startswith (Py.strip line) "#" = false.
Proof.
  intro H. apply canonical_property_spec in H as (-> & Hn & Hv).
  destruct n as [|c0 tail]; [discriminate|].
  cbn [is_name] in Hn. apply andb_true_iff in Hn as [Hc0 Htail].
  destruct v as [|v0 vs]; [discriminate|].
  apply is_value_parts in Hv as (Hsp & Hb & Hcalm & Hend).
  change (line_of (c0 :: tail) "=" (v0 :: vs)) with (prop_line c0 v0 tail vs).
  rewrite prop_line_strip by trivial.
  destruct (plain_line_facts (prop_line c0 v0 tail vs) (word_ident c0 Hc0)
              (prop_line_calm c0 v0 tail vs Hc0 Htail Hcalm)) as (_ & _ & N & P).
  now split.
Qed.

Lemma parse_line_canonical stack line n v :
  canonical_property line = Some (n, v) ->
  parse_line stack line = append_child stack (node PROPERTY n v [] line [] []).
Proof.
  intro H. apply canonical_property_spec in H as (-> & Hn & Hv).
  destruct n as [|c0 tail]; [discriminate|].
  cbn [is_name] in Hn. apply andb_true_iff in Hn as [Hc0 Htail].
  destruct v as [|v0 vs]; [discriminate|].
  apply is_value_parts in Hv as (Hsp & Hb & Hcalm & Hend).
  change (line_of (c0 :: tail) "=" (v0 :: vs)) with (prop_line c0 v0 tail vs).
  now apply parse_line_prop_line.
Qed.

(** A line that is one name matches neither the pattern of a block nor
    the pattern of a property, and yields a ListItem. *)
Lemma parse_line_name stack line :
  is_name line = true ->
  parse_line stack line = append_child stack (node LIST_ITEM [] line [] line [] []).
Proof.
  intro H. destruct (is_name_facts line H) as (S & M & I).
  destruct (plain_line_facts line I M) as (F & L & N & P).
  destruct line as [|c0 tail]; [discriminate|].
  cbn [is_name] in H. apply andb_true_iff in H as [Hc0 Htail].
  assert (B : Re.rmatch RE_BLOCK (c0 :: tail) = None).
  { unfold RE_BLOCK. rewrite rmatch_one, Hc0, rmatch_lazy.
    rewrite <- (app_nil_r tail) at 1. rewrite lazy_none; trivial.
    - apply (forallb_impl Re.ident Re.ident_or_space tail); trivial.
      intros x Hx. now destruct (ident_facts x Hx) as (_ & _ & _ & _ & _ & _ & ->).
    - intros m1 m2 E. rewrite app_nil_r.
      destruct (suffix_of_name tail m1 m2 Htail E) as [->|(c & t & -> & Hc)].
      + reflexivity.
      + destruct (ident_facts c Hc) as (Hs & He & _).
        rewrite (spaces_then_equals_fails _ [] c t); trivial. }
  assert (Pr : Re.rmatch RE_PROP (c0 :: tail) = None).
  { unfold RE_PROP. rewrite rmatch_one, Hc0, rmatch_star.
    rewrite <- (app_nil_r tail) at 1. rewrite greedy_none; trivial.
    intros m1 m2 E. rewrite app_nil_r.
    destruct (suffix_of_name tail m1 m2 Htail E) as [->|(c & t & -> & Hc)].
    - reflexivity.
    - destruct (ident_facts c Hc) as (Hs & He & _).
      rewrite (spaces_then_equals_fails _ [] c t); trivial. }
  assert (Li : Re.rmatch RE_LIST (c0 :: tail) = Some ([c0 :: tail; []; []], [])).
  { unfold RE_LIST. rewrite rmatch_plus, (word_ident c0 Hc0).
    rewrite <- (app_nil_r tail) at 1. apply greedy_all; trivial. }
  unfold parse_line. rewrite S, prefix_minus_self.
  rewrite F. cbn [Z.leb Z.compare]. rewrite L. cbn [pop_n drop_closes].
  rewrite N. cbn [negb]. rewrite P, B, Pr, Li. reflexivity.
Qed.

Lemma parse_line_kept stack line :
  kept_line line = true ->
  parse_line stack line = append_child stack (node_of_line line).
Proof.
  intro H. destruct (comment_or_blank line) eqn:C.
  - now apply parse_line_comment_or_blank.
  - unfold kept_line in H. rewrite C in H. cbn [orb] in H.
    unfold node_of_line.
    destruct (canonical_property line) as [[n v]|] eqn:E.
    + destruct (canonical_not_comment line n v E) as [-> ->]. cbn [negb].
      now apply parse_line_canonical.
    + cbn [orb] in H. destruct (is_name_not_comment line H) as [-> ->]. cbn [negb].
      now apply parse_line_name.
Qed.







End RoundTripFacts.

(** * Comments and brace counts *)

Module CommentFacts.

Import BraceDefs.

Lemma find_comment_from_range (line : str) : forall i prev q,
  let p := find_comment_from line i prev q in
  p = (-1)%Z
  \/ ((i <= p < i + Z.of_nat (length line))%Z
      /\ nth_error line (Z.to_nat (p - i)) = Some "#"%char).
Proof.
  induction line as [|x line IH]; intros i prev q; [now left|].
  cbn [find_comment_from].
  destruct (Py.chr_eqb x Py.QUOTE && _) eqn:E1.
  - destruct (IH (i + 1)%Z (Some x) (negb q)) as [H|[H1 H2]]; [now left|right].
    cbn zeta in *. split; [cbn [length]; lia|].
    replace (Z.to_nat (find_comment_from line (i + 1) (Some x) (negb q) - i))
      with (S (Z.to_nat (find_comment_from line (i + 1) (Some x) (negb q) - (i + 1))))
      by lia.
    exact H2.
  - destruct (Py.chr_eqb x "#" && negb q) eqn:E2.
    + right. cbn zeta. split; [cbn [length]; lia|].
      rewrite Z.sub_diag. apply andb_true_iff in E2 as [E2 _].
      apply chr_eqb_eq in E2. now subst.
    + destruct (IH (i + 1)%Z (Some x) q) as [H|[H1 H2]]; [now left|right].
      cbn zeta in *. split; [cbn [length]; lia|].
      replace (Z.to_nat (find_comment_from line (i + 1) (Some x) q - i))
        with (S (Z.to_nat (find_comment_from line (i + 1) (Some x) q - (i + 1))))
        by lia.
      exact H2.
Qed.

Lemma find_comment_from_cut (line : str) : forall i prev q,
  (0 <= i)%Z ->
  find_comment_from
    (firstn (Z.to_nat (find_comment_from line i prev q - i)) line) i prev q = (-1)%Z.
Proof.
  induction line as [|x line IH]; intros i prev q Hi.
  - now rewrite firstn_nil.
  - cbn [find_comment_from].
    destruct (Py.chr_eqb x Py.QUOTE && _) eqn:E1.
    + destruct (find_comment_from_range line (i + 1)%Z (Some x) (negb q)) as [H|[H1 _]];
        cbn zeta in *.
      * rewrite H. replace (Z.to_nat (-1 - i)) with 0 by lia. reflexivity.
      * replace (Z.to_nat (find_comment_from line (i + 1) (Some x) (negb q) - i))
          with (S (Z.to_nat (find_comment_from line (i + 1) (Some x) (negb q) - (i + 1))))
          by lia.
        cbn [firstn find_comment_from]. rewrite E1. apply IH. lia.
    + destruct (Py.chr_eqb x "#" && negb q) eqn:E2.
      * now rewrite Z.sub_diag.
      * destruct (find_comment_from_range line (i + 1)%Z (Some x) q) as [H|[H1 _]];
          cbn zeta in *.
        -- rewrite H. replace (Z.to_nat (-1 - i)) with 0 by lia. reflexivity.
        -- replace (Z.to_nat (find_comment_from line (i + 1) (Some x) q - i))
             with (S (Z.to_nat (find_comment_from line (i + 1) (Some x) q - (i + 1))))
             by lia.
           cbn [firstn find_comment_from]. rewrite E1, E2. apply IH. lia.
Qed.

Lemma find_comment_from_no_hash (line : str) : forall i prev q,
  ~ In "#"%char line -> find_comment_from line i prev q = (-1)%Z.
Proof.
  induction line as [|x line IH]; intros i prev q H; [reflexivity|].
  cbn [find_comment_from].
  assert (Hx : Py.chr_eqb x "#" = false).
  { destruct (Py.chr_eqb x "#") eqn:E; trivial. apply chr_eqb_eq in E.
    subst. elim H. now left. }
  rewrite Hx. cbn [andb]. destruct (_ && _); apply IH; intro; apply H; now right.
Qed.

Lemma contains_hash (line : str) : Py.contains line "#" = false -> ~ In "#"%char line.
Proof.
  induction line as [|x line IH]; intros H [].
  - subst. cbn [Py.contains] in H. apply orb_false_iff in H as [H _].
    now destruct line.
  - cbn [Py.contains] in H. apply orb_false_iff in H as [_ H]. now apply IH.
Qed.

(** The comment is cut at the same place with or without the test
    ['#' in line] that some of the callers make first. *)
Lemma strip_comment_cut (line : str) :
  strip_comment line
  = if (0 <=? find_comment line)%Z then Py.upto line (find_comment line) else line.
Proof.
  unfold strip_comment. destruct (Py.contains line "#") eqn:E; trivial.
  unfold find_comment. now rewrite find_comment_from_no_hash by now apply contains_hash.
Qed.

(** X1.  The position that the three comment scanners return is -1 or the
    index of a [#] of the line; the text before that position holds no
    comment any more; and a line without [#] has no comment. *)
Theorem comment_position (line : str) :
  let p := find_comment line in
  (p = (-1)%Z
   \/ ((0 <= p < Z.of_nat (length line))%Z
       /\ nth_error line (Z.to_nat p) = Some "#"%char))
  /\ find_comment (Py.upto line p) = (-1)%Z
  /\ strip_comment (strip_comment line) = strip_comment line
  /\ (~ In "#"%char line -> p = (-1)%Z).
Proof.
  intro p. subst p. unfold find_comment.
  assert (C : find_comment_from (Py.upto line (find_comment_from line 0 None false))
                0 None false = (-1)%Z).
  { pose proof (find_comment_from_cut line 0%Z None false ltac:(lia)) as H.
    now rewrite Z.sub_0_r in H. }
  split; [|split; [exact C|split]].
  - destruct (find_comment_from_range line 0%Z None false) as [H|[H1 H2]]; [now left|].
    right. cbn zeta in *. rewrite Z.sub_0_r in H2. split; [lia|exact H2].
  - rewrite !strip_comment_cut. unfold find_comment.
    destruct (0 <=? find_comment_from line 0 None false)%Z eqn:E.
    + now rewrite C.
    + now rewrite E.
  - apply find_comment_from_no_hash.
Qed.

(** ** The two brace checks *)

Lemma fold_add_fst (l : list (Z * Z)) : forall a,
  fold_left Z.add (map fst l) a = (a + fst (sum_pairs l))%Z.
Proof.
  induction l as [|x l IH]; intro a; cbn [map fold_left sum_pairs fold_right fst].
  - lia.
  - rewrite IH. fold (sum_pairs l). lia.
Qed.

Lemma fold_add_snd (l : list (Z * Z)) : forall a,
  fold_left Z.add (map snd l) a = (a + snd (sum_pairs l))%Z.
Proof.
  induction l as [|x l IH]; intro a; cbn [map fold_left sum_pairs fold_right snd].
  - lia.
  - rewrite IH. fold (sum_pairs l). lia.
Qed.

Lemma count_line_code (line : str) :
  StructureValidator.count_line line = code_count_line line.
Proof.
  unfold StructureValidator.count_line, code_count_line.
  now rewrite strip_comment_cut.
Qed.

Lemma count_braces_sum (content : str) :
  StructuralMerger._count_braces content
  = sum_pairs (map code_count_line (Py.split content Py.NL)).
Proof.
  unfold StructuralMerger._count_braces. rewrite BraceFacts.code_count_fold.
  cbn [Z.add]. now destruct (sum_pairs _).
Qed.

(** X2.  The validator's brace check and the merger's brace check accept
    the same texts: the test ['#' in line] that only the validator makes
    changes nothing. *)
Theorem brace_checks_agree (content : str) :
  StructureValidator._validate_braces content = StructuralMerger._validate_braces content.
Proof.
  unfold StructureValidator._validate_braces, StructuralMerger._validate_braces.
  rewrite count_braces_sum, fold_add_fst, fold_add_snd.
  replace (map StructureValidator.count_line (Py.split content Py.NL))
    with (map code_count_line (Py.split content Py.NL))
    by (apply map_ext; intro; symmetry; apply count_line_code).
  now destruct (sum_pairs _).
Qed.

Lemma sum_pairs_app (a b : list (Z * Z)) :
  sum_pairs (a ++ b)
  = (fst (sum_pairs a) + fst (sum_pairs b), snd (sum_pairs a) + snd (sum_pairs b))%Z.
Proof.
  induction a as [|x a IH].
  - cbn [app]. destruct (sum_pairs b). reflexivity.
  - cbn [app sum_pairs fold_right fst snd].
    fold (sum_pairs (a ++ b)) (sum_pairs a). rewrite IH. cbn [fst snd]. f_equal; lia.
Qed.

(** X3.  The merger's brace count is additive over texts joined by a
    newline, so two texts with balanced braces, one after the other, make a
    text with balanced braces. *)
Theorem count_braces_additive (a b : str) :
  StructuralMerger._count_braces (a ++ [Py.NL] ++ b)
  = (fst (StructuralMerger._count_braces a) + fst (StructuralMerger._count_braces b),
     snd (StructuralMerger._count_braces a) + snd (StructuralMerger._count_braces b))%Z
  /\ (StructuralMerger._validate_braces a = true ->
      StructuralMerger._validate_braces b = true ->
      StructuralMerger._validate_braces (a ++ [Py.NL] ++ b) = true).
Proof.
  assert (E : StructuralMerger._count_braces (a ++ [Py.NL] ++ b)
              = (fst (StructuralMerger._count_braces a) + fst (StructuralMerger._count_braces b),
                 snd (StructuralMerger._count_braces a) + snd (StructuralMerger._count_braces b))%Z).
  { rewrite !count_braces_sum. cbn [app]. rewrite BraceFacts.split_app_nl, map_app.
    apply sum_pairs_app. }
  split; [exact E|].
  unfold StructuralMerger._validate_braces. rewrite E.
  destruct (StructuralMerger._count_braces a), (StructuralMerger._count_braces b).
  cbn [fst snd]. intros H1 H2. apply Z.eqb_eq in H1, H2. apply Z.eqb_eq. lia.
Qed.

Lemma count_braces_additive_witness :
  StructuralMerger._validate_braces ("a = {" ++ [Py.NL] ++ "}") = true
  /\ StructuralMerger._validate_braces "b = { c }" = true
  /\ StructuralMerger._validate_braces
       (("a = {" ++ [Py.NL] ++ "}") ++ [Py.NL] ++ "b = { c }") = true.
Proof.
  split; [reflexivity|]. split; [reflexivity|].
  exact (proj2 (count_braces_additive ("a = {" ++ [Py.NL] ++ "}") "b = { c }")
           eq_refl eq_refl).
Defined.

End CommentFacts.

(** * The rule book *)

Module RuleFacts.

Import ParadoxRules RuleDefs.

(** Closed comparisons of names are evaluated. *)
Ltac eval_str_eqb :=
  repeat match goal with
         | |- context [Py.str_eqb ?a ?b] =>
             let v := eval vm_compute in (Py.str_eqb a b) in
             change (Py.str_eqb a b) with v
         end.

Lemma pattern_replace_whole_eq (block_name : str) :
  pattern_replace_whole block_name
  = is_event_block block_name
    || re_matches RE_PROVINCE_ID block_name
    || is_date_block block_name.
Proof.
  unfold pattern_replace_whole, BLOCK_PATTERNS, is_event_block, is_date_block.
  cbn [existsb fst snd]. eval_str_eqb.
  cbn [orb]. rewrite !andb_true_r, andb_false_r, !orb_false_r.
  now rewrite !orb_assoc.
Qed.

Lemma safe_list_strategy (block_name parent_name : str) :
  str_in block_name SAFE_LIST_BLOCKS = true ->
  get_merge_strategy block_name parent_name = ACCUMULATE_LIST.
Proof.
  intro H. apply str_in_In in H.
  repeat (destruct H as [<-|H]; [vm_compute; reflexivity|]). destruct H.
Qed.

Lemma other_strategy (block_name parent_name : str) :
  str_in block_name SAFE_LIST_BLOCKS = false ->
  get_merge_strategy block_name parent_name = REPLACE_WHOLE
  \/ get_merge_strategy block_name parent_name = RECURSIVE.
Proof.
  intro H. unfold get_merge_strategy. rewrite H.
  destruct (pattern_replace_whole block_name); [now left|].
  destruct (is_iterator_block block_name); [now left|].
  destruct (str_in block_name NO_MERGE_BLOCKS); [now left|].
  destruct (str_in block_name CONTAINER_BLOCKS); [now right|].
  destruct (is_on_action_container block_name); [now right|].
  destruct (is_scripted_effect_container block_name); [now right|].
  destruct (is_gui_background_container block_name); [now right|now left].
Qed.

(** X4.  A block is accumulated as a list exactly when its name is one of
    SAFE_LIST_BLOCKS: neither the name patterns nor the iterator patterns
    take one of these names away (random_events and random_on_actions match
    an iterator pattern and are lists all the same), and no other name gets
    the strategy.  The strategy KEEP_BASE is never chosen. *)
Theorem accumulated_blocks_are_the_safe_lists (block_name parent_name : str) :
  is_safe_to_accumulate block_name parent_name = str_in block_name SAFE_LIST_BLOCKS
  /\ (get_merge_strategy block_name parent_name = ACCUMULATE_LIST
      <-> In block_name SAFE_LIST_BLOCKS)
  /\ get_merge_strategy block_name parent_name <> KEEP_BASE.
Proof.
  unfold is_safe_to_accumulate.
  destruct (str_in block_name SAFE_LIST_BLOCKS) eqn:E.
  - rewrite (safe_list_strategy _ parent_name E).
    split; [reflexivity|]. split; [|discriminate].
    split; [intros _; now apply str_in_In|reflexivity].
  - assert (N : ~ In block_name SAFE_LIST_BLOCKS).
    { intro H. apply str_in_In in H. congruence. }
    destruct (other_strategy _ parent_name E) as [-> | ->];
      (split; [reflexivity|]; split; [|discriminate]);
      (split; [discriminate|intro H; now elim N]).
Qed.

(** X5.  An event name and a date name are atomic wherever they stand: as
    a top-level block the strategy is ATOMIC_ACCUMULATE for every file path,
    also under on_action/ and scripted_effects/, and inside a block the
    strategy is REPLACE_WHOLE for every parent. *)
Theorem events_and_dates_are_atomic_everywhere (block_name : str) :
  is_event_block block_name = true \/ is_date_block block_name = true ->
  (forall file_path, get_top_level_strategy block_name file_path = ATOMIC_ACCUMULATE)
  /\ (forall parent_name,
        get_merge_strategy block_name parent_name = REPLACE_WHOLE
        /\ is_safe_to_accumulate block_name parent_name = false).
Proof.
  intro H.
  assert (P : pattern_replace_whole block_name = true).
  { rewrite pattern_replace_whole_eq.
    destruct H as [-> | ->]; [reflexivity|now rewrite orb_true_r]. }
  split.
  - intro file_path. unfold get_top_level_strategy.
    destruct H as [-> | ->]; [reflexivity|].
    now destruct (is_event_block block_name).
  - intro parent_name. unfold is_safe_to_accumulate, get_merge_strategy.
    now rewrite P.
Qed.

Lemma events_and_dates_are_atomic_everywhere_witness :
  get_top_level_strategy "europe.0001" "common/on_action/x.txt" = ATOMIC_ACCUMULATE
  /\ get_merge_strategy "867.1.1" "on_game_start" = REPLACE_WHOLE.
Proof.
  split.
  - apply (events_and_dates_are_atomic_everywhere "europe.0001"). left. reflexivity.
  - apply (events_and_dates_are_atomic_everywhere "867.1.1"). right. reflexivity.
Defined.

(** X6.  Whenever [is_top_level_atomic] says that a top-level block is
    atomic, [get_top_level_strategy] gives it ATOMIC_ACCUMULATE: the two
    functions never disagree in that direction. *)
Theorem top_level_atomic_means_atomic_strategy (block_name file_path : str) :
  is_top_level_atomic block_name file_path = true ->
  get_top_level_strategy block_name file_path = ATOMIC_ACCUMULATE.
Proof.
  unfold is_top_level_atomic, get_top_level_strategy. cbv zeta.
  destruct (is_event_block block_name); [reflexivity|].
  destruct (is_date_block block_name); [reflexivity|].
  destruct (Py.str_eqb (get_file_context file_path) "atomic"); [reflexivity|discriminate].
Qed.

Lemma top_level_atomic_means_atomic_strategy_witness :
  is_top_level_atomic "on_birth" "common/decisions/x.txt" = true
  /\ get_top_level_strategy "on_birth" "common/decisions/x.txt" = ATOMIC_ACCUMULATE.
Proof.
  split; [reflexivity|].
  apply (top_level_atomic_means_atomic_strategy "on_birth" "common/decisions/x.txt").
  reflexivity.
Defined.

(** ** File contexts *)

Lemma replace_fuel_char (c d : ascii) : forall fuel (s : str),
  length s < fuel ->
  Py.replace_fuel fuel s [c] [d] = map (fun x => if Py.chr_eqb x c then d else x) s.
Proof.
  induction fuel as [|fuel IH]; intros s L; [lia|].
  destruct s as [|x s]; [reflexivity|].
  cbn [Py.replace_fuel Py.startswith length skipn map app].
  replace (Py.startswith s []) with true by now destruct s.
  rewrite andb_true_r. unfold Py.chr_eqb at 1. rewrite Ascii.eqb_sym.
  fold (Py.chr_eqb x c). cbn [length] in L.
  destruct (Py.chr_eqb x c); cbn [app]; f_equal; apply IH; lia.
Qed.

Lemma replace_char (s : str) (c d : ascii) :
  Py.replace s [c] [d] = map (fun x => if Py.chr_eqb x c then d else x) s.
Proof. unfold Py.replace. apply replace_fuel_char. lia. Qed.

Lemma lower_chr_idem (c : ascii) : Py.lower_chr (Py.lower_chr c) = Py.lower_chr c.
Proof. destruct c as [[] [] [] [] [] [] [] []]; reflexivity. Qed.

Lemma swap_lower_swap (c : ascii) :
  swap_sep (Py.lower_chr (swap_sep c)) = swap_sep (Py.lower_chr c).
Proof. destruct c as [[] [] [] [] [] [] [] []]; reflexivity. Qed.

Lemma path_lower_eq (p : str) :
  Py.replace (Py.lower p) [Py.BACKSLASH] "/" = map (fun c => swap_sep (Py.lower_chr c)) p.
Proof.
  change ("/" : str) with ["/"%char]. rewrite replace_char. unfold Py.lower.
  now rewrite map_map.
Qed.

Lemma nonempty_map (f : ascii -> ascii) (p : str) : Py.nonempty (map f p) = Py.nonempty p.
Proof. now destruct p. Qed.

Lemma file_context_lower (p : str) : get_file_context (Py.lower p) = get_file_context p.
Proof.
  unfold get_file_context. rewrite !path_lower_eq.
  unfold Py.lower. rewrite nonempty_map, map_map.
  destruct (Py.nonempty p); [|reflexivity]. cbn [negb].
  replace (map (fun x => swap_sep (Py.lower_chr (Py.lower_chr x))) p)
    with (map (fun c => swap_sep (Py.lower_chr c)) p); [reflexivity|].
  apply map_ext. intro c. now rewrite lower_chr_idem.
Qed.

Lemma file_context_separators (p : str) :
  get_file_context (Py.replace p [Py.BACKSLASH] "/") = get_file_context p.
Proof.
  change ("/" : str) with ["/"%char]. rewrite replace_char.
  fold swap_sep. change (fun x => swap_sep x) with swap_sep.
  unfold get_file_context. rewrite !path_lower_eq.
  rewrite nonempty_map, map_map.
  destruct (Py.nonempty p); [|reflexivity]. cbn [negb].
  replace (map (fun x => swap_sep (Py.lower_chr (swap_sep x))) p)
    with (map (fun c => swap_sep (Py.lower_chr c)) p); [reflexivity|].
  apply map_ext. intro c. now rewrite swap_lower_swap.
Qed.

(** X7.  The context of a file does not depend on the case of the letters
    of its path, nor on whether its separators are written with a slash or
    a backslash; so the strategy of a top-level block does not either.  The
    context is one of recursive, atomic and unknown, and the empty path has
    the context unknown. *)
Theorem file_context_ignores_case_and_separators (file_path block_name : str) :
  get_file_context (Py.lower file_path) = get_file_context file_path
  /\ get_file_context (Py.replace file_path [Py.BACKSLASH] "/") = get_file_context file_path
  /\ get_top_level_strategy block_name (Py.lower file_path)
     = get_top_level_strategy block_name file_path
  /\ get_top_level_strategy block_name (Py.replace file_path [Py.BACKSLASH] "/")
     = get_top_level_strategy block_name file_path
  /\ In (get_file_context file_path) ["recursive" : str; "atomic" : str; "unknown" : str]
  /\ get_file_context [] = ("unknown" : str).
Proof.
  split; [apply file_context_lower|]. split; [apply file_context_separators|].
  split; [unfold get_top_level_strategy; now rewrite file_context_lower|].
  split; [unfold get_top_level_strategy; now rewrite file_context_separators|].
  split; [|reflexivity].
  unfold get_file_context.
  destruct (negb _); [right; right; now left|].
  destruct (existsb _ RECURSIVE_FILE_CONTEXTS); [now left|].
  destruct (existsb _ ATOMIC_FILE_CONTEXTS); [right; now left|right; right; now left].
Qed.

End RuleFacts.

(** * More on list accumulation *)

Module AccumulateMoreFacts.

Import ParadoxRules StructuralMerger AccumulateDefs AccumulateFacts.

Lemma In_dec_str (x : str) (l : list str) : In x l \/ ~ In x l.
Proof. destruct (in_dec str_dec x l); tauto. Qed.

Lemma novel_nil seen items : incl items seen -> novel seen items = [].
Proof.
  intro H. destruct (novel seen items) as [|x l] eqn:E; trivial.
  assert (I : In x (novel seen items)) by (rewrite E; now left).
  apply novel_In in I as [I N]. elim N. now apply H.
Qed.

Lemma accumulate_items base_name child_name idx mods base_items chs :
  fst (accumulate base_name child_name idx base_items mods chs)
  = base_items ++ novel base_items (mod_items_at mods child_name idx).
Proof.
  unfold accumulate.
  destruct (accumulate_eq base_name child_name idx mods base_items chs) as (r & E & _).
  now rewrite E.
Qed.

Lemma mod_items_at_perm mods mods' child_name idx :
  Permutation mods mods' ->
  Permutation (mod_items_at mods child_name idx) (mod_items_at mods' child_name idx).
Proof.
  unfold mod_items_at. induction 1; cbn [flat_map].
  - constructor.
  - now apply Permutation_app_head.
  - rewrite !app_assoc. apply Permutation_app_tail, Permutation_app_comm.
  - etransitivity; eassumption.
Qed.

(** X8.  The order of the mods changes the accumulated list only by the
    order of the items that the mods add: the base items stay in front, in
    their order, and the merged lists of two orderings of the same mods are
    permutations of one another. *)
Theorem accumulated_items_do_not_depend_on_mod_order
    (base_name child_name : str) (idx : nat) (base_items : list str)
    (mods mods' : list (str * ParsedBlock)) (chs chs' : list MergeChange) :
  Permutation mods mods' ->
  let merged := fst (accumulate base_name child_name idx base_items mods chs) in
  let merged' := fst (accumulate base_name child_name idx base_items mods' chs') in
  Permutation merged merged'
  /\ firstn (length base_items) merged = base_items
  /\ firstn (length base_items) merged' = base_items
  /\ length merged = length merged'.
Proof.
  intros P merged merged'. subst merged merged'. rewrite !accumulate_items.
  assert (Q : Permutation (novel base_items (mod_items_at mods child_name idx))
                          (novel base_items (mod_items_at mods' child_name idx))).
  { apply NoDup_Permutation; try apply novel_NoDup.
    intro x. rewrite !novel_In.
    pose proof (mod_items_at_perm mods mods' child_name idx P) as M.
    split; intros [H N]; split; trivial.
    - now apply (Permutation_in _ M).
    - now apply (Permutation_in _ (Permutation_sym M)). }
  split; [now apply Permutation_app_head|].
  rewrite !firstn_app, !Nat.sub_diag, !firstn_all. cbn [firstn]. rewrite !app_nil_r.
  split; [reflexivity|]. split; [reflexivity|].
  rewrite !length_app. f_equal. now apply Permutation_length.
Qed.

Lemma accumulated_items_do_not_depend_on_mod_order_witness :
  let a := ("A" : str, holder (list_block "on_actions" ["x" : str; "y" : str])) in
  let b := ("B" : str, holder (list_block "on_actions" ["z" : str; "x" : str])) in
  Permutation
    (fst (accumulate "on_game_start" "on_actions" 0 ["v" : str] [a; b] []))
    (fst (accumulate "on_game_start" "on_actions" 0 ["v" : str] [b; a] [])).
Proof.
  intros a b.
  exact (proj1 (accumulated_items_do_not_depend_on_mod_order
                  "on_game_start" "on_actions" 0 ["v" : str] [a; b] [b; a] [] []
                  (perm_swap b a []))).
Defined.

(** X9.  Accumulating is idempotent.  The merged list holds every item of
    the base and of every mod; when the base list has no item twice, the
    merged list has none twice; and accumulating the same mods into the
    merged list adds no item and records no change. *)
Theorem accumulating_again_adds_nothing
    (base_name child_name : str) (idx : nat) (base_items : list str)
    (mods : list (str * ParsedBlock)) (chs chs' : list MergeChange) :
  let merged := fst (accumulate base_name child_name idx base_items mods chs) in
  (forall x, In x merged <-> In x base_items \/ In x (mod_items_at mods child_name idx))
  /\ (NoDup base_items -> NoDup merged)
  /\ accumulate base_name child_name idx merged mods chs' = (merged, chs').
Proof.
  intro merged. subst merged. rewrite accumulate_items.
  set (items := mod_items_at mods child_name idx).
  assert (M : forall x, In x (base_items ++ novel base_items items)
                        <-> In x base_items \/ In x items).
  { intro x. rewrite in_app_iff, novel_In.
    destruct (In_dec_str x base_items); tauto. }
  split; [exact M|]. split.
  - intro ND. apply NoDup_app; [exact ND|apply novel_NoDup|].
    intros x Hb Hn. apply novel_In in Hn. tauto.
  - unfold accumulate.
    destruct (accumulate_eq base_name child_name idx mods
                (base_items ++ novel base_items items) chs') as (r & E & C & _).
    fold items in E, C. rewrite E.
    rewrite (novel_nil (base_items ++ novel base_items items) items) in *
      by (intros x Hx; apply M; now right).
    destruct r; [|discriminate]. now rewrite !app_nil_r.
Qed.

End AccumulateMoreFacts.

(** * More on merge_contents and merge_file *)

Module MergeMoreFacts.

Import ParadoxRules StructuralMerger TopLevelDefs TopLevelFacts MergeDefs MergeFacts
       MergeMoreDefs.

Lemma merge_contents_no_read_error
    (self : list MergeChange) (base : str) (mods : list (str * str)) (filename : str) :
  error (fst (merge_contents self base mods filename)) <> ReadError.
Proof.
  rewrite merge_contents_eq. cbv zeta. unfold finish.
  destruct (_validate_braces _); cbn [fst error]; discriminate.
Qed.


Lemma read_all_None (mod_files : list (str * option str)) :
  read_all mod_files = None <-> exists m, In m mod_files /\ snd m = None.
Proof.
  induction mod_files as [|[n [t|]] l IH]; cbn [read_all].
  - split; [discriminate|intros (m & [] & _)].
  - destruct (read_all l).
    + split; [discriminate|]. intros (m & [<-|H] & E); [discriminate|].
      assert (N : Some l0 = None) by (apply IH; eauto). discriminate.
    + split; [|reflexivity]. intros _.
      destruct (proj1 IH eq_refl) as (m & H & E). exists m. split; [now right|trivial].
  - split; [|reflexivity]. intros _. exists (n, None). split; [now left|reflexivity].
Qed.

Lemma read_all_Some (mod_files : list (str * option str)) l :
  read_all mod_files = Some l ->
  map (fun m => (fst m, Some (snd m))) l = mod_files.
Proof.
  revert l. induction mod_files as [|[n [t|]] r IH]; intros l H; cbn [read_all] in H.
  - now injection H as <-.
  - destruct (read_all r) as [l'|]; [|discriminate]. injection H as <-.
    cbn [map fst snd]. f_equal. now apply IH.
  - discriminate.
Qed.

(** X11.  [merge_file] reports a read error exactly when the base file or
    the file of one of the mods cannot be read, and then it returns no
    content and no changes; when every file is read the result is that of
    [merge_contents] on the texts, with an empty file name and no earlier
    changes. *)
Theorem merge_file_read_errors (base_file : option str) (mod_files : list (str * option str)) :
  let r := fst (merge_file base_file mod_files) in
  (error r = ReadError
   <-> base_file = None \/ exists m, In m mod_files /\ snd m = None)
  /\ (error r = ReadError ->
      success r = false /\ result_content r = [] /\ changes r = [])
  /\ (forall base_content mod_contents,
        base_file = Some base_content ->
        mod_files = map (fun m : str * str => (fst m, Some (snd m))) mod_contents ->
        merge_file base_file mod_files = merge_contents [] base_content mod_contents []).
Proof.
  assert (NE : forall b l, error (fst (merge_contents [] b l [])) <> ReadError).
  { intros b l. apply merge_contents_no_read_error. }
  cbv zeta. unfold merge_file.
  destruct base_file as [b|].
  - destruct (read_all mod_files) as [l|] eqn:R.
    + split; [|split].
      * split; [intro H; now elim (NE b l)|].
        intros [H|H]; [discriminate|]. apply read_all_None in H. congruence.
      * intro H. now elim (NE b l).
      * intros b' l' Hb Hl. injection Hb as <-.
        apply read_all_Some in R. rewrite Hl in R.
        assert (E : l = l').
        { clear - R. revert l' R. induction l as [|x l IH]; intros [|y l'] R;
            try discriminate; trivial.
          cbn [map] in R. injection R as H1 H2 H3. f_equal; [|now apply IH].
          destruct x, y; cbn in *; congruence. }
        now rewrite E.
    + split; [|split].
      * split; [intros _; right; now apply read_all_None|reflexivity].
      * cbn. auto.
      * intros b' l' _ Hl. rewrite Hl in R. exfalso. clear - R.
        induction l' as [|x l' IH]; cbn [map read_all fst snd] in R; [discriminate|].
        destruct (read_all _); [discriminate|]. now apply IH.
  - split; [|split].
    + split; [intros _; now left|reflexivity].
    + cbn. auto.
    + intros b' l' Hb. discriminate.
Qed.

(** ** Blocks that only the mods have *)

Section NewBlock.

Variables (base_blocks : Dict.t ParsedBlock) (nm : str).
Hypothesis base_lacks : Dict.get base_blocks nm = None.
Hypothesis not_reserved : Py.startswith nm "__" = false.

Lemma get_collect_mod_changes_new acc mod_name_ mod_text Bm :
  Dict.get (_parse_top_level_blocks mod_text) nm = Some Bm ->
  Dict.get (collect_mod_changes base_blocks acc (mod_name_, mod_text)) nm
  = Some (prev nm acc ++ [(mod_name_, "new" : str, Bm)]).
Proof.
  intros Hget. unfold collect_mod_changes, Dict.items. cbn [fst snd].
  pose proof (NoDup_parse_top_level mod_text) as ND.
  apply get_In in Hget. apply in_split in Hget as (l1 & l2 & E).
  rewrite E in *. unfold keys in ND. rewrite map_app in ND. simpl in ND.
  apply NoDup_remove_2 in ND. rewrite in_app_iff in ND.
  rewrite fold_left_app. cbn [fold_left].
  rewrite get_fold_collect_notin by (unfold keys; tauto).
  unfold collect_block_change at 1. rewrite not_reserved, base_lacks.
  rewrite get_append_change_same. unfold prev.
  now rewrite get_fold_collect_notin by (unfold keys; tauto).
Qed.

Lemma get_fold_collect_mods_lacking later : forall acc,
  forallb (fun m => lacks nm (snd m)) later = true ->
  Dict.get (fold_left (collect_mod_changes base_blocks)
              (map (fun m => (fst m, crlf_to_lf (snd m))) later) acc) nm
  = Dict.get acc nm.
Proof.
  induction later as [|m later IH]; intros acc H; trivial.
  cbn [forallb] in H. apply andb_true_iff in H as [Hm H].
  cbn [map fold_left]. rewrite IH by trivial.
  unfold collect_mod_changes, Dict.items. cbn [fst snd].
  apply get_fold_collect_notin. apply get_None_keys.
  unfold lacks, mod_block in Hm.
  now destruct (Dict.get (_parse_top_level_blocks (crlf_to_lf (snd m))) nm).
Qed.

Lemma apply_change_new filename st l mod_name_ kind Bm :
  apply_change base_blocks filename st (nm, l ++ [(mod_name_, kind, Bm)])
  = (Py.rstrip (fst st) ++ [Py.NL; Py.NL] ++ full_text Bm,
     snd st ++ [mkMergeChange nm "added_unique_block" mod_name_ (Text nm)]).
Proof.
  unfold apply_change. destruct st as [result log].
  rewrite base_lacks. unfold last_change. rewrite rev_app_distr. reflexivity.
Qed.

Lemma only_nm_collect_mod_new acc m :
  untouched_elsewhere base_blocks nm (snd m) -> only_nm nm acc ->
  only_nm nm (collect_mod_changes base_blocks acc m).
Proof.
  intros Hu. unfold collect_mod_changes, Dict.items.
  assert (G : forall l, incl l (_parse_top_level_blocks (snd m)) -> forall acc,
            only_nm nm acc ->
            only_nm nm (fold_left (collect_block_change base_blocks (fst m)) l acc)).
  { induction l as [|[k v] l IH]; intros Hl acc0 Hacc; simpl; trivial.
    apply IH; [intros x Hx; apply Hl; now right|].
    unfold collect_block_change.
    destruct (Py.startswith k _) eqn:Ek; trivial.
    destruct (str_dec k nm) as [->|N].
    - rewrite base_lacks. now apply only_nm_append.
    - destruct (Hu k v) as [H|(Bk & H1 & H2)]; trivial.
      + apply Hl; now left.
      + cbn [String.list_ascii_of_string] in H. congruence.
      + now rewrite H1, H2. }
  apply G. apply incl_refl.
Qed.

Lemma only_nm_collect_new mods : forall acc,
  (forall m, In m mods -> untouched_elsewhere base_blocks nm (snd m)) -> only_nm nm acc ->
  only_nm nm (fold_left (collect_mod_changes base_blocks) mods acc).
Proof.
  induction mods as [|m mods IH]; intros acc H Hacc; simpl; trivial.
  apply IH; [intros; apply H; now right|].
  apply only_nm_collect_mod_new; trivial. apply H; now left.
Qed.

End NewBlock.

(** X12.  A top-level block that the base does not have, under a name that
    does not start with two underscores, is appended: take the last mod of
    the list that has a block of that name.  Then the entry of the name in
    [all_changes] ends with that mod, and the rewriting step on it strips
    the white space at the end of the text, appends two newlines and the
    full text of that mod's block, and records [added_unique_block] for that
    mod, whatever the strategy of the name is.  When the mods change no
    other block, [merge_contents] returns exactly the base text extended in
    this way if its braces balance, and a failure if they do not. *)
Theorem new_block_is_appended_from_last_mod
    (self : list MergeChange) (base : str) (earlier later : list (str * str))
    (mod_name_ mod_text filename nm : str) (Blast : ParsedBlock) :
  let b := crlf_to_lf base in
  let base_blocks := _parse_top_level_blocks b in
  let mods := earlier ++ (mod_name_, mod_text) :: later in
  let change := mkMergeChange nm "added_unique_block" mod_name_ (Text nm) in
  let new := Py.rstrip b ++ [Py.NL; Py.NL] ++ full_text Blast in
  Dict.get base_blocks nm = None ->
  Py.startswith nm "__" = false ->
  mod_block nm mod_text = Some Blast ->
  forallb (fun m => lacks nm (snd m)) later = true ->
  (exists chs,
      Dict.get (collect_changes base_blocks
                  (map (fun m => (fst m, crlf_to_lf (snd m))) mods)) nm = Some chs
      /\ forall st,
           apply_change base_blocks filename st (nm, chs)
           = (Py.rstrip (fst st) ++ [Py.NL; Py.NL] ++ full_text Blast, snd st ++ [change]))
  /\ ((forall m, In m mods -> untouched_elsewhere base_blocks nm (crlf_to_lf (snd m))) ->
      merge_contents self base mods filename = finish filename (new, self ++ [change])
      /\ (_validate_braces new = true ->
          let r := fst (merge_contents self base mods filename) in
          success r = true /\ result_content r = new /\ In change (changes r))
      /\ (_validate_braces new = false ->
          success (fst (merge_contents self base mods filename)) = false)).
Proof.
  intros b base_blocks mods change new Hbase Hres Hmod Hlater.
  assert (A : exists l,
             Dict.get (collect_changes base_blocks
                         (map (fun m => (fst m, crlf_to_lf (snd m))) mods)) nm
             = Some (l ++ [(mod_name_, "new" : str, Blast)])).
  { unfold collect_changes, mods. rewrite map_app, fold_left_app. cbn [map fold_left fst snd].
    rewrite get_fold_collect_mods_lacking by trivial.
    eexists. now apply get_collect_mod_changes_new. }
  destruct A as [l A].
  split.
  - exists (l ++ [(mod_name_, "new" : str, Blast)]). split; trivial.
    intro st. now apply apply_change_new.
  - intro Hu.
    assert (E : merge_contents self base mods filename
                = finish filename (new, self ++ [change])).
    { rewrite merge_contents_eq. cbv zeta. fold b base_blocks.
      assert (O : only_nm nm (collect_changes base_blocks
                     (map (fun m => (fst m, crlf_to_lf (snd m))) mods))).
      { apply only_nm_collect_new; trivial; [|now left].
        intros m Hm. apply in_map_iff in Hm as (m0 & <- & Hm0). cbn [snd]. now apply Hu. }
      destruct O as [O|[l' O]]; rewrite O in A |- *.
      - discriminate.
      - cbn [Dict.get] in A. rewrite str_eqb_refl in A. injection A as ->.
        cbn [Dict.items fold_left]. f_equal.
        now rewrite apply_change_new. }
    split; [exact E|]. rewrite E. unfold finish. cbn [fst snd]. split.
    + intros ->. cbn [fst success result_content changes]. repeat split.
      rewrite !in_app_iff. left. right. now left.
    + intros ->. reflexivity.
Qed.

Lemma new_block_is_appended_from_last_mod_witness :
  result_content
    (fst (merge_contents [] nb_base [("A" : str, nb_mod_a); ("B" : str, nb_mod_b)] []))
  = "a = {" ++ [Py.NL] ++ "x = 1" ++ [Py.NL] ++ "}" ++ [Py.NL; Py.NL]
    ++ "b = {" ++ [Py.NL] ++ "y = 2" ++ [Py.NL] ++ "}".
Proof.
  pose (nm := "b" : str).
  pose (Blast := block_or_empty (mod_block nm nb_mod_b)).
  assert (H1 : Dict.get (_parse_top_level_blocks (crlf_to_lf nb_base)) nm = None)
    by (vm_compute; reflexivity).
  assert (H2 : Py.startswith nm "__" = false) by reflexivity.
  assert (H4 : mod_block nm nb_mod_b = Some Blast) by (vm_compute; reflexivity).
  assert (H6 : forall m, In m ([("A" : str, nb_mod_a)] ++ ("B" : str, nb_mod_b) :: []) ->
                 untouched_elsewhere (_parse_top_level_blocks (crlf_to_lf nb_base)) nm
                   (crlf_to_lf (snd m))).
  { intros m [<-|[<-|[]]] k v Hin N; vm_compute in Hin.
    - destruct Hin as [E|[E|[]]]; injection E as <- <-.
      + right. eexists. split; vm_compute; reflexivity.
      + now elim N.
    - destruct Hin as [E|[]]; injection E as <- _; now elim N. }
  assert (H7 : _validate_braces
                 (Py.rstrip (crlf_to_lf nb_base) ++ [Py.NL; Py.NL] ++ full_text Blast) = true)
    by (vm_compute; reflexivity).
  assert (H9 : forallb (fun m : str * str => lacks nm (snd m)) [] = true) by reflexivity.
  destruct (new_block_is_appended_from_last_mod [] nb_base [("A" : str, nb_mod_a)]
              [] "B" nb_mod_b [] nm Blast H1 H2 H4 H9)
    as [_ H].
  destruct (H H6) as (_ & H8 & _).
  destruct (H8 H7) as (_ & E & _).
  etransitivity; [exact E|]. vm_compute. reflexivity.
Defined.

End MergeMoreFacts.

(** * The deep merge of a container *)

Module DeepMergeFacts.

Import ParadoxRules StructuralMerger DeepMergeDefs.

Lemma replace_whole_child_kept base_name child_name idx base_child mods st :
  forallb (keeps_child base_child child_name idx) mods = true ->
  replace_whole_child base_name child_name idx base_child mods st = st.
Proof.
  induction mods as [|[n b] mods IH]; intro H; cbn [replace_whole_child]; trivial.
  cbn [forallb] in H. apply andb_true_iff in H as [H1 H2].
  unfold keeps_child in H1. cbn [snd] in H1.
  destruct (mod_child_at b child_name idx); [|now apply IH].
  apply negb_true_iff in H1. rewrite H1. now apply IH.
Qed.

Lemma forallb_rev {A} (f : A -> bool) l : forallb f (rev l) = forallb f l.
Proof.
  induction l as [|x l IH]; trivial.
  cbn [rev forallb]. rewrite forallb_app, IH. cbn [forallb].
  rewrite andb_true_r. apply andb_comm.
Qed.

(** X13.  In the REPLACE_WHOLE branch of the deep merge the last mod
    whose child at that index differs from the base child wins: its child's
    full text replaces the first occurrence of the base child's full text,
    and one [replaced_block] change is recorded for it; the mods before it
    are not looked at.  When no mod has a differing child there, the text
    and the changes stay as they are. *)
Theorem nested_block_is_replaced_by_last_differing_mod
    (base_name child_name : str) (idx : nat) (base_child : ParsedBlock)
    (earlier later : list (str * ParsedBlock)) (mod_name_ : str)
    (mod_block mod_child : ParsedBlock) (st : State) :
  mod_child_at mod_block child_name idx = Some mod_child ->
  _blocks_differ base_child mod_child = true ->
  forallb (keeps_child base_child child_name idx) later = true ->
  replace_whole_child base_name child_name idx base_child
    (rev (earlier ++ (mod_name_, mod_block) :: later)) st
  = (Py.replace1 (fst st) (full_text base_child) (full_text mod_child),
     snd st ++ [mkMergeChange (child_path base_name child_name idx) "replaced_block"
                  mod_name_ (Text child_name)])
  /\ replace_whole_child base_name child_name idx base_child (rev later) st = st.
Proof.
  intros Hc Hd Hl.
  assert (K : forall rest,
             replace_whole_child base_name child_name idx base_child (rev later ++ rest) st
             = replace_whole_child base_name child_name idx base_child rest st).
  { intro rest. rewrite <- (forallb_rev _ later) in Hl.
    induction (rev later) as [|[n b] l IH]; trivial.
    cbn [forallb] in Hl. apply andb_true_iff in Hl as [H1 H2].
    cbn [app replace_whole_child]. unfold keeps_child in H1. cbn [snd] in H1.
    destruct (mod_child_at b child_name idx); [|now apply IH].
    apply negb_true_iff in H1. rewrite H1. now apply IH. }
  split.
  - rewrite rev_app_distr. cbn [rev]. rewrite <- app_assoc, K.
    cbn [app replace_whole_child]. now rewrite Hc, Hd.
  - rewrite <- (app_nil_r (rev later)), K. reflexivity.
Qed.

Lemma nested_block_is_replaced_by_last_differing_mod_witness :
  let base_child := leaf "effect" "effect = { a = 1 }" "a = 1" in
  let child_a := leaf "effect" "effect = { a = 2 }" "a = 2" in
  let child_b := leaf "effect" "effect = { a = 3 }" "a = 3" in
  fst (replace_whole_child "on_x" "effect" 0 base_child
         (rev ([("A" : str, one_child "on_x" child_a)]
               ++ ("B" : str, one_child "on_x" child_b)
               :: [("C" : str, one_child "on_x" base_child)]))
         ("on_x = { effect = { a = 1 } }" : str, []))
  = ("on_x = { effect = { a = 3 } }" : str).
Proof.
  intros base_child child_a child_b.
  assert (H1 : mod_child_at (one_child "on_x" child_b) "effect" 0 = Some child_b)
    by reflexivity.
  assert (H2 : _blocks_differ base_child child_b = true) by (vm_compute; reflexivity).
  assert (H3 : forallb (keeps_child base_child "effect" 0)
                 [("C" : str, one_child "on_x" base_child)] = true)
    by (vm_compute; reflexivity).
  rewrite (proj1 (nested_block_is_replaced_by_last_differing_mod
                    "on_x" "effect" 0 base_child [("A" : str, one_child "on_x" child_a)]
                    [("C" : str, one_child "on_x" base_child)] "B"
                    (one_child "on_x" child_b) child_b
                    ("on_x = { effect = { a = 1 } }" : str, []) H1 H2 H3)).
  vm_compute. reflexivity.
Defined.

(** ** New children *)

Lemma fold_left_inv {A B} (P : A -> Prop) (f : A -> B -> A) (l : list B) : forall a,
  (forall a x, P a -> P (f a x)) -> P a -> P (fold_left f l a).
Proof.
  induction l as [|x l IH]; intros a Hf Ha; cbn [fold_left]; auto.
Qed.

Section NewChildren.

Variables (text0 : str) (chs0 : list MergeChange).

Local Abbreviation inv := (additions_inv text0 chs0).

Lemma inv_insert_child base_block child_name mod_name_ idx mod_child acc :
  inv acc ->
  inv (insert_child base_block child_name mod_name_ idx mod_child "added_child_block" acc).
Proof.
  intros (records & E & F & T). unfold insert_child.
  destruct acc as [[result_text chs] added]. cbn [fst snd] in *.
  destruct (0 <? Py.rfind result_text "}")%Z; [|exists records; auto].
  eexists (records ++ [_]). cbn [fst snd]. split; [now rewrite E, app_assoc|]. split.
  - apply Forall_app. split; trivial. constructor; [|constructor]. now left.
  - rewrite existsb_app. cbn [existsb is_added change_type].
    change (Py.str_eqb "added_child_block" "added_child_block") with true.
    rewrite orb_true_r. discriminate.
Qed.

Lemma inv_add_new_child base_block child_name mod_name_ base_count acc im :
  inv acc -> inv (add_new_child base_block child_name mod_name_ base_count acc im).
Proof.
  intro H. unfold add_new_child. destruct im as [idx mod_child].
  destruct (base_count <=? idx) eqn:L.
  - destruct (negb _); trivial.
    destruct (is_safe_to_add_child _ _); [now apply inv_insert_child|].
    destruct H as (records & E & F & T).
    eexists (records ++ [_]). cbn [fst snd]. split; [now rewrite E, app_assoc|]. split.
    + apply Forall_app. split; trivial. constructor; [|constructor]. now right.
    + rewrite existsb_app. cbn [existsb is_added change_type].
      change (Py.str_eqb "skipped_unsafe" "added_child_block") with false.
      rewrite !orb_false_r. exact T.
  - destruct (base_count =? 0) eqn:Z; trivial.
    apply Nat.eqb_eq in Z. apply Nat.leb_gt in L. lia.
Qed.

End NewChildren.

(** X14.  The addition of new children to a merged block appends to the
    changes only records of type [added_child_block] and [skipped_unsafe]:
    the type [added_new_child] is never recorded, because the branch that
    writes it asks for an index below a count that is zero.  The text
    changes only together with an [added_child_block] record. *)
Theorem new_children_are_recorded (base_block : ParsedBlock)
    (mod_blocks : list (str * ParsedBlock)) (st : State) :
  exists records,
    snd (add_new_children base_block mod_blocks st) = snd st ++ records
    /\ Forall addition_record records
    /\ Forall (fun c => change_type c <> ("added_new_child" : str)) records
    /\ (existsb is_added records = false ->
        fst (add_new_children base_block mod_blocks st) = fst st).
Proof.
  unfold add_new_children.
  assert (I : additions_inv (fst st) (snd st)
                (fold_left
                   (fun acc (m : str * ParsedBlock) =>
                      fold_left
                        (fun acc (kv : str * list ParsedBlock) =>
                           let base_count := length (get_all_children base_block (fst kv)) in
                           fold_left (add_new_child base_block (fst kv) (fst m) base_count)
                                     (enumerate (snd kv)) acc)
                        (children (snd m)) acc)
                   mod_blocks (st, []))).
  { apply fold_left_inv.
    - intros a m Ha. apply fold_left_inv; trivial.
      intros a' kv Ha'. cbv zeta. apply fold_left_inv; trivial.
      intros a'' im Ha''. now apply inv_add_new_child.
    - exists []. cbn [fst snd]. rewrite app_nil_r. auto. }
  destruct I as (records & E & F & T).
  exists records. split; [exact E|]. split; [exact F|]. split; [|exact T].
  eapply Forall_impl; [|exact F].
  intros c [H|H]; rewrite H; discriminate.
Qed.

End DeepMergeFacts.

(** * The text of a list *)

Module ListTextFacts.

Import ParadoxRules StructuralMerger OperatorDefs OperatorFacts RoundTripFacts
       ListTextDefs CommentFacts.

Lemma parse_list_items_eq (content : str) :
  _parse_list_items content
  = finish_items
      (fold_left list_items_step
         (Py.join " " (map strip_comment (Py.split content Py.NL))) (0%Z, [], [])).
Proof.
  unfold _parse_list_items, finish_items.
  destruct (fold_left _ _ _) as [[d c] i]. reflexivity.
Qed.

(** ** Characters *)

Lemma space_is_plain (c : ascii) :
  Py.isspace c = true ->
  Py.chr_eqb c "{" = false /\ Py.chr_eqb c "}" = false /\ Py.chr_eqb "=" c = false
  /\ Py.chr_eqb "#" c = false /\ Py.chr_eqb Py.NL c = Py.chr_eqb c Py.NL.
Proof.
  destruct c as [[] [] [] [] [] [] [] []]; intro H; vm_compute in H;
    try discriminate H; repeat split; reflexivity.
Qed.

Lemma ident_is_plain (c : ascii) :
  Re.ident c = true ->
  Py.chr_eqb c "{" = false /\ Py.chr_eqb c "}" = false /\ Py.chr_eqb "=" c = false
  /\ Py.chr_eqb "#" c = false /\ Py.chr_eqb Py.NL c = false
  /\ existsb (Py.chr_eqb c) [" "%char; Py.TAB; Py.NL] = false.
Proof.
  destruct c as [[] [] [] [] [] [] [] []]; intro H; vm_compute in H;
    try discriminate H; repeat split; reflexivity.
Qed.

Lemma name_ident (it : str) : is_name it = true -> forallb Re.ident it = true.
Proof.
  destruct it as [|c t]; [discriminate|]. cbn [is_name forallb]. intro H.
  apply andb_true_iff in H as [H1 H2]. now rewrite (word_ident c H1), H2.
Qed.

(** ** Stripping *)

Lemma lstrip_blank_app (ws s : str) : blank ws = true -> Py.lstrip (ws ++ s) = Py.lstrip s.
Proof.
  induction ws as [|c ws IH]; intro H; trivial.
  cbn [blank forallb] in H. apply andb_true_iff in H as [Hc H].
  cbn [app Py.lstrip]. rewrite Hc. now apply IH.
Qed.

Lemma strip_blank (s : str) : blank s = true -> Py.strip s = [].
Proof.
  intro H. unfold Py.strip. rewrite <- (app_nil_r s), lstrip_blank_app by trivial.
  reflexivity.
Qed.

Lemma strip_blank_name (ws it : str) :
  blank ws = true -> is_name it = true -> Py.strip (ws ++ it) = it.
Proof.
  intros Hw Hi. destruct (is_name_facts it Hi) as (S & _ & _).
  unfold Py.strip in *. rewrite lstrip_blank_app by trivial. exact S.
Qed.

Lemma blank_app (a b : str) : blank (a ++ b) = blank a && blank b.
Proof. apply forallb_app. Qed.

Lemma lstrip_split (s : str) :
  exists ws, s = ws ++ Py.lstrip s /\ blank ws = true
             /\ Py.prefix_minus s (Py.lstrip s) = ws.
Proof.
  induction s as [|c s (ws & E & B & P)].
  - exists []. repeat split.
  - cbn [Py.lstrip]. destruct (Py.isspace c) eqn:Hc.
    + exists (c :: ws). split; [cbn [app]; now f_equal|]. split.
      * cbn [blank forallb]. now rewrite Hc.
      * unfold Py.prefix_minus in *. cbn [length].
        assert (L : length s = length ws + length (Py.lstrip s))
          by (rewrite E at 1; apply length_app).
        replace (S (length s) - length (Py.lstrip s))
          with (S (length s - length (Py.lstrip s))) by lia.
        cbn [firstn]. now rewrite P.
    + exists []. repeat split. apply prefix_minus_self.
Qed.

Lemma strip_empty_blank (s : str) : Py.nonempty (Py.strip s) = false -> blank s = true.
Proof.
  intro H. destruct (lstrip_split s) as (ws & E & B & _).
  destruct (Py.lstrip s) as [|c t] eqn:L.
  - rewrite E, app_nil_r. exact B.
  - unfold Py.strip in H. rewrite L in H.
    destruct (Py.isspace c) eqn:Hc.
    + destruct s as [|x s]; [discriminate|]. cbn [Py.lstrip] in L.
      destruct (Py.isspace x) eqn:Hx.
      * exfalso. clear - L Hc. revert L. induction s as [|y s IH]; [discriminate|].
        cbn [Py.lstrip]. destruct (Py.isspace y) eqn:Hy; [exact IH|].
        intro E. injection E as -> _. congruence.
      * injection L as -> _. congruence.
    + rewrite rstrip_cons in H by trivial. discriminate.
Qed.

(** ** Substrings of one character *)

Lemma contains_none (s : str) (c : ascii) :
  forallb (fun x => negb (Py.chr_eqb c x)) s = true -> Py.contains s [c] = false.
Proof.
  induction s as [|x s IH]; intro H; [reflexivity|].
  cbn [forallb] in H. apply andb_true_iff in H as [Hx H].
  cbn [Py.contains Py.startswith]. apply negb_true_iff in Hx. rewrite Hx.
  cbn [andb orb]. now apply IH.
Qed.

Lemma no_char_not_In (s : str) (c : ascii) :
  forallb (fun x => negb (Py.chr_eqb c x)) s = true -> ~ In c s.
Proof.
  intros H I. rewrite forallb_forall in H. specialize (H c I).
  now rewrite chr_eqb_refl in H.
Qed.

Lemma blank_no (c : ascii) (s : str) :
  (forall x, Py.isspace x = true -> Py.chr_eqb c x = false) ->
  blank s = true -> forallb (fun x => negb (Py.chr_eqb c x)) s = true.
Proof.
  intros Hc H. apply (forallb_impl Py.isspace); trivial.
  intros x Hx. now rewrite Hc.
Qed.

Lemma ident_no (c : ascii) (s : str) :
  (forall x, Re.ident x = true -> Py.chr_eqb c x = false) ->
  forallb Re.ident s = true -> forallb (fun x => negb (Py.chr_eqb c x)) s = true.
Proof.
  intros Hc H. apply (forallb_impl Re.ident); trivial.
  intros x Hx. now rewrite Hc.
Qed.

Lemma entry_no (c : ascii) (ws it : str) :
  (forall x, Py.isspace x = true -> Py.chr_eqb c x = false) ->
  (forall x, Re.ident x = true -> Py.chr_eqb c x = false) ->
  blank ws = true -> is_name it = true ->
  forallb (fun x => negb (Py.chr_eqb c x)) (ws ++ it) = true.
Proof.
  intros H1 H2 Hw Hi. rewrite forallb_app, (blank_no c ws H1 Hw).
  now rewrite (ident_no c it H2 (name_ident it Hi)).
Qed.

Lemma strip_comment_plain (s : str) :
  forallb (fun x => negb (Py.chr_eqb "#" x)) s = true -> strip_comment s = s.
Proof.
  intro H. unfold strip_comment.
  change ("#" : str) with ["#"%char]. now rewrite contains_none.
Qed.

Lemma strip_comment_blank (s : str) : blank s = true -> strip_comment s = s.
Proof.
  intro H. apply strip_comment_plain. apply blank_no; trivial.
  intros x Hx. now destruct (space_is_plain x Hx) as (_ & _ & _ & -> & _).
Qed.

Lemma strip_comment_entry (ws it : str) :
  blank ws = true -> is_name it = true -> strip_comment (ws ++ it) = ws ++ it.
Proof.
  intros Hw Hi. apply strip_comment_plain. apply entry_no; trivial.
  - intros x Hx. now destruct (space_is_plain x Hx) as (_ & _ & _ & -> & _).
  - intros x Hx. now destruct (ident_is_plain x Hx) as (_ & _ & _ & -> & _).
Qed.

(** ** The scan of the cleaned text *)

Lemma step_blank (c : ascii) (cur : str) (items : list str) :
  Py.isspace c = true -> blank cur = true ->
  exists cur', blank cur' = true
               /\ list_items_step (0%Z, cur, items) c = (0%Z, cur', items).
Proof.
  intros Hc Hcur. unfold list_items_step.
  destruct (space_is_plain c Hc) as (-> & -> & _).
  destruct (existsb _ _ && _).
  - rewrite strip_blank by trivial. cbn [Py.nonempty]. eauto.
  - exists (cur ++ [c]). split; trivial.
    rewrite blank_app, Hcur. cbn [blank forallb]. now rewrite Hc.
Qed.

Lemma scan_blank (pad : str) : forall cur items,
  blank pad = true -> blank cur = true ->
  exists cur', blank cur' = true
               /\ fold_left list_items_step pad (0%Z, cur, items) = (0%Z, cur', items).
Proof.
  induction pad as [|c pad IH]; intros cur items Hp Hcur; [eauto|].
  cbn [blank forallb] in Hp. apply andb_true_iff in Hp as [Hc Hp].
  destruct (step_blank c cur items Hc Hcur) as (cur1 & B1 & E1).
  cbn [fold_left]. rewrite E1. now apply IH.
Qed.

Lemma scan_ident (it : str) : forall cur items,
  forallb Re.ident it = true ->
  fold_left list_items_step it (0%Z, cur, items) = (0%Z, cur ++ it, items).
Proof.
  induction it as [|c it IH]; intros cur items H.
  - now rewrite app_nil_r.
  - cbn [forallb] in H. apply andb_true_iff in H as [Hc H].
    cbn [fold_left]. unfold list_items_step at 2.
    destruct (ident_is_plain c Hc) as (-> & -> & _ & _ & _ & ->). cbn [andb].
    rewrite IH by trivial. now rewrite <- app_assoc.
Qed.

Lemma step_after_name (ws it : str) (items : list str) :
  blank ws = true -> is_name it = true ->
  list_items_step (0%Z, ws ++ it, items) " "%char = (0%Z, [], items ++ [it]).
Proof.
  intros Hw Hi. unfold list_items_step.
  change (Py.chr_eqb " " "{") with false. change (Py.chr_eqb " " "}") with false.
  change (existsb (Py.chr_eqb " ") [" "%char; Py.TAB; Py.NL] && (0 =? 0)%Z) with true.
  cbv iota. rewrite strip_blank_name by trivial.
  destruct it as [|c t]; [discriminate|]. cbn [Py.nonempty].
  change ("=" : str) with ["="%char]. rewrite contains_none; [reflexivity|].
  apply entry_no; trivial.
  - intros x Hx. now destruct (space_is_plain x Hx) as (_ & _ & -> & _).
  - intros x Hx. now destruct (ident_is_plain x Hx) as (_ & _ & -> & _).
Qed.

Lemma scan_entries (es : list (str * option str)) : forall cur items,
  blank cur = true -> forallb entry_ok es = true ->
  exists cur',
    blank cur' = true
    /\ fold_left list_items_step (concat (map (fun e => entry_text e ++ [" "%char]) es))
         (0%Z, cur, items)
       = (0%Z, cur', items ++ entry_items es).
Proof.
  induction es as [|[pad o] es IH]; intros cur items Hcur Hes.
  - exists cur. cbn. now rewrite app_nil_r.
  - cbn [forallb] in Hes. apply andb_true_iff in Hes as [He Hes].
    unfold entry_ok in He. cbn [fst snd] in He. apply andb_true_iff in He as [Hp Ho].
    cbn [map concat]. rewrite fold_left_app.
    destruct (scan_blank pad cur items Hp Hcur) as (cur1 & B1 & E1).
    destruct o as [it|].
    + change (entry_text (pad, Some it)) with (pad ++ it).
      rewrite <- app_assoc, fold_left_app, E1, fold_left_app.
      rewrite scan_ident by now apply name_ident.
      cbn [fold_left]. rewrite step_after_name by trivial.
      destruct (IH [] (items ++ [it]) eq_refl Hes) as (cur2 & B2 & E2).
      exists cur2. split; trivial. etransitivity; [exact E2|].
      unfold entry_items. cbn [flat_map snd]. now rewrite <- app_assoc.
    + change (entry_text (pad, None)) with pad.
      rewrite fold_left_app, E1. cbn [fold_left].
      destruct (step_blank " "%char cur1 items eq_refl B1) as (cur2 & B2 & E2).
      rewrite E2. destruct (IH cur2 items B2 Hes) as (cur3 & B3 & E3).
      exists cur3. split; trivial.
Qed.

Lemma name_matches (it : str) : is_name it = true -> re_matches RE_SIMPLE_IDENT it = true.
Proof.
  destruct it as [|c t]; [discriminate|]. cbn [is_name]. intro H.
  apply andb_true_iff in H as [Hc Ht].
  unfold re_matches, RE_SIMPLE_IDENT. rewrite rmatch_one, Hc, rmatch_star.
  rewrite <- (app_nil_r t) at 1.
  erewrite push_some; [reflexivity|].
  apply greedy_all; trivial. cbn [app]. reflexivity.
Qed.

Lemma finish_blank (cur : str) (items : list str) (d : Z) :
  blank cur = true -> forallb is_name items = true ->
  finish_items (d, cur, items) = items.
Proof.
  intros Hc Hi. unfold finish_items. rewrite strip_blank by trivial.
  cbn [Py.nonempty andb].
  induction items as [|it items IH]; trivial.
  cbn [forallb] in Hi. apply andb_true_iff in Hi as [H1 H2].
  cbn [filter]. rewrite name_matches by trivial. f_equal. now apply IH.
Qed.

(** A cleaned text made of entries, each followed by a blank, and of white
    space at the end, holds the items of the entries. *)
Lemma scan_text (es : list (str * option str)) (last_ : str) :
  forallb entry_ok es = true -> blank last_ = true ->
  forallb is_name (entry_items es) = true ->
  finish_items
    (fold_left list_items_step
       (concat (map (fun e => entry_text e ++ [" "%char]) es) ++ last_) (0%Z, [], []))
  = entry_items es.
Proof.
  intros Hes Hl Hi. rewrite fold_left_app.
  destruct (scan_entries es [] [] eq_refl Hes) as (cur1 & B1 & E1).
  etransitivity;
    [apply (f_equal (fun st => finish_items (fold_left list_items_step last_ st)));
     exact E1|].
  destruct (scan_blank last_ cur1 ([] ++ entry_items es) Hl B1) as (cur2 & B2 & E2).
  etransitivity; [apply (f_equal finish_items); exact E2|].
  cbn [app]. now apply finish_blank.
Qed.

(** ** Lines *)

Lemma split_line (s : str) : ~ In Py.NL s -> Py.split s Py.NL = [s].
Proof.
  induction s as [|c s IH]; intro H; [reflexivity|].
  cbn [Py.split].
  destruct (Py.chr_eqb c Py.NL) eqn:E.
  - apply chr_eqb_eq in E. subst. elim H. now left.
  - rewrite IH; [reflexivity|]. intro I. apply H. now right.
Qed.

Lemma join_cons (sep a : str) (l : list str) :
  l <> [] -> Py.join sep (a :: l) = a ++ sep ++ Py.join sep l.
Proof. destruct l; [contradiction|reflexivity]. Qed.

Lemma split_join_lines (ls : list str) :
  ls <> [] -> Forall (fun l => ~ In Py.NL l) ls ->
  Py.split (Py.join [Py.NL] ls) Py.NL = ls.
Proof.
  induction ls as [|a ls IH]; intros Hne H; [contradiction|].
  inversion H as [|? ? Ha Hls]; subst.
  destruct ls as [|b ls].
  - cbn [Py.join]. now apply split_line.
  - rewrite join_cons by discriminate. cbn [app].
    rewrite BraceFacts.split_app_nl, split_line by trivial.
    rewrite IH; [reflexivity|discriminate|trivial].
Qed.

Lemma join_snoc_concat (sep : str) (l : list str) (x : str) :
  Py.join sep (l ++ [x]) = concat (map (fun t => t ++ sep) l) ++ x.
Proof.
  induction l as [|a l IH]; [reflexivity|].
  cbn [app map concat]. rewrite join_cons by now destruct l.
  rewrite IH. now rewrite <- !app_assoc.
Qed.

Lemma join_sep_concat (sep : str) (l : list str) :
  l <> [] -> Py.join sep l ++ sep = concat (map (fun t => t ++ sep) l).
Proof.
  induction l as [|a l IH]; intro H; [contradiction|].
  destruct l as [|b l].
  - cbn. now rewrite app_nil_r.
  - rewrite join_cons by discriminate.
    change (concat (map (fun t => t ++ sep) (a :: b :: l)))
      with ((a ++ sep) ++ concat (map (fun t => t ++ sep) (b :: l))).
    rewrite <- IH by discriminate. now rewrite <- !app_assoc.
Qed.

Lemma blank_no_nl_entry (ws it : str) :
  ~ In Py.NL ws -> is_name it = true -> ~ In Py.NL (ws ++ it).
Proof.
  intros Hw Hi I. apply in_app_iff in I as [I|I]; [contradiction|].
  pose proof (name_ident it Hi) as H. rewrite forallb_forall in H.
  destruct (ident_is_plain _ (H _ I)) as (_ & _ & _ & _ & N & _).
  now rewrite chr_eqb_refl in N.
Qed.

(** ** The two layouts that [_update_list_in_text] writes *)

Lemma word_or_blank_plain (c : ascii) :
  Py.chr_eqb c " " || Re.ident c = true ->
  Py.chr_eqb Py.NL c = false /\ Py.chr_eqb "#" c = false.
Proof.
  destruct c as [[] [] [] [] [] [] [] []]; intro H; vm_compute in H;
    try discriminate H; split; reflexivity.
Qed.

Lemma join_names_plain (items : list str) :
  forallb is_name items = true ->
  forallb (fun c => Py.chr_eqb c " " || Re.ident c) (Py.join [" "%char] items) = true.
Proof.
  induction items as [|a items IH]; intro H; [reflexivity|].
  cbn [forallb] in H. apply andb_true_iff in H as [Ha H].
  assert (A : forallb (fun c => Py.chr_eqb c " " || Re.ident c) a = true).
  { apply (forallb_impl Re.ident); [|now apply name_ident].
    intros x ->. apply orb_true_r. }
  destruct items as [|b items]; [exact A|].
  rewrite join_cons by discriminate. rewrite !forallb_app, A, IH by trivial.
  reflexivity.
Qed.

Lemma entry_items_names (ws : str) (items : list str) :
  entry_items (map (fun it => (ws, Some it)) items) = items.
Proof. induction items as [|a l IH]; trivial. cbn. f_equal. exact IH. Qed.

Lemma entry_items_blanks (pads : list str) :
  entry_items (map (fun p => (p, @None str)) pads) = [].
Proof. induction pads as [|a l IH]; trivial. Qed.

Lemma entry_items_app (a b : list (str * option str)) :
  entry_items (a ++ b) = entry_items a ++ entry_items b.
Proof. unfold entry_items. apply flat_map_app. Qed.

Lemma entries_ok_names (ws : str) (items : list str) :
  blank ws = true -> forallb is_name items = true ->
  forallb entry_ok (map (fun it => (ws, Some it)) items) = true.
Proof.
  intros Hw H. induction items as [|a l IH]; trivial.
  cbn [forallb] in H. apply andb_true_iff in H as [Ha H].
  cbn [map forallb]. unfold entry_ok at 1. cbn [fst snd]. now rewrite Hw, Ha, IH.
Qed.

Lemma entries_ok_blanks (pads : list str) :
  forallb blank pads = true ->
  forallb entry_ok (map (fun p => (p, @None str)) pads) = true.
Proof.
  intros H. induction pads as [|a l IH]; trivial.
  cbn [forallb] in H. apply andb_true_iff in H as [Ha H].
  cbn [map forallb]. unfold entry_ok at 1. cbn [fst snd]. now rewrite Ha, IH.
Qed.

Lemma inline_layout (items : list str) :
  forallb is_name items = true ->
  _parse_list_items ([" "%char] ++ Py.join [" "%char] items ++ [" "%char]) = items.
Proof.
  intro H. destruct items as [|a l]; [reflexivity|]. set (items := a :: l) in *.
  rewrite parse_list_items_eq.
  set (t := [" "%char] ++ Py.join [" "%char] items ++ [" "%char]).
  assert (P : forallb (fun c => Py.chr_eqb c " " || Re.ident c) t = true).
  { unfold t. rewrite !forallb_app, join_names_plain by trivial. reflexivity. }
  assert (N : ~ In Py.NL t).
  { apply no_char_not_In. apply (forallb_impl _ _ _ (fun x Hx =>
      f_equal negb (proj1 (word_or_blank_plain x Hx))) P). }
  assert (C : strip_comment t = t).
  { apply strip_comment_plain. apply (forallb_impl _ _ _ (fun x Hx =>
      f_equal negb (proj2 (word_or_blank_plain x Hx))) P). }
  rewrite split_line by trivial. cbn [map Py.join]. rewrite C.
  assert (E : t = concat (map (fun e => entry_text e ++ [" "%char])
                              (([], None) :: map (fun it => ([], Some it)) items)) ++ []).
  { rewrite app_nil_r. cbn [map concat]. unfold t.
    change (entry_text ([], None) ++ [" "%char]) with [" "%char]. f_equal.
    rewrite join_sep_concat by discriminate. rewrite map_map. reflexivity. }
  rewrite E, scan_text.
  - change (entry_items (([], None) :: ?l)) with (entry_items l).
    unfold entry_items at 1. cbn [flat_map snd app]. apply entry_items_names.
  - cbn [forallb]. rewrite entries_ok_names; trivial.
  - reflexivity.
  - unfold entry_items at 1. cbn [flat_map snd app].
    fold (entry_items (map (fun it : str => (([] : str), Some it)) items)).
    now rewrite entry_items_names.
Qed.

Lemma lstrip_nonspace (s : str) c t : Py.lstrip s = c :: t -> Py.isspace c = false.
Proof.
  induction s as [|x s IH]; [discriminate|]. cbn [Py.lstrip].
  destruct (Py.isspace x) eqn:E; [exact IH|]. intro H. injection H as <- _. exact E.
Qed.

Lemma lstrip_keep (x y : str) c :
  Py.isspace c = false -> Py.lstrip (x ++ c :: y) = Py.lstrip (x ++ [c]) ++ y.
Proof.
  intro H. induction x as [|a x IH]; cbn [app Py.lstrip].
  - now rewrite H.
  - destruct (Py.isspace a); trivial.
    cbn [app]. now rewrite <- app_assoc.
Qed.

Lemma rstrip_keep (a t : str) c :
  Py.isspace c = false -> Py.rstrip (a ++ c :: t) = a ++ Py.rstrip (c :: t).
Proof.
  intro H. unfold Py.rstrip. rewrite rev_app_distr. cbn [rev].
  rewrite <- app_assoc. cbn [app]. rewrite lstrip_keep by trivial.
  rewrite rev_app_distr, rev_involutive. reflexivity.
Qed.

Lemma find_comment_after_blank (ws r : str) : forall i prev,
  blank ws = true ->
  find_comment_from (ws ++ "#"%char :: r) i prev false = (i + Z.of_nat (length ws))%Z.
Proof.
  induction ws as [|c ws IH]; intros i prev H.
  - cbn [app find_comment_from length]. change (Py.chr_eqb "#" Py.QUOTE) with false.
    cbn [andb]. rewrite chr_eqb_refl. cbn. lia.
  - cbn [blank forallb] in H. apply andb_true_iff in H as [Hc H].
    cbn [app find_comment_from].
    assert (Q : Py.chr_eqb c Py.QUOTE = false /\ Py.chr_eqb c "#" = false).
    { clear - Hc. destruct c as [[] [] [] [] [] [] [] []]; vm_compute in Hc;
        try discriminate Hc; split; reflexivity. }
    destruct Q as [-> ->]. cbn [andb]. rewrite IH by trivial. cbn [length]. lia.
Qed.

(** A comment line of the old list leaves only white space once its comment
    is cut. *)
Lemma comment_line_blank (line : str) :
  Py.startswith (Py.strip line) "#" = true ->
  blank (strip_comment (Py.rstrip line)) = true.
Proof.
  intro H. destruct (lstrip_split line) as (ws & E & B & _).
  unfold Py.strip in H.
  destruct (Py.lstrip line) as [|c t] eqn:L; [discriminate|].
  pose proof (lstrip_nonspace _ _ _ L) as Hc.
  rewrite rstrip_cons in H by trivial.
  cbn [Py.startswith String.list_ascii_of_string] in H.
  apply andb_true_iff in H as [H _]. apply chr_eqb_eq in H. subst c.
  rewrite E, rstrip_keep, rstrip_cons by trivial.
  rewrite strip_comment_cut. unfold find_comment.
  rewrite find_comment_after_blank by trivial.
  replace (0 <=? 0 + Z.of_nat (length ws))%Z with true by (symmetry; apply Z.leb_le; lia).
  unfold Py.upto. replace (Z.to_nat (0 + Z.of_nat (length ws))) with (length ws + 0) by lia.
  rewrite firstn_app_2. cbn [firstn]. now rewrite app_nil_r.
Qed.

Lemma In_lstrip (s : str) x : In x (Py.lstrip s) -> In x s.
Proof.
  induction s as [|c s IH]; trivial. cbn [Py.lstrip].
  destruct (Py.isspace c); [|trivial]. intro H. right. now apply IH.
Qed.

Lemma In_rstrip (s : str) x : In x (Py.rstrip s) -> In x s.
Proof.
  unfold Py.rstrip. intro H. apply in_rev in H. apply In_lstrip in H.
  now apply in_rev in H.
Qed.

Lemma In_firstn {A} n (l : list A) x : In x (firstn n l) -> In x l.
Proof.
  intro H. rewrite <- (firstn_skipn n l). apply in_app_iff. now left.
Qed.

Lemma first_item_indent_blank (lines : list str) :
  Forall (fun l => ~ In Py.NL l) lines ->
  blank (first_item_indent lines) = true /\ ~ In Py.NL (first_item_indent lines).
Proof.
  induction 1 as [|line lines Hl _ IH]; cbn [first_item_indent].
  - split; [reflexivity|]. intros [H|[H|[]]]; discriminate.
  - destruct (_ && _); trivial.
    destruct (lstrip_split line) as (ws & E & B & P). rewrite P. split; trivial.
    intro I. apply Hl. rewrite E. apply in_app_iff. now left.
Qed.

Lemma last_In_or_default {A} (l : list A) d : l <> [] -> In (last l d) l.
Proof.
  induction l as [|a l IH]; intro H; [contradiction|].
  destruct l as [|b l]; [now left|]. right. apply IH. discriminate.
Qed.

Lemma multiline_layout (inner : str) (items : list str) :
  forallb is_name items = true ->
  let lines := Py.split inner Py.NL in
  let indent_ := first_item_indent lines in
  let new_lines :=
    map (fun item => indent_ ++ item) items
    ++ map Py.rstrip (filter (fun line => Py.startswith (Py.strip line) "#") lines) in
  let last_ := last lines [] in
  let close_indent := if negb (Py.nonempty (Py.strip last_)) then last_ else [Py.TAB] in
  _parse_list_items ([Py.NL] ++ Py.join [Py.NL] new_lines ++ [Py.NL] ++ close_indent)
  = items.
Proof.
  intros H lines indent_ new_lines last_ close_indent.
  assert (LN : Forall (fun l => ~ In Py.NL l) lines).
  { apply Forall_forall. intros l Hl. now apply (split_no_sep inner). }
  destruct (first_item_indent_blank lines LN) as [IB IN]. fold indent_ in IB, IN.
  set (comments := filter (fun line => Py.startswith (Py.strip line) "#") lines) in *.
  assert (CB : forallb blank (map (fun c => strip_comment (Py.rstrip c)) comments) = true).
  { apply forallb_forall. intros p Hp. apply in_map_iff in Hp as (c & <- & Hc).
    apply filter_In in Hc as [_ Hc]. now apply comment_line_blank. }
  assert (CN : Forall (fun l => ~ In Py.NL l) (map Py.rstrip comments)).
  { apply Forall_forall. intros p Hp. apply in_map_iff in Hp as (c & <- & Hc).
    apply filter_In in Hc as [Hc _]. rewrite Forall_forall in LN.
    intro I. apply (LN c Hc). now apply In_rstrip. }
  assert (KB : blank close_indent = true /\ ~ In Py.NL close_indent).
  { unfold close_indent. destruct (Py.nonempty (Py.strip last_)) eqn:E; cbn [negb].
    - split; [reflexivity|]. intros [I|[]]; discriminate.
    - split; [now apply strip_empty_blank|].
      rewrite Forall_forall in LN. apply LN. apply last_In_or_default.
      apply BraceFacts.split_nonempty. }
  destruct KB as [KB KN].
  assert (NN : Forall (fun l => ~ In Py.NL l) new_lines).
  { apply Forall_app. split; trivial.
    apply Forall_forall. intros p Hp. apply in_map_iff in Hp as (it & <- & Hit).
    apply blank_no_nl_entry; trivial.
    rewrite forallb_forall in H. now apply H. }
  rewrite parse_list_items_eq.
  cbn [app]. cbn [Py.split]. rewrite chr_eqb_refl, BraceFacts.split_app_nl.
  rewrite (split_line close_indent) by trivial.
  cbn [map]. rewrite map_app. cbn [map].
  rewrite (strip_comment_blank close_indent) by trivial.
  change (strip_comment []) with ([] : str).
  set (es := map (fun it => (indent_, Some it)) items
             ++ map (fun p => (p, @None str))
                    (map (fun c => strip_comment (Py.rstrip c)) comments)).
  assert (OK : forallb entry_ok es = true).
  { unfold es. rewrite forallb_app, entries_ok_names, entries_ok_blanks; trivial. }
  assert (IT : entry_items es = items).
  { unfold es. rewrite entry_items_app, entry_items_names, entry_items_blanks.
    apply app_nil_r. }
  destruct new_lines as [|l0 ls] eqn:NL0.
  - (* nothing to write: two empty lines and the closing indent *)
    apply app_eq_nil in NL0 as [N1 N2].
    destruct items; [|discriminate]. cbn [Py.join Py.split map app].
    change (strip_comment []) with ([] : str).
    exact (scan_text [(([] : str), @None str); ([], None)] close_indent
             eq_refl KB eq_refl).
  - rewrite <- NL0 in *. rewrite split_join_lines; [|rewrite NL0; discriminate|trivial].
    assert (M : map strip_comment new_lines = map entry_text es).
    { unfold new_lines, es. rewrite !map_app, !map_map. f_equal.
      apply map_ext_in. intros it Hit. cbn [entry_text fst snd].
      apply strip_comment_entry; trivial.
      rewrite forallb_forall in H. now apply H. }
    rewrite M.
    change ([] :: map entry_text es ++ [close_indent])
      with (map entry_text ((([] : str), @None str) :: es) ++ [close_indent]).
    change (" " : str) with [" "%char].
    rewrite join_snoc_concat, map_map.
    assert (IT' : entry_items ((([] : str), @None str) :: es) = items) by exact IT.
    etransitivity; [apply scan_text; trivial|exact IT'].
    now rewrite IT'.
Qed.

(** X15.  The text that [_update_list_in_text] writes between the braces
    of a list reads back as the list: for items that are identifiers,
    [_parse_list_items] returns exactly the items written, in order, for
    the one-line layout and for the multi-line layout (whatever the
    indentation and the comment lines that the old text had). *)
Theorem rewritten_list_reads_back (inner : str) (items : list str) :
  forallb is_name items = true ->
  _parse_list_items (new_list_inner inner items) = items.
Proof.
  intro H. unfold new_list_inner.
  destruct (Py.contains inner [Py.NL]).
  - now apply multiline_layout.
  - now apply inline_layout.
Qed.

Lemma rewritten_list_reads_back_witness :
  forallb is_name ["vanilla_init" : str; "mod.0001" : str] = true
  /\ _parse_list_items
       (new_list_inner ([Py.NL] ++ "  old_item # note" ++ [Py.NL] ++ " ")
          ["vanilla_init" : str; "mod.0001" : str])
     = ["vanilla_init" : str; "mod.0001" : str].
Proof.
  split; [reflexivity|].
  apply (rewritten_list_reads_back _ ["vanilla_init" : str; "mod.0001" : str]).
  reflexivity.
Defined.

(** ** The place that [_update_list_in_text] rewrites *)

Lemma rmatch_lit_fails (name_ : str) (P : list Re.atom) : forall s,
  Py.startswith s name_ = false -> Re.rmatch (lit name_ ++ P) s = None.
Proof.
  induction name_ as [|x n IH]; intros s H.
  - now destruct s.
  - destruct s as [|c s]; [reflexivity|].
    change (lit (x :: n) ++ P) with (Re.One (Re.chr x) :: lit n ++ P).
    rewrite rmatch_one. unfold Re.chr at 1.
    cbn [Py.startswith] in H. unfold Py.chr_eqb in *. rewrite Ascii.eqb_sym.
    destruct (Ascii.eqb x c); [|reflexivity]. cbn [andb] in H.
    now rewrite IH.
Qed.

Lemma rmatch_lit_matches (name_ : str) (P : list Re.atom) (s : str) ms rest :
  Re.rmatch P s = Some (ms, rest) ->
  Re.rmatch (lit name_ ++ P) (name_ ++ s) = Some (map (fun c => [c]) name_ ++ ms, rest).
Proof.
  intro H. induction name_ as [|x n IH]; [exact H|].
  change (lit (x :: n) ++ P) with (Re.One (Re.chr x) :: lit n ++ P).
  change ((x :: n) ++ s) with (x :: n ++ s).
  rewrite rmatch_one. unfold Re.chr at 1. rewrite chr_eqb_refl.
  rewrite IH. reflexivity.
Qed.

Lemma find_from_first (b r name_ : str) : forall i,
  (0 <= i)%Z ->
  Py.find_from (b ++ r) name_ i = (i + Z.of_nat (length b))%Z ->
  forall b1 c b2, b = b1 ++ c :: b2 -> Py.startswith (c :: b2 ++ r) name_ = false.
Proof.
  induction b as [|x b IH]; intros i Hi H b1 c b2 E.
  - now destruct b1.
  - cbn [app Py.find_from] in H.
    destruct (Py.startswith (x :: b ++ r) name_) eqn:S; [cbn [length] in H; lia|].
    destruct b1 as [|y b1]; cbn [app] in E; injection E as -> ->; [exact S|].
    apply (IH (i + 1)%Z) with (b1 := b1); trivial; [lia|].
    rewrite H. cbn [length]. lia.
Qed.

Lemma find_from_range (s p : str) : forall i,
  Py.find_from s p i = (-1)%Z \/ (i <= Py.find_from s p i)%Z.
Proof.
  induction s as [|c s IH]; intro i; cbn [Py.find_from].
  - destruct (Py.startswith [] p); [right; lia|now left].
  - destruct (Py.startswith (c :: s) p); [right; lia|].
    destruct (IH (i + 1)%Z); [now left|right; lia].
Qed.

Lemma search_from_skips (P : list Re.atom) (b : str) : forall pre s,
  (forall b1 c b2, b = b1 ++ c :: b2 -> Re.rmatch P (c :: b2 ++ s) = None) ->
  Re.search_from P pre (b ++ s) = Re.search_from P (pre ++ b) s.
Proof.
  induction b as [|x b IH]; intros pre s H.
  - now rewrite app_nil_r.
  - cbn [app]. 
    assert (E : Re.search_from P pre (x :: b ++ s) = Re.search_from P (pre ++ [x]) (b ++ s)).
    { cbn [Re.search_from]. now rewrite (H [] x b eq_refl). }
    rewrite E, IH.
    + now rewrite <- app_assoc.
    + intros b1 c b2 Eb. apply (H (x :: b1) c b2). now rewrite Eb.
Qed.

Lemma search_from_here (P : list Re.atom) (pre s : str) ms rest :
  Re.rmatch P s = Some (ms, rest) -> Re.search_from P pre s = Some (pre, ms, rest).
Proof. intro H. destruct s; cbn [Re.search_from]; now rewrite H. Qed.

Lemma search_from_absent (name_ : str) (P : list Re.atom) : forall s pre,
  Py.contains s name_ = false -> Re.search_from (lit name_ ++ P) pre s = None.
Proof.
  induction s as [|c s IH]; intros pre H; cbn [Py.contains] in H;
    apply orb_false_iff in H as [H1 H2]; cbn [Re.search_from];
    rewrite rmatch_lit_fails by trivial; [reflexivity|now apply IH].
Qed.

Lemma close_scan_flat (inner tail : str) : forall acc,
  BraceDefs.brace_free inner = true ->
  close_scan (inner ++ "}"%char :: tail) 1%Z acc = Some (acc ++ inner, tail).
Proof.
  induction inner as [|c inner IH]; intros acc H.
  - cbn. now rewrite app_nil_r.
  - cbn [BraceDefs.brace_free forallb] in H. apply andb_true_iff in H as [Hc H].
    unfold BraceDefs.is_brace in Hc. apply negb_true_iff, orb_false_iff in Hc as [H1 H2].
    cbn [app close_scan]. rewrite H1, H2, IH by trivial. now rewrite <- app_assoc.
Qed.

Lemma assignment_matches (ws1 ws2 rest : str) :
  blank ws1 = true -> blank ws2 = true ->
  Re.rmatch [Re.Star Re.space; Re.One (Re.chr "="); Re.Star Re.space; Re.One (Re.chr "{")]
    (ws1 ++ "="%char :: ws2 ++ "{"%char :: rest)
  = Some ([ws1; ["="%char]; ws2; ["{"%char]], rest).
Proof.
  intros H1 H2. rewrite rmatch_star. apply greedy_all; [exact H1|reflexivity|].
  cbn [app]. apply push_some. rewrite rmatch_one. change (Re.chr "=" "=") with true.
  cbv iota. apply push_some. rewrite rmatch_star. apply greedy_all; [exact H2|reflexivity|].
  cbn [app]. apply push_some. rewrite rmatch_one. reflexivity.
Qed.

(** X16.  [_update_list_in_text] rewrites one place and keeps the rest.
    When the first occurrence of the list name in the text is followed by
    an equals sign and a brace pair without braces inside, the result is
    the text before the name, the name, [ = {], the new inner text, the
    closing brace and the text after it, unchanged; the old items and the
    old block text passed to the function play no part.  When the name does
    not occur in the text, the text is returned as it is. *)
Theorem list_text_is_rewritten_in_place
    (before name_ ws1 ws2 inner tail : str) (old_items new_items : list str)
    (old_block_text : str) :
  let rest := ws1 ++ "="%char :: ws2 ++ "{"%char :: inner ++ "}"%char :: tail in
  blank ws1 = true -> blank ws2 = true ->
  BraceDefs.brace_free inner = true ->
  Py.find (before ++ name_ ++ rest) name_ = Z.of_nat (length before) ->
  _update_list_in_text (before ++ name_ ++ rest) name_ old_items new_items old_block_text
  = before ++ name_ ++ " = {" ++ new_list_inner inner new_items ++ "}" ++ tail.
Proof.
  intros rest H1 H2 Hi Hf. unfold _update_list_in_text, Re.search.
  rewrite search_from_skips.
  - erewrite search_from_here
      by (apply rmatch_lit_matches; apply assignment_matches; trivial).
    rewrite close_scan_flat by trivial. cbn [app].
    now rewrite <- !app_assoc.
  - intros b1 c b2 E. apply rmatch_lit_fails.
    apply (find_from_first before (name_ ++ rest) name_ 0%Z) with (b1 := b1); trivial.
    lia.
Qed.

Lemma list_text_is_rewritten_in_place_witness :
  _update_list_in_text
    ("on_birth = { events = { a.1 } effect = { } }" : str) "events" [] ["a.1" : str; "b.2" : str] []
  = ("on_birth = { events = { a.1 b.2 } effect = { } }" : str).
Proof.
  etransitivity;
    [exact (list_text_is_rewritten_in_place
              "on_birth = { " "events" " " " " " a.1 " " effect = { } }"
              [] ["a.1" : str; "b.2" : str] [] eq_refl eq_refl eq_refl eq_refl)|].
  reflexivity.
Defined.

(** X17.  When the list name does not occur in the text,
    [_update_list_in_text] returns the text as it is, whatever the items
    are. *)
Theorem list_text_without_the_name_is_kept
    (text name_ : str) (old_items new_items : list str) (old_block_text : str) :
  Py.contains text name_ = false ->
  _update_list_in_text text name_ old_items new_items old_block_text = text.
Proof.
  intro H. unfold _update_list_in_text, Re.search.
  now rewrite search_from_absent.
Qed.

Lemma list_text_without_the_name_is_kept_witness :
  _update_list_in_text ("on_birth = { effect = { } }" : str) "events" []
    ["a.1" : str] []
  = ("on_birth = { effect = { } }" : str).
Proof.
  apply (list_text_without_the_name_is_kept
           ("on_birth = { effect = { } }" : str) "events" [] ["a.1" : str] []).
  reflexivity.
Defined.

End ListTextFacts.

(** * The file loop of the generator *)

Module GeneratorMoreFacts.

Import SmartPatchGenerator GeneratorDefs GeneratorMoreDefs.

Lemma counted_refl w : counted 0 w w.
Proof. unfold counted. repeat split; lia. Qed.

Lemma counted_step base n w0 w entry :
  counted n w0 w -> counted (S n) w0 (process_file base w entry).
Proof.
  intros (T & P & M & C & F & K). destruct w as [stats out], entry as [p sources].
  cbn [fst snd] in *. unfold process_file.
  assert (Skip : counted (S n) w0 (bump_skipped stats, out)).
  { unfold counted, processed in *. cbn [fst snd bump_skipped total_files merged_files
      copied_files skipped_files failed_files errors]. repeat split; lia. }
  assert (Rest : counted (S n) w0
            match rev (filter (is_changed (option_map _normalize_content
                                             (as_read (base p)))) sources) with
            | [] => (bump_skipped stats, out)
            | (last_mod, last_file) :: _ =>
                if _is_mergeable p then
                  let result :=
                    fst (StructuralMerger.merge_file (as_read (base p))
                           (map (fun s : Source => (fst s, as_read (snd s)))
                                (filter (is_changed (option_map _normalize_content
                                                       (as_read (base p)))) sources))) in
                  if StructuralMerger.success result then
                    match StructuralMerger.changes result with
                    | [] => (bump_skipped stats, out)
                    | _ => (bump_merged stats,
                            out ++ [Saved p (StructuralMerger.result_content result)])
                    end
                  else
                    (bump_failed stats (MergeFailed p (StructuralMerger.error result)), out)
                else (bump_copied stats, out ++ [Copied p last_mod last_file])
            end).
  { destruct (rev _) as [|[last_mod last_file] l]; trivial.
    destruct (_is_mergeable p).
    - cbv zeta. destruct (StructuralMerger.success _).
      + destruct (StructuralMerger.changes _); trivial.
        unfold counted, processed in *. cbn [fst snd bump_merged total_files merged_files
          copied_files skipped_files failed_files errors].
        rewrite !filter_app, !length_app. cbn [filter is_saved is_copied length app].
        repeat split; lia.
      + unfold counted, processed in *. cbn [fst snd bump_failed total_files merged_files
          copied_files skipped_files failed_files errors].
        rewrite !length_app. cbn [length]. repeat split; lia.
    - unfold counted, processed in *. cbn [fst snd bump_copied total_files merged_files
        copied_files skipped_files failed_files errors].
      rewrite !filter_app, !length_app. cbn [filter is_saved is_copied length app].
      repeat split; lia. }
  destruct (base p); [exact Skip|exact Rest|exact Rest].
Qed.

Lemma counted_fold base l : forall n w0 w,
  counted n w0 w -> counted (n + length l) w0 (fold_left (process_file base) l w).
Proof.
  induction l as [|entry l IH]; intros n w0 w H; cbn [fold_left length].
  - now rewrite Nat.add_0_r.
  - replace (n + S (length l)) with (S n + length l) by lia.
    apply IH. now apply counted_step.
Qed.

Lemma saved_or_copied (out : list Output) :
  length out = length (filter is_saved out) + length (filter is_copied out).
Proof.
  induction out as [|o l IH]; trivial.
  destruct o; cbn [filter is_saved is_copied length]; lia.
Qed.

(** X18.  The loop over the files counts every file exactly once: at the
    end the numbers of merged, copied, skipped and failed files add up to
    the total, which is the number of files; the merged files are the texts
    saved, the copied files are the copies made, and the failed files are
    the errors listed. *)
Theorem every_file_is_counted_once
    (base : RelPath -> FileState) (mod_files : list (RelPath * list Source)) :
  let stats := fst (process_files base mod_files) in
  let out := snd (process_files base mod_files) in
  total_files stats = Z.of_nat (length mod_files)
  /\ (merged_files stats + copied_files stats + skipped_files stats + failed_files stats
      = total_files stats)%Z
  /\ merged_files stats = Z.of_nat (length (filter is_saved out))
  /\ copied_files stats = Z.of_nat (length (filter is_copied out))
  /\ failed_files stats = Z.of_nat (length (errors stats))
  /\ (merged_files stats + copied_files stats = Z.of_nat (length out))%Z
  /\ (0 <= skipped_files stats)%Z.
Proof.
  cbv zeta. unfold process_files.
  set (w0 := (mkStats (Z.of_nat (length mod_files)) 0 0 0 0 [], [])).
  pose proof (counted_fold base mod_files 0 w0 w0 (counted_refl w0)) as H.
  cbn [Nat.add] in H. destruct H as (T & P & M & C & F & K).
  set (w := fold_left (process_file base) mod_files w0) in *.
  unfold processed in P. cbn [w0 fst snd total_files merged_files copied_files
    skipped_files failed_files errors filter length] in *.
  pose proof (saved_or_copied (snd w)) as L.
  repeat split; lia.
Qed.

Lemma justified_step base w p sources o :
  In o (snd (process_file base w (p, sources))) ->
  In o (snd w) \/ (output_path o = p /\ justified base sources o).
Proof.
  destruct w as [stats out]. unfold process_file. cbn [snd].
  assert (Rest : base p <> Absent ->
    In o (snd
            match rev (filter (is_changed (option_map _normalize_content
                                             (as_read (base p)))) sources) with
            | [] => (bump_skipped stats, out)
            | (last_mod, last_file) :: _ =>
                if _is_mergeable p then
                  let result :=
                    fst (StructuralMerger.merge_file (as_read (base p))
                           (map (fun s : Source => (fst s, as_read (snd s)))
                                (filter (is_changed (option_map _normalize_content
                                                       (as_read (base p)))) sources))) in
                  if StructuralMerger.success result then
                    match StructuralMerger.changes result with
                    | [] => (bump_skipped stats, out)
                    | _ => (bump_merged stats,
                            out ++ [Saved p (StructuralMerger.result_content result)])
                    end
                  else
                    (bump_failed stats (MergeFailed p (StructuralMerger.error result)), out)
                else (bump_copied stats, out ++ [Copied p last_mod last_file])
            end) ->
    In o out \/ (output_path o = p /\ justified base sources o)).
  { intros Hb H.
    fold (changed_sources_of (base p) sources) in H.
    fold (merge_result_of (base p) sources) in H.
    destruct (rev (changed_sources_of (base p) sources)) as [|[last_mod last_file] l] eqn:Er;
      [now left|].
    assert (Hne : changed_sources_of (base p) sources <> []).
    { intro E. rewrite E in Er. discriminate. }
    assert (Hl : last (changed_sources_of (base p) sources) ([], Absent)
                 = (last_mod, last_file)).
    { apply (f_equal (@rev _)) in Er. rewrite rev_involutive in Er. rewrite Er.
      cbn [rev]. apply last_last. }
    destruct (_is_mergeable p) eqn:Em.
    - cbv zeta in H. destruct (StructuralMerger.success _) eqn:Es; [|now left].
      destruct (StructuralMerger.changes _) eqn:Ec; [now left|].
      cbn [snd] in H. apply in_app_iff in H as [H|[<-|[]]]; [now left|right].
      split; [reflexivity|]. unfold justified. cbn [output_path].
      rewrite Ec. repeat split; trivial. discriminate.
    - cbn [snd] in H. apply in_app_iff in H as [H|[<-|[]]]; [now left|right].
      split; [reflexivity|]. unfold justified. cbn [output_path]. repeat split; trivial. }
  destruct (base p) eqn:Eb; [now left| |]; intro H; apply Rest; trivial; discriminate.
Qed.

(** X19.  Nothing is written without a reason.  Every output of the loop
    belongs to a file of the mods that is present in the base and that some
    mod changed; a saved text is the content of a successful merge, with
    changes, of a mergeable file; a copy is the file of the last mod that
    changed a file that is not mergeable. *)
Theorem every_output_is_justified
    (base : RelPath -> FileState) (mod_files : list (RelPath * list Source))
    (o : Output) :
  In o (snd (process_files base mod_files)) ->
  exists sources, In (output_path o, sources) mod_files /\ justified base sources o.
Proof.
  unfold process_files.
  set (w0 := (mkStats (Z.of_nat (length mod_files)) 0 0 0 0 [], []) : World).
  assert (G : forall l w,
             In o (snd (fold_left (process_file base) l w)) ->
             In o (snd w)
             \/ exists sources, In (output_path o, sources) l /\ justified base sources o).
  { induction l as [|[p sources] l IH]; intros w H; cbn [fold_left] in H; [now left|].
    destruct (IH _ H) as [H1|(s & H1 & H2)].
    - destruct (justified_step base w p sources o H1) as [H2|[<- H2]]; [now left|].
      right. exists sources. split; [now left|trivial].
    - right. exists s. split; [now right|trivial]. }
  intro H. destruct (G mod_files w0 H) as [[]|H1]. exact H1.
Qed.

Lemma every_output_is_justified_witness :
  let p : RelPath := ["gfx" : str; "x.dds" : str] in
  let base (q : RelPath) : FileState :=
    if list_eq_dec str_dec q p then Readable "a" else Absent in
  let mod_files : list (RelPath * list Source) :=
    [(p, [("A" : str, Readable "b"); ("B" : str, Readable "a")])] in
  exists sources,
    In (p, sources) mod_files
    /\ justified base sources (Copied p "A" (Readable "b")).
Proof.
  intros p base mod_files.
  apply (every_output_is_justified base mod_files (Copied p "A" (Readable "b"))).
  vm_compute. now left.
Defined.

(** X20.  A file that the base does not have is skipped, and so is a file
    of which every mod holds a readable copy that equals the readable base
    file after normalization: the counter of skipped files goes up by one
    and nothing is written. *)
Theorem absent_and_unchanged_files_are_skipped
    (base : RelPath -> FileState) (stats : PatchStats) (out : list Output)
    (relative_path : RelPath) (sources : list Source) :
  base relative_path = Absent
  \/ (exists b, base relative_path = Readable b
                /\ forall s, In s sources ->
                     exists t, snd s = Readable t
                               /\ _normalize_content t = _normalize_content b) ->
  process_file base (stats, out) (relative_path, sources) = (bump_skipped stats, out).
Proof.
  intros [H|(b & Hb & Hs)]; unfold process_file; rewrite ?H; trivial.
  rewrite Hb. cbn [as_read option_map].
  assert (E : filter (is_changed (Some (_normalize_content b))) sources = []).
  { clear - Hs. induction sources as [|s l IH]; trivial.
    cbn [filter]. destruct (Hs s (or_introl eq_refl)) as (t & Et & En).
    unfold is_changed at 1. rewrite Et, En, str_eqb_refl. cbn [negb].
    apply IH. intros s' H'. apply Hs. now right. }
  now rewrite E.
Qed.

Lemma absent_and_unchanged_files_are_skipped_witness :
  let p : RelPath := ["common" : str; "x.txt" : str] in
  let base (q : RelPath) : FileState := Readable ("a = 1  # base" : str) in
  process_file base (mkStats 1 0 0 0 0 [], []) (p, [("A" : str, Readable ("  a=1" : str))])
  = (mkStats 1 0 0 1 0 [], []).
Proof.
  intros p base.
  apply (absent_and_unchanged_files_are_skipped base (mkStats 1 0 0 0 0 []) [] p
           [("A" : str, Readable ("  a=1" : str))]).
  right. exists ("a = 1  # base" : str). split; [reflexivity|].
  intros s [<-|[]]. exists ("  a=1" : str). split; reflexivity.
Defined.

(** ** Mergeable paths *)

Lemma rfind_from_absent (s : str) (c : ascii) : forall i last_,
  ~ In c s -> Py.rfind_from s c i last_ = last_.
Proof.
  induction s as [|x s IH]; intros i last_ H; [reflexivity|].
  cbn [Py.rfind_from].
  destruct (Py.chr_eqb x c) eqn:E.
  - apply chr_eqb_eq in E. subst. elim H. now left.
  - apply IH. intro I. apply H. now right.
Qed.

Lemma folder_name_has_no_dot (top : str) :
  In (Py.lower top) MERGEABLE_FOLDERS -> ~ In "."%char top.
Proof.
  intros H I.
  assert (D : In "."%char (Py.lower top)).
  { change "."%char with (Py.lower_chr "."). unfold Py.lower. now apply in_map. }
  revert D. generalize dependent (Py.lower top). intros l H.
  repeat (destruct H as [<-|H];
          [intro D; repeat (destruct D as [D|D]; [discriminate D|]); destruct D|]).
  destruct H.
Qed.

(** X21.  A path is mergeable only if it has a folder in front of the file
    name, the lower-cased name of its first folder is one of
    MERGEABLE_FOLDERS (and so none of IGNORED_FOLDERS), and the lower-cased
    suffix of its file name is one of MERGEABLE_EXTENSIONS: a file that
    lies directly at the top of a mod is never merged. *)
Theorem mergeable_paths_lie_in_a_mergeable_folder (relative_path : RelPath) :
  _is_mergeable relative_path = true ->
  exists top rest,
    relative_path = top :: rest /\ rest <> []
    /\ In (Py.lower top) MERGEABLE_FOLDERS
    /\ ~ In (Py.lower top) IGNORED_FOLDERS
    /\ In (Py.lower (suffix relative_path)) MERGEABLE_EXTENSIONS.
Proof.
  unfold _is_mergeable.
  destruct (str_in (Py.lower (suffix relative_path)) MERGEABLE_EXTENSIONS) eqn:E;
    [|discriminate]. cbn [negb].
  destruct relative_path as [|top rest]; [vm_compute in E; discriminate|].
  change (map Py.lower IGNORED_FOLDERS) with IGNORED_FOLDERS.
  change (map Py.lower MERGEABLE_FOLDERS) with MERGEABLE_FOLDERS.
  destruct (str_in (Py.lower top) IGNORED_FOLDERS) eqn:E1; [discriminate|].
  destruct (str_in (Py.lower top) MERGEABLE_FOLDERS) eqn:E2; [|discriminate].
  intros _. apply str_in_In in E2.
  exists top, rest. split; [reflexivity|]. split; [|split; [exact E2|split]].
  - intros ->. pose proof (folder_name_has_no_dot top E2) as D.
    unfold suffix in E. cbn [last] in E. unfold Py.rfind in E.
    rewrite rfind_from_absent in E by trivial. discriminate.
  - intro I. apply str_in_In in I. congruence.
  - now apply str_in_In.
Qed.

Lemma mergeable_paths_lie_in_a_mergeable_folder_witness :
  exists top rest,
    ["Common" : str; "traits" : str; "00_traits.TXT" : str] = top :: rest /\ rest <> []
    /\ In (Py.lower top) MERGEABLE_FOLDERS
    /\ ~ In (Py.lower top) IGNORED_FOLDERS
    /\ In (Py.lower (suffix ["Common" : str; "traits" : str; "00_traits.TXT" : str]))
          MERGEABLE_EXTENSIONS.
Proof.
  apply (mergeable_paths_lie_in_a_mergeable_folder
           ["Common" : str; "traits" : str; "00_traits.TXT" : str]).
  reflexivity.
Defined.

End GeneratorMoreFacts.

(** * Validity *)

Module ValidatorMoreFacts.

Import ParadoxRules StructureValidator ValidatorDefs ValidatorFacts.





End ValidatorMoreFacts.

(** * Blocks in the syntax tree *)

Module BlockParseFacts.

Import Pdx PdxParser PdxSerializer OperatorDefs OperatorFacts RoundTripDefs RoundTripFacts
       ListTextDefs ListTextFacts.

Lemma replace_fuel_absent (c : ascii) (old' new : str) : forall fuel (s : str),
  ~ In c s -> Py.replace_fuel fuel s (c :: old') new = s.
Proof.
  induction fuel as [|fuel IH]; intros s H; [reflexivity|].
  destruct s as [|x s]; [reflexivity|].
  cbn [Py.replace_fuel Py.startswith].
  destruct (Py.chr_eqb c x) eqn:E.
  - apply chr_eqb_eq in E. subst. elim H. now left.
  - cbn [andb]. f_equal. apply IH. intro I. apply H. now right.
Qed.

Lemma In_join (sep : str) (ls : list str) x :
  In x (Py.join sep ls) -> In x sep \/ exists l, In l ls /\ In x l.
Proof.
  induction ls as [|a ls IH]; [intros []|].
  destruct ls as [|b ls].
  - cbn [Py.join]. intro H. right. exists a. split; [now left|trivial].
  - rewrite join_cons by discriminate. rewrite !in_app_iff.
    intros [H|[H|H]].
    + right. exists a. split; [now left|trivial].
    + now left.
    + destruct (IH H) as [H'|(l & Hl & Hx)]; [now left|].
      right. exists l. split; [now right|trivial].
Qed.

Lemma pdx_lines_join (ls : list str) :
  ls <> [] -> Forall (fun l => ~ In Py.CR l /\ ~ In Py.NL l) ls ->
  pdx_lines (Py.join [Py.NL] ls) = ls.
Proof.
  intros Hne H. unfold pdx_lines, Py.replace.
  assert (N : ~ In Py.CR (Py.join [Py.NL] ls)).
  { intro I. apply In_join in I as [[I|[]]|(l & Hl & Hx)]; [discriminate|].
    rewrite Forall_forall in H. destruct (H l Hl) as [A _]. now apply A. }
  rewrite (replace_fuel_absent Py.CR [Py.NL] [Py.NL] _ _ N).
  rewrite (replace_fuel_absent Py.CR [] [Py.NL] _ _ N).
  apply split_join_lines; trivial.
  eapply Forall_impl; [|exact H]. now intros l [_ Hl].
Qed.

Lemma fold_parse_line_kept_open lines : forall top below,
  forallb kept_line lines = true ->
  fold_left parse_line lines (top :: below)
  = set_children top (children top ++ map node_of_line lines) :: below.
Proof.
  induction lines as [|l lines IH]; intros top below H.
  - cbn. rewrite app_nil_r. now destruct top.
  - cbn [forallb] in H. apply andb_true_iff in H as [Hl Hr].
    cbn [fold_left map]. rewrite parse_line_kept by trivial.
    cbn [append_child]. rewrite IH by trivial. cbn [children set_children].
    now rewrite <- app_assoc.
Qed.

Lemma strip_blank_char (ws : str) (c : ascii) :
  blank ws = true -> Py.isspace c = false -> Py.strip (ws ++ [c]) = [c].
Proof.
  intros Hw Hc. unfold Py.strip. rewrite lstrip_blank_app by trivial.
  cbn [Py.lstrip]. rewrite Hc. unfold Py.rstrip. cbn [rev app Py.lstrip].
  now rewrite Hc.
Qed.

(** A line that holds one closing brace closes the innermost open block. *)
Lemma parse_line_closing (stack : Stack) (ws : str) :
  blank ws = true -> parse_line stack (ws ++ "}") = pop stack.
Proof.
  intro H. unfold parse_line.
  change ("}" : str) with ["}"%char]. rewrite strip_blank_char by trivial.
  reflexivity.
Qed.

Section Block.

Variables (c0 : ascii) (tail : str) (body : list str).
Hypothesis Hc0 : Re.word c0 = true.
Hypothesis Htail : forallb Re.ident tail = true.
Hypothesis Hbody : forallb kept_line body = true.

Lemma fold_block (top : PdxNode) (below : Stack) :
  fold_left parse_line (block_line c0 tail :: body) (top :: below)
  = node BLOCK (c0 :: tail) [] [] (block_line c0 tail) [] (map node_of_line body)
    :: top :: below.
Proof.
  cbn [fold_left]. rewrite parse_line_block_line by trivial.
  now rewrite fold_parse_line_kept_open.
Qed.

Lemma header_clean : ~ In Py.CR (block_line c0 tail) /\ ~ In Py.NL (block_line c0 tail).
Proof.
  assert (G : forall x, In x (block_line c0 tail) ->
                Re.ident x = true \/ In x (" = {" : str)).
  { unfold block_line. intros x [<-|H]; [left; now apply word_ident|].
    apply in_app_iff in H as [H|H]; [left|now right].
    rewrite forallb_forall in Htail. now apply Htail. }
  split; intro I; destruct (G _ I) as [H|H]; try discriminate H;
    repeat (destruct H as [H|H]; [discriminate H|]); destruct H.
Qed.

End Block.

(** X23.  A block that opens with a line [name = {], holds lines that are
    blank, comments, property lines or single names, and is closed by a
    line with one closing brace parses to one Block node under the root,
    whose children are the nodes of the lines between, in order.  The text
    without the closing line parses to the same tree: a block left open at
    the end of the text is closed there. *)
Theorem block_lines_become_children
    (c0 : ascii) (tail : str) (body : list str) (ws : str) :
  Re.word c0 = true -> forallb Re.ident tail = true ->
  forallb kept_line body = true ->
  Forall (fun l => ~ In Py.CR l /\ ~ In Py.NL l) body ->
  blank ws = true -> ~ In Py.CR ws /\ ~ In Py.NL ws ->
  let header := block_line c0 tail in
  let tree :=
    node ROOT "__root__" [] [] [] []
      [node BLOCK (c0 :: tail) [] [] header [] (map node_of_line body)] in
  parse (Py.join [Py.NL] (header :: body ++ [ws ++ "}"])) = tree
  /\ parse (Py.join [Py.NL] (header :: body)) = tree.
Proof.
  intros Hc0 Htail Hbody Hclean Hws [W1 W2] header tree.
  pose proof (header_clean c0 tail Hc0 Htail) as Hh.
  split; unfold parse.
  - fold (pdx_lines (Py.join [Py.NL] (header :: body ++ [ws ++ "}"]))).
    rewrite pdx_lines_join; [|discriminate|].
    + change (header :: body ++ [ws ++ "}"]) with ((header :: body) ++ [ws ++ "}"]).
      rewrite fold_left_app. unfold header. rewrite fold_block by trivial.
      cbn [fold_left]. rewrite parse_line_closing by trivial. reflexivity.
    + constructor; trivial. apply Forall_app. split; trivial.
      constructor; [|constructor]. split; intro I; apply in_app_iff in I as [I|[I|[]]];
        try contradiction; discriminate.
  - fold (pdx_lines (Py.join [Py.NL] (header :: body))).
    rewrite pdx_lines_join; [|discriminate|now constructor].
    unfold header. rewrite fold_block by trivial. reflexivity.
Qed.

Lemma block_lines_become_children_witness :
  parse ("on_birth = {" ++ [Py.NL] ++ "# first" ++ [Py.NL] ++ "level = 5" ++ [Py.NL]
         ++ "some_flag" ++ [Py.NL] ++ "	}")
  = node ROOT "__root__" [] [] [] []
      [node BLOCK "on_birth" [] [] "on_birth = {" []
         (map node_of_line ["# first" : str; "level = 5" : str; "some_flag" : str])].
Proof.
  assert (H1 : Re.word "o" = true) by reflexivity.
  assert (H2 : forallb Re.ident "n_birth" = true) by reflexivity.
  assert (H3 : forallb kept_line ["# first" : str; "level = 5" : str; "some_flag" : str]
               = true) by reflexivity.
  assert (H4 : Forall (fun l => ~ In Py.CR l /\ ~ In Py.NL l)
                 ["# first" : str; "level = 5" : str; "some_flag" : str]).
  { repeat constructor; intro I; repeat (destruct I as [I|I]; [discriminate I|]);
      destruct I. }
  assert (H5 : blank [Py.TAB] = true) by reflexivity.
  assert (H6 : ~ In Py.CR [Py.TAB] /\ ~ In Py.NL [Py.TAB]).
  { split; intros [I|[]]; discriminate. }
  exact (proj1 (block_lines_become_children "o" "n_birth"
                  ["# first" : str; "level = 5" : str; "some_flag" : str] [Py.TAB]
                  H1 H2 H3 H4 H5 H6)).
Defined.

End BlockParseFacts.

(** * Inline lists *)

Module InlineFacts.

Import Pdx PdxParser PdxSerializer OperatorDefs OperatorFacts RoundTripDefs RoundTripFacts
       ListTextDefs ListTextFacts InlineDefs.

(** ** The serializer *)

Lemma filter_real_items (items : list str) :
  filter is_real (map list_item items) = map list_item items.
Proof. induction items as [|a l IH]; trivial. cbn [map filter]. now rewrite IH. Qed.

Lemma can_be_inline_items t nm v c b r i (items : list str) :
  _can_be_inline (mkPdxNode t nm v (map list_item items) c b r i)
  = negb (8 <? length items).
Proof.
  cbn [_can_be_inline]. rewrite filter_real_items, length_map.
  destruct (8 <? length items); trivial. cbn [negb].
  induction items as [|a l IH]; trivial.
Qed.

Lemma inline_children_items (items : list str) :
  map _inline_child (map list_item items) = items.
Proof. induction items as [|a l IH]; trivial. cbn [map]. now rewrite IH. Qed.

Lemma serialize_inline_list (name_ raw ind : str) (items : list str) (k : nat) :
  items <> [] -> length items <= 8 ->
  _serialize_node (node BLOCK name_ [] [] raw ind (map list_item items)) k
  = Some (Py.tabs k ++ inline_text name_ items).
Proof.
  intros Hne Hl. unfold node. cbn [_serialize_node].
  rewrite can_be_inline_items.
  replace (8 <? length items) with false by (symmetry; apply Nat.ltb_ge; lia).
  cbn [negb]. rewrite filter_real_items, inline_children_items.
  destruct items as [|a l]; [contradiction|]. cbn [map].
  unfold with_comment, inline_text. cbn [Py.nonempty].
  f_equal. now rewrite <- !app_assoc.
Qed.

(** ** The inline reader *)

Lemma ident_not_stop (c : ascii) :
  Re.ident c = true ->
  existsb (Py.chr_eqb c) [" "%char; Py.TAB; "="%char; "{"%char; "}"%char] = false
  /\ is_blank c = false /\ Py.chr_eqb c "=" = false.
Proof.
  destruct c as [[] [] [] [] [] [] [] []]; intro H; vm_compute in H;
    try discriminate H; repeat split; reflexivity.
Qed.

Lemma take_until_run (stops a rest : str) :
  forallb (fun x => negb (existsb (Py.chr_eqb x) stops)) a = true ->
  match rest with [] => True | c :: _ => existsb (Py.chr_eqb c) stops = true end ->
  take_until stops (a ++ rest) = (a, rest).
Proof.
  intros Ha Hr. induction a as [|x a IH].
  - destruct rest as [|c r]; trivial. cbn [app take_until]. now rewrite Hr.
  - cbn [forallb] in Ha. apply andb_true_iff in Ha as [Hx Ha].
    apply negb_true_iff in Hx. cbn [app take_until]. rewrite Hx.
    now rewrite IH.
Qed.

Lemma name_run (it : str) :
  is_name it = true ->
  forallb (fun x => negb (existsb (Py.chr_eqb x)
                            [" "%char; Py.TAB; "="%char; "{"%char; "}"%char])) it = true.
Proof.
  intro H. apply (forallb_impl Re.ident); [|now apply name_ident].
  intros x Hx. now destruct (ident_not_stop x Hx) as (-> & _).
Qed.

Lemma inline_loop_items (items : list str) : forall fuel,
  forallb is_name items = true ->
  length (Py.join [" "%char] items) < fuel ->
  inline_loop fuel (Py.join [" "%char] items) = map list_item items.
Proof.
  induction items as [|a items IH]; intros fuel H L.
  - destruct fuel; reflexivity.
  - cbn [forallb] in H. apply andb_true_iff in H as [Ha H].
    destruct fuel as [|fuel]; [lia|].
    destruct (is_name_facts a Ha) as (Sa & _ & _).
    destruct a as [|a0 a']; [discriminate|].
    pose proof (name_ident _ Ha) as Ia. cbn [forallb] in Ia.
    apply andb_true_iff in Ia as [Ia0 _].
    destruct (ident_not_stop a0 Ia0) as (_ & Ba & _).
    destruct items as [|b items].
    + cbn [Py.join map inline_loop skip_blanks]. rewrite Ba.
      rewrite <- (app_nil_r (a0 :: a')) at 1.
      rewrite take_until_run; [|now apply name_run|exact I].
      rewrite Sa. cbn [Py.nonempty negb skip_blanks]. reflexivity.
    + rewrite join_cons in * by discriminate.
      set (rest := Py.join [" "%char] (b :: items)) in *.
      cbn [inline_loop]. 
      replace (skip_blanks ((a0 :: a') ++ [" "%char] ++ rest))
        with ((a0 :: a') ++ [" "%char] ++ rest) by (cbn [app skip_blanks]; now rewrite Ba).
      cbn [app].
      change (a0 :: a' ++ " "%char :: rest) with ((a0 :: a') ++ " "%char :: rest).
      rewrite take_until_run; [|now apply name_run|reflexivity].
      rewrite Sa. cbn [Py.nonempty negb].
      cbn [forallb] in H. apply andb_true_iff in H as [Hb Hi].
      destruct b as [|b0 b']; [discriminate|].
      pose proof (name_ident _ Hb) as Ib. cbn [forallb] in Ib.
      apply andb_true_iff in Ib as [Ib0 _].
      destruct (ident_not_stop b0 Ib0) as (_ & Bb & Eb).
      assert (R : exists r', rest = b0 :: r').
      { unfold rest. destruct items; [now exists b'|].
        rewrite join_cons by discriminate. eexists. reflexivity. }
      destruct R as [r' R].
      assert (SB : skip_blanks (" "%char :: rest) = rest).
      { cbn [skip_blanks]. change (is_blank " ") with true. cbv iota.
        rewrite R. cbn [skip_blanks]. now rewrite Bb. }
      rewrite SB. rewrite R at 1. rewrite Eb.
      cbn [map]. f_equal. apply IH.
      * cbn [forallb]. now rewrite Hb, Hi.
      * rewrite length_app in L. cbn [length app] in L. lia.
Qed.

(** ** The line *)

Section InlineLine.

Variables (stack : Stack) (c0 : ascii) (tail rest : str).
Hypothesis Hc0 : Re.word c0 = true.
Hypothesis Htail : forallb Re.ident tail = true.
Hypothesis Hrest : forallb Re.dot_any rest = true.

Lemma inline_line_matches :
  Re.rmatch RE_BLOCK ((c0 :: tail) ++ " = {" ++ rest)
  = Some ([[c0]; tail; [" "%char]; ["="%char]; [" "%char]; ["{"%char]; rest; []], []).
Proof.
  unfold RE_BLOCK. cbn [app]. rewrite rmatch_one, Hc0, rmatch_lazy.
  apply push_some. apply lazy_skip.
  - apply (forallb_impl Re.ident Re.ident_or_space tail); trivial.
    intros x Hx. now destruct (ident_facts x Hx) as (_ & _ & _ & _ & _ & _ & ->).
  - intros m1 c m2 E. cbn [app].
    assert (Hc : Re.ident c = true).
    { rewrite forallb_forall in Htail. apply Htail. rewrite E.
      apply in_or_app. right. now left. }
    destruct (ident_facts c Hc) as (Hs & He & _).
    rewrite (spaces_then_equals_fails _ [] c (m2 ++ " "%char :: "="%char :: " "%char
                                                :: "{"%char :: rest)); trivial.
  - cbn [app]. apply push_some. rewrite rmatch_star.
    apply (greedy_all _ _ [" "%char] ("="%char :: " "%char :: "{"%char :: rest));
      [reflexivity|reflexivity|].
    cbn [app]. apply push_some. rewrite rmatch_one. change (Re.chr "=" "=") with true.
    cbv iota. apply push_some. rewrite rmatch_star.
    apply (greedy_all _ _ [" "%char] ("{"%char :: rest)); [reflexivity|reflexivity|].
    cbn [app]. apply push_some. rewrite rmatch_one. change (Re.chr "{" "{") with true.
    cbv iota. apply push_some. now apply rest_of_line_matches.
Qed.

End InlineLine.

Lemma names_calm (items : list str) :
  forallb is_name items = true -> BraceDefs.calm (Py.join " " items) = true.
Proof.
  intro H. apply BraceFacts.calm_join. apply Forall_forall. intros it Hit.
  rewrite forallb_forall in H. now destruct (is_name_facts it (H it Hit)) as (_ & C & _).
Qed.

Lemma tabs_blank k : blank (Py.tabs k) = true.
Proof. induction k as [|k IH]; trivial. Qed.

Lemma prefix_minus_app (ws s : str) : Py.prefix_minus (ws ++ s) s = ws.
Proof.
  unfold Py.prefix_minus. rewrite length_app.
  replace (length ws + length s - length s) with (length ws + 0) by lia.
  rewrite firstn_app_2. cbn [firstn]. apply app_nil_r.
Qed.

(** What the parser does with a line [name = { a b c }]. *)
Lemma parse_line_inline_list (stack : Stack) (name_ : str) (items : list str) (ws : str) :
  is_name name_ = true -> forallb is_name items = true -> items <> [] ->
  blank ws = true ->
  parse_line stack (ws ++ inline_text name_ items)
  = append_child stack
      (node BLOCK name_ [] [] (ws ++ inline_text name_ items) ws (map list_item items)).
Proof.
  intros Hn Hi Hne Hw.
  destruct (is_name_facts name_ Hn) as (Sn & Cn & In_).
  destruct name_ as [|c0 tail]; [discriminate|].
  pose proof Hn as Hn'. cbn [is_name] in Hn'. apply andb_true_iff in Hn' as [Hc0 Htail].
  destruct (ident_facts c0 In_) as (Hs0 & _).
  set (body := inline_text (c0 :: tail) items).
  assert (Cj : BraceDefs.calm (Py.join " " items) = true) by now apply names_calm.
  assert (Cb : BraceDefs.calm body = true).
  { unfold body, inline_text.
    change ((c0 :: tail) ++ " = { " ++ Py.join " " items ++ " }")
      with ((c0 :: tail) ++ " = " ++ ("{ " ++ Py.join " " items ++ " }")).
    apply BraceFacts.calm_assign; trivial. now apply BraceFacts.calm_braces. }
  assert (Sb : Py.strip (ws ++ body) = body).
  { unfold Py.strip. rewrite lstrip_blank_app by trivial.
    change (Py.rstrip (Py.lstrip body)) with (Py.strip body).
    unfold body, inline_text. cbn [app]. apply strip_id'; trivial.
    change (ends_nonspace ((c0 :: tail) ++ " = { " ++ (Py.join " " items ++ " }"))).
    apply ends_nonspace_app, ends_nonspace_app, ends_nonspace_app. reflexivity. }
  destruct (plain_line_facts body In_ Cb) as (F & L & N & S).
  unfold parse_line. rewrite Sb, N, prefix_minus_app. cbn [negb].
  rewrite F. cbn [Z.leb Z.compare]. rewrite L. cbn [pop_n drop_closes].
  rewrite N. cbn [negb]. rewrite S.
  set (rest := " " ++ Py.join " " items ++ " }").
  assert (Cr : BraceDefs.calm rest = true).
  { unfold rest.
    change (" " ++ Py.join " " items ++ " }")
      with ([] ++ " "%char :: (Py.join " " items ++ " "%char :: "}")).
    apply (BraceFacts.calm_space []); trivial. now apply BraceFacts.calm_space. }
  assert (M : Re.rmatch RE_BLOCK body
              = Some ([[c0]; tail; [" "%char]; ["="%char]; [" "%char]; ["{"%char]; rest; []],
                      [])).
  { unfold body, inline_text.
    change ((c0 :: tail) ++ " = { " ++ Py.join " " items ++ " }")
      with ((c0 :: tail) ++ " = {" ++ rest).
    apply inline_line_matches; trivial. now apply calm_dot_any. }
  rewrite M.
  cbn [Re.item Re.group nth Nat.sub skipn firstn concat app].
  rewrite ?app_nil_r, Sn.
  rewrite (calm_find_comment rest Cr). cbn [Z.leb Z.compare].
  assert (J : exists j0 j', Py.join " " items = j0 :: j' /\ Py.isspace j0 = false).
  { destruct items as [|a l]; [contradiction|].
    cbn [forallb] in Hi. apply andb_true_iff in Hi as [Ha _].
    destruct (is_name_facts a Ha) as (_ & _ & Ia).
    destruct a as [|a0 a']; [contradiction|].
    destruct (ident_facts a0 Ia) as (Hsa & _).
    destruct l as [|b l]; [now exists a0, a'|].
    change (Py.join " " ((a0 :: a') :: b :: l))
      with (a0 :: a' ++ " " ++ Py.join " " (b :: l)). eauto. }
  destruct J as (j0 & j' & J & Hj0).
  assert (Ej : ends_nonspace (Py.join " " items)).
  { clear - Hi Hne. induction items as [|a l IH]; [contradiction|].
    cbn [forallb] in Hi. apply andb_true_iff in Hi as [Ha Hl].
    destruct l as [|b l].
    - cbn [Py.join]. apply ends_nonspace_ident; [now destruct a|now apply name_ident].
    - change (Py.join " " (a :: b :: l)) with (a ++ " " ++ Py.join " " (b :: l)).
      apply ends_nonspace_app, ends_nonspace_app. apply IH; trivial. discriminate. }
  assert (Sr : Py.strip rest = Py.join " " items ++ " }").
  { unfold rest.
    change (" " ++ Py.join " " items ++ " }") with ([" "%char] ++ (Py.join " " items ++ " }")).
    unfold Py.strip. rewrite lstrip_blank_app by reflexivity.
    change (Py.rstrip (Py.lstrip (Py.join " " items ++ " }")))
      with (Py.strip (Py.join " " items ++ " }")).
    rewrite J. cbn [app]. apply strip_id'; trivial.
    change (ends_nonspace ((j0 :: j') ++ " }")). apply ends_nonspace_app. reflexivity. }
  rewrite Sr.
  assert (En : Py.endswith (Py.join " " items ++ " }") "}" = true).
  { unfold Py.endswith. rewrite rev_app_distr. reflexivity. }
  rewrite En.
  assert (Rl : removelast (Py.join " " items ++ " }") = Py.join " " items ++ " ").
  { change (Py.join " " items ++ " }") with (Py.join " " items ++ [" "%char] ++ ["}"%char]).
    rewrite app_assoc. apply removelast_last. }
  rewrite Rl.
  assert (Si : Py.strip (Py.join " " items ++ " ") = Py.join " " items).
  { unfold Py.strip.
    assert (Lj : Py.lstrip (Py.join " " items ++ " ") = Py.join " " items ++ " ").
    { rewrite J. cbn [app]. now apply lstrip_head. }
    rewrite Lj. unfold Py.rstrip. rewrite rev_app_distr.
    change (rev " ") with [" "%char]. cbn [app Py.lstrip].
    change (Py.isspace " ") with true. cbv iota.
    unfold ends_nonspace in Ej.
    destruct (rev (Py.join " " items)) as [|z t] eqn:Er; [contradiction|].
    cbn [Py.lstrip]. rewrite Ej. rewrite <- Er. apply rev_involutive. }
  rewrite Si. rewrite J at 1. cbn [Py.nonempty].
  unfold _parse_inline_content.
  assert (Sj : Py.strip (Py.join " " items) = Py.join " " items).
  { rewrite J in *. now apply strip_id'. }
  rewrite Sj. rewrite J at 1. cbn [Py.nonempty negb].
  change (" " : str) with [" "%char].
  rewrite inline_loop_items; trivial. lia.
Qed.

(** X24.  A list block on one line survives writing and reading.  For a
    Block node whose name is a name and whose children are between one and
    eight list items that are names, the serializer writes
    [name = { a b c }] after the indentation, and the parser reads that
    line back as a Block of the same name with the same list items, in
    order, with no comment; only the raw line and the indentation are
    new. *)
Theorem inline_list_block_round_trip
    (stack : Stack) (name_ raw ind : str) (items : list str) (k : nat) :
  is_name name_ = true -> forallb is_name items = true ->
  items <> [] -> length items <= 8 ->
  let n := node BLOCK name_ [] [] raw ind (map list_item items) in
  let line := Py.tabs k ++ inline_text name_ items in
  _serialize_node n k = Some line
  /\ parse_line stack line
     = append_child stack (node BLOCK name_ [] [] line (Py.tabs k) (map list_item items)).
Proof.
  intros Hn Hi Hne Hl n line. split.
  - now apply serialize_inline_list.
  - apply parse_line_inline_list; trivial. apply tabs_blank.
Qed.

Lemma inline_list_block_round_trip_witness :
  let items := ["vanilla_init" : str; "mod.0001" : str] in
  let stack := [node ROOT "__root__" [] [] [] [] []] in
  _serialize_node (node BLOCK "on_actions" [] [] [] [] (map list_item items)) 1
  = Some (Py.tabs 1 ++ inline_text "on_actions" items)
  /\ parse_line stack (Py.tabs 1 ++ inline_text "on_actions" items)
     = append_child stack
         (node BLOCK "on_actions" [] [] (Py.tabs 1 ++ inline_text "on_actions" items)
            (Py.tabs 1) (map list_item items)).
Proof.
  intros items stack.
  apply (inline_list_block_round_trip stack "on_actions" [] [] items 1);
    [reflexivity|reflexivity|discriminate|cbn; lia].
Defined.

End InlineFacts.

(** * Where the top-level blocks lie *)

Module LocationFacts.

Import ParadoxRules StructuralMerger TopLevelDefs TopLevelFacts LocationDefs.

Lemma collect_block_split : forall lines d taken left,
  collect_block lines d = (taken, left) ->
  lines = taken ++ left /\ (lines <> [] -> taken <> []).
Proof.
  induction lines as [|l rest IH]; intros d taken left E; cbn [collect_block] in E.
  - injection E as <- <-. split; [reflexivity|intro H; now elim H].
  - destruct (_ <=? 0)%Z.
    + injection E as <- <-. split; [reflexivity|discriminate].
    + destruct (collect_block rest _) as [t l'] eqn:E'.
      injection E as <- <-. destruct (IH _ _ _ E') as [-> _].
      split; [reflexivity|discriminate].
Qed.

Lemma scan_loop_located fuel : forall pre lines b,
  In b (scan_loop fuel lines (Z.of_nat (length pre))) ->
  located (pre ++ lines) b.
Proof.
  induction fuel as [|fuel IH]; intros pre lines b H; [destruct H|].
  destruct lines as [|line rest]; [destruct H|].
  cbn [scan_loop] in H.
  assert (Next : forall b, In b (scan_loop fuel rest (Z.of_nat (length pre) + 1)) ->
                           located (pre ++ line :: rest) b).
  { intros b' H'. replace (pre ++ line :: rest) with ((pre ++ [line]) ++ rest)
      by now rewrite <- app_assoc.
    apply IH. rewrite length_app. cbn [length].
    now replace (Z.of_nat (length pre + 1)) with (Z.of_nat (length pre) + 1)%Z by lia. }
  destruct (negb (Py.nonempty (Py.strip line)) || Py.startswith (Py.strip line) "#");
    [now apply Next|].
  destruct (Re.rmatch RE_BLOCK_START (Py.strip line)) as [[ms r]|] eqn:M;
    [|now apply Next].
  destruct (collect_block (line :: rest) 0) as [block_lines left] eqn:E.
  destruct (collect_block_split _ _ _ _ E) as [S Hne].
  specialize (Hne ltac:(discriminate)).
  destruct H as [<-|H].
  - unfold located, make_block. cbn [start_line end_line full_text inner_text name
      is_commented].
    assert (L : 0 < length block_lines) by (destruct block_lines; [contradiction|cbn; lia]).
    assert (SK : skipn (Z.to_nat (Z.of_nat (length pre))) (pre ++ line :: rest)
                 = line :: rest).
    { rewrite Nat2Z.id. rewrite skipn_app, skipn_all, Nat.sub_diag. reflexivity. }
    split; [lia|]. split.
    { rewrite length_app, S, length_app. lia. }
    split.
    { unfold lines_between. rewrite SK, S.
      replace (Z.to_nat (Z.of_nat (length pre) + Z.of_nat (length block_lines) - 1
                         - Z.of_nat (length pre) + 1)) with (length block_lines + 0) by lia.
      rewrite firstn_app_2. cbn [firstn]. now rewrite app_nil_r. }
    split; [reflexivity|]. split; [|reflexivity].
    rewrite Nat2Z.id, nth_error_app2, Nat.sub_diag by lia. cbn [nth_error option_map].
    unfold opened_block. now rewrite M.
  - rewrite S. replace (pre ++ block_lines ++ left) with ((pre ++ block_lines) ++ left)
      by now rewrite <- app_assoc.
    apply IH. rewrite length_app.
    now replace (Z.of_nat (length pre + length block_lines))
      with (Z.of_nat (length pre) + Z.of_nat (length block_lines))%Z by lia.
Qed.

(** X25.  Every block that the top-level parse of the merger stores under
    a name other than the header's lies in the text where it says: its
    start and end lines are lines of the text, in order; its full text is
    exactly those lines joined by newlines; its first line opens a block of
    its name, which is the key it is stored under; and its inner text is
    the text between the first opening brace and the last closing brace of
    its full text. *)
Theorem top_level_block_is_a_slice_of_the_text (content nm : str) (b : ParsedBlock) :
  nm <> ("__header__" : str) ->
  Dict.get (_parse_top_level_blocks content) nm = Some b ->
  name b = nm /\ located (Py.split content Py.NL) b.
Proof.
  intros N H. rewrite get_parse_top_level in H by trivial.
  unfold last_named in H. apply find_some in H as [I E].
  apply str_eqb_eq in E. split; trivial.
  apply in_rev in I. unfold top_level_blocks in I.
  now apply (scan_loop_located _ []) in I.
Qed.

Lemma top_level_block_is_a_slice_of_the_text_witness :
  let content : str :=
    "# header" ++ [Py.NL] ++ "a = {" ++ [Py.NL] ++ "x = 1" ++ [Py.NL] ++ "}" ++ [Py.NL]
    ++ "b = { y }" in
  exists b, Dict.get (_parse_top_level_blocks content) "a" = Some b
            /\ located (Py.split content Py.NL) b
            /\ start_line b = 1%Z /\ end_line b = 3%Z.
Proof.
  intro content.
  pose (b := MergeDefs.block_or_empty (Dict.get (_parse_top_level_blocks content) "a")).
  assert (H : Dict.get (_parse_top_level_blocks content) "a" = Some b)
    by (vm_compute; reflexivity).
  exists b. split; [exact H|]. split.
  - apply (top_level_block_is_a_slice_of_the_text content "a" b); [discriminate|exact H].
  - split; vm_compute; reflexivity.
Defined.

End LocationFacts.

(** * The children of a parsed block *)

Module ChildrenFacts.

Import ParadoxRules StructuralMerger ChildrenDefs.

Lemma get_add_child_same (cs : Dict.t (list ParsedBlock)) (child : ParsedBlock) :
  Dict.get (add_child cs child) (name child)
  = Some (match Dict.get cs (name child) with Some l => l | None => [] end ++ [child]).
Proof. unfold add_child. destruct (Dict.get cs (name child)); apply get_set_same. Qed.

Lemma get_add_child_other (cs : Dict.t (list ParsedBlock)) (child : ParsedBlock) nm :
  nm <> name child -> Dict.get (add_child cs child) nm = Dict.get cs nm.
Proof.
  intro N. unfold add_child. destruct (Dict.get cs (name child)); now apply get_set_other.
Qed.

(** X26.  Adding a child to a parsed block and looking children up again
    agree.  After [add_child] the children of the child's name are the old
    ones followed by the new child, so their count goes up by one and the
    new child is found at the old count; the children of the other names,
    their counts and every child already present are found as before; and
    [get_child] returns nothing exactly at the indices from the count on. *)
Theorem added_child_is_found_again (b child : ParsedBlock) (nm : str) (index : nat) :
  let b' := with_child b child in
  get_all_children b' (name child) = get_all_children b (name child) ++ [child]
  /\ child_count b' (name child) = S (child_count b (name child))
  /\ get_child b' (name child) (child_count b (name child)) = Some child
  /\ (nm <> name child ->
      get_all_children b' nm = get_all_children b nm
      /\ child_count b' nm = child_count b nm
      /\ get_child b' nm index = get_child b nm index)
  /\ (index < child_count b nm -> get_child b' nm index = get_child b nm index)
  /\ (get_child b nm index = None <-> child_count b nm <= index).
Proof.
  intro b'.
  assert (A : get_all_children b' (name child) = get_all_children b (name child) ++ [child]).
  { unfold get_all_children, b', with_child. cbn [children].
    now rewrite get_add_child_same. }
  assert (G : forall k i, get_child b k i = nth_error (get_all_children b k) i).
  { intros k i. unfold get_child, get_all_children.
    destruct (Dict.get (children b) k); trivial. now destruct i. }
  assert (G' : forall k i, get_child b' k i = nth_error (get_all_children b' k) i).
  { intros k i. unfold get_child, get_all_children.
    destruct (Dict.get (children b') k); trivial. now destruct i. }
  assert (O : nm <> name child -> get_all_children b' nm = get_all_children b nm).
  { intro N. unfold get_all_children, b', with_child. cbn [children].
    now rewrite get_add_child_other. }
  split; [exact A|]. split; [unfold child_count; rewrite A, length_app; cbn; lia|].
  split.
  { rewrite G', A. unfold child_count. rewrite nth_error_app2, Nat.sub_diag by lia.
    reflexivity. }
  split.
  { intro N. split; [now apply O|]. split.
    - unfold child_count. now rewrite O.
    - now rewrite G, G', O. }
  split.
  { intro L. rewrite G, G'. destruct (str_dec nm (name child)) as [->|N].
    - rewrite A. now apply nth_error_app1.
    - now rewrite O. }
  rewrite G. apply nth_error_None.
Qed.

End ChildrenFacts.

(** * Layout and difference *)

Module LayoutFacts.

Import ParadoxRules StructuralMerger BraceDefs ListTextDefs ListTextFacts CommentFacts
       LayoutDefs.

Lemma find_comment_from_prev (s : str) i p1 p2 q :
  unescaped p1 = unescaped p2 ->
  find_comment_from s i p1 q = find_comment_from s i p2 q.
Proof.
  intro H. destruct s as [|c r]; trivial. cbn [find_comment_from].
  change (match p1 with None => true | Some p => negb (Py.chr_eqb p Py.BACKSLASH) end)
    with (unescaped p1).
  change (match p2 with None => true | Some p => negb (Py.chr_eqb p Py.BACKSLASH) end)
    with (unescaped p2).
  now rewrite H.
Qed.

Lemma space_is_quiet (c : ascii) :
  Py.isspace c = true ->
  Py.chr_eqb c Py.QUOTE = false /\ Py.chr_eqb c "#" = false
  /\ Py.chr_eqb c Py.BACKSLASH = false.
Proof.
  destruct c as [[] [] [] [] [] [] [] []]; intro H; vm_compute in H;
    try discriminate H; repeat split; reflexivity.
Qed.

(** White space in front moves the comment and nothing else. *)
Lemma find_comment_from_blank_front (w s : str) : forall i prev q,
  blank w = true -> unescaped prev = true ->
  find_comment_from (w ++ s) i prev q
  = find_comment_from s (i + Z.of_nat (length w)) None q.
Proof.
  induction w as [|c w IH]; intros i prev q H U.
  - cbn [app length]. rewrite Z.add_0_r. now apply find_comment_from_prev.
  - cbn [blank forallb] in H. apply andb_true_iff in H as [Hc H].
    destruct (space_is_quiet c Hc) as (Q & Hh & B).
    cbn [app find_comment_from]. rewrite Q, Hh. cbn [andb].
    rewrite IH; trivial; [|cbn [unescaped]; now rewrite B].
    f_equal. cbn [length]. lia.
Qed.

Lemma find_comment_from_shift (s : str) : forall i prev q,
  find_comment_from s i prev q
  = (if (find_comment_from s 0 prev q <? 0)%Z then (-1)%Z
     else i + find_comment_from s 0 prev q)%Z.
Proof.
  induction s as [|c s IH]; intros i prev q; [reflexivity|].
  cbn [find_comment_from].
  destruct (Py.chr_eqb c Py.QUOTE && _).
  - rewrite (IH (i + 1)%Z), (IH (0 + 1)%Z).
    destruct (find_comment_from_range s 0 (Some c) (negb q)) as [E|[R _]].
    + rewrite E. reflexivity.
    + cbv zeta in R.
      replace (find_comment_from s 0 (Some c) (negb q) <? 0)%Z with false
        by (symmetry; apply Z.ltb_ge; lia).
      replace (0 + 1 + find_comment_from s 0 (Some c) (negb q) <? 0)%Z with false
        by (symmetry; apply Z.ltb_ge; lia).
      lia.
  - destruct (Py.chr_eqb c "#" && negb q); [cbn; lia|].
    rewrite (IH (i + 1)%Z), (IH (0 + 1)%Z).
    destruct (find_comment_from_range s 0 (Some c) q) as [E|[R _]].
    + rewrite E. reflexivity.
    + cbv zeta in R.
      replace (find_comment_from s 0 (Some c) q <? 0)%Z with false
        by (symmetry; apply Z.ltb_ge; lia).
      replace (0 + 1 + find_comment_from s 0 (Some c) q <? 0)%Z with false
        by (symmetry; apply Z.ltb_ge; lia).
      lia.
Qed.

Lemma blank_no_hash (w : str) : blank w = true -> ~ In "#"%char w.
Proof.
  intros H I. unfold blank in H. rewrite forallb_forall in H.
  specialize (H _ I). discriminate.
Qed.

(** White space behind changes nothing. *)
Lemma find_comment_from_blank_back (s w : str) : forall i prev q,
  blank w = true ->
  find_comment_from (s ++ w) i prev q = find_comment_from s i prev q.
Proof.
  induction s as [|c s IH]; intros i prev q H.
  - cbn [app find_comment_from]. apply find_comment_from_no_hash.
    now apply blank_no_hash.
  - cbn [app find_comment_from].
    destruct (Py.chr_eqb c Py.QUOTE && _); [now apply IH|].
    destruct (Py.chr_eqb c "#" && negb q); trivial. now apply IH.
Qed.

Lemma find_comment_padded (w1 line w2 : str) :
  blank w1 = true -> blank w2 = true ->
  find_comment (w1 ++ line ++ w2)
  = (if (find_comment line <? 0)%Z then (-1)%Z
     else Z.of_nat (length w1) + find_comment line)%Z.
Proof.
  intros H1 H2. unfold find_comment.
  rewrite find_comment_from_blank_front by trivial.
  rewrite find_comment_from_blank_back by trivial.
  rewrite find_comment_from_shift. cbn [Z.add]. reflexivity.
Qed.

Lemma rstrip_blank_app (x w : str) : blank w = true -> Py.rstrip (x ++ w) = Py.rstrip x.
Proof.
  intro H. unfold Py.rstrip. rewrite rev_app_distr, lstrip_blank_app; trivial.
  unfold blank in *. rewrite forallb_forall in *. intros c Hc. apply H.
  now apply in_rev.
Qed.

Lemma strip_app_blank (x w : str) : blank w = true -> Py.strip (x ++ w) = Py.strip x.
Proof.
  intro H. induction x as [|c x IH].
  - cbn [app]. rewrite strip_blank by trivial. reflexivity.
  - unfold Py.strip in *. cbn [app Py.lstrip].
    destruct (Py.isspace c); [exact IH|].
    change (c :: x ++ w) with ((c :: x) ++ w). now apply rstrip_blank_app.
Qed.

Lemma strip_blank_app (w x : str) : blank w = true -> Py.strip (w ++ x) = Py.strip x.
Proof. intro H. unfold Py.strip. now rewrite lstrip_blank_app. Qed.

(** A line between white space has the code of the line. *)
Lemma code_of_padded (w1 line w2 : str) :
  blank w1 = true -> blank w2 = true ->
  code_of (w1 ++ line ++ w2) = code_of line.
Proof.
  intros H1 H2. unfold code_of. rewrite !strip_comment_cut.
  rewrite find_comment_padded by trivial.
  destruct (find_comment_from_range line 0 None false) as [E|[R _]];
    fold (find_comment line) in *.
  - rewrite E. cbn [Z.ltb Z.leb Z.compare].
    rewrite strip_blank_app by trivial. now apply strip_app_blank.
  - cbv zeta in R.
    replace (find_comment line <? 0)%Z with false by (symmetry; apply Z.ltb_ge; lia).
    replace (0 <=? Z.of_nat (length w1) + find_comment line)%Z with true
      by (symmetry; apply Z.leb_le; lia).
    replace (0 <=? find_comment line)%Z with true by (symmetry; apply Z.leb_le; lia).
    unfold Py.upto.
    replace (Z.to_nat (Z.of_nat (length w1) + find_comment line))
      with (length w1 + Z.to_nat (find_comment line)) by lia.
    rewrite firstn_app_2, strip_blank_app by trivial.
    rewrite firstn_app.
    replace (Z.to_nat (find_comment line) - length line) with 0 by lia.
    cbn [firstn]. now rewrite app_nil_r.
Qed.

(** A blank line and a line that holds only a comment have no code. *)
Lemma code_of_added (line : str) :
  blank line || Py.startswith (Py.strip line) "#" = true -> code_of line = [].
Proof.
  intro H. unfold code_of. apply orb_true_iff in H as [H|H].
  - rewrite strip_comment_blank by trivial. now apply strip_blank.
  - destruct (lstrip_split line) as (ws & E & B & _).
    unfold Py.strip in H.
    destruct (Py.lstrip line) as [|c t] eqn:L; [discriminate|].
    pose proof (lstrip_nonspace _ _ _ L) as Hc.
    rewrite OperatorFacts.rstrip_cons in H by trivial.
    cbn [Py.startswith String.list_ascii_of_string] in H.
    apply andb_true_iff in H as [H _]. apply chr_eqb_eq in H. subst c.
    rewrite E, strip_comment_cut. unfold find_comment.
    rewrite find_comment_after_blank by trivial.
    replace (0 <=? 0 + Z.of_nat (length ws))%Z with true
      by (symmetry; apply Z.leb_le; lia).
    unfold Py.upto. replace (Z.to_nat (0 + Z.of_nat (length ws))) with (length ws + 0) by lia.
    rewrite firstn_app_2. cbn [firstn]. rewrite app_nil_r. now apply strip_blank.
Qed.

Lemma one_line_no_nl (s : str) : one_line s = true -> ~ In Py.NL s.
Proof. apply no_char_not_In. Qed.

Lemma normalize_lines (ls : list str) :
  Forall (fun l => ~ In Py.NL l) ls ->
  _normalize_content (Py.join [Py.NL] ls)
  = Py.join " " (filter Py.nonempty (map code_of ls)).
Proof.
  intro H. unfold _normalize_content. destruct ls as [|a ls]; [reflexivity|].
  rewrite split_join_lines; trivial. discriminate.
Qed.

Lemma codes_agree (ds : list layout_line) :
  forallb layout_ok ds = true ->
  filter Py.nonempty (map code_of (map new_line ds))
  = filter Py.nonempty (map code_of (flat_map old_line ds)).
Proof.
  induction ds as [|d ds IH]; intro H; trivial.
  cbn [forallb] in H. apply andb_true_iff in H as [Hd H].
  cbn [map flat_map]. rewrite map_app, filter_app, <- IH by trivial.
  destruct d as [w1 line w2|line]; cbn [layout_ok new_line old_line map filter app] in *.
  - repeat (apply andb_true_iff in Hd as [Hd ?]).
    rewrite code_of_padded by trivial.
    destruct (Py.nonempty (code_of line)); reflexivity.
  - apply andb_true_iff in Hd as [Hd _]. now rewrite code_of_added.
Qed.

Lemma layout_lines_clean (ds : list layout_line) :
  forallb layout_ok ds = true ->
  Forall (fun l => ~ In Py.NL l) (map new_line ds)
  /\ Forall (fun l => ~ In Py.NL l) (flat_map old_line ds).
Proof.
  induction ds as [|d ds IH]; intro H; [split; constructor|].
  cbn [forallb] in H. apply andb_true_iff in H as [Hd H].
  destruct (IH H) as [I1 I2]. cbn [map flat_map].
  destruct d as [w1 line w2|line]; cbn [layout_ok new_line old_line app] in *.
  - repeat (apply andb_true_iff in Hd as [Hd ?]).
    split; constructor; trivial; [|now apply one_line_no_nl].
    intro I. apply in_app_iff in I as [I|I]; [revert I; now apply one_line_no_nl|].
    apply in_app_iff in I as [I|I]; revert I; now apply one_line_no_nl.
  - apply andb_true_iff in Hd as [_ Hd]. split; trivial.
    constructor; trivial. now apply one_line_no_nl.
Qed.

(** X27.  Layout does not count as a difference.  When the inner text of a
    mod's block is the inner text of the base block with white space put in
    front of or behind its lines, and with blank lines and lines that hold
    only a comment added anywhere, the two texts have the same normal form,
    and [_blocks_differ] does not tell the blocks apart (in either
    direction). *)
Theorem layout_is_no_difference (ds : list layout_line) (nm nm' : str) :
  forallb layout_ok ds = true ->
  _normalize_content (new_text ds) = _normalize_content (old_text ds)
  /\ _blocks_differ (block_of nm (old_text ds)) (block_of nm' (new_text ds)) = false
  /\ _blocks_differ (block_of nm' (new_text ds)) (block_of nm (old_text ds)) = false.
Proof.
  intro H. destruct (layout_lines_clean ds H) as [C1 C2].
  assert (E : _normalize_content (new_text ds) = _normalize_content (old_text ds)).
  { unfold new_text, old_text. rewrite !normalize_lines by trivial.
    now rewrite codes_agree. }
  split; [exact E|].
  unfold _blocks_differ, block_of. cbn [inner_text]. rewrite E, str_eqb_refl.
  now split.
Qed.

Lemma layout_is_no_difference_witness :
  let ds := [Added "# the trigger"; Kept [Py.TAB] "a = 1 # one" "  "; Added "  ";
             Kept "    " "b = { c }" []] in
  new_text ds
  = "# the trigger" ++ [Py.NL] ++ [Py.TAB] ++ "a = 1 # one  " ++ [Py.NL] ++ "  " ++ [Py.NL]
    ++ "    b = { c }"
  /\ old_text ds = "a = 1 # one" ++ [Py.NL] ++ "b = { c }"
  /\ _blocks_differ (block_of "x" (old_text ds)) (block_of "x" (new_text ds)) = false.
Proof.
  intro ds. split; [reflexivity|]. split; [reflexivity|].
  exact (proj1 (proj2 (layout_is_no_difference ds "x" "x" eq_refl))).
Defined.

End LayoutFacts.

(** * Line endings *)

Module LineEndingFacts.

Import ParadoxRules StructuralMerger Pdx PdxParser MergeDefs MergeFacts ListTextFacts
       BlockParseFacts LineEndingDefs.

Lemma clean_line_facts (l : str) : clean_line l = true -> ~ In Py.CR l /\ ~ In Py.NL l.
Proof.
  intro H.
  split; apply no_char_not_In;
    (apply (OperatorFacts.forallb_impl
              (fun c => negb (Py.chr_eqb Py.CR c) && negb (Py.chr_eqb Py.NL c)));
     [intros x Hx; apply andb_true_iff in Hx; tauto|exact H]).
Qed.

Lemma replace_app_clean (l rest old' new : str) (c : ascii) :
  ~ In c l ->
  Py.replace (l ++ rest) (c :: old') new = l ++ Py.replace rest (c :: old') new.
Proof.
  intro H. induction l as [|x l IH]; [reflexivity|].
  unfold Py.replace at 1. cbn [app length Py.replace_fuel Py.startswith].
  destruct (Py.chr_eqb c x) eqn:E.
  - apply chr_eqb_eq in E. subst. elim H. now left.
  - cbn [andb]. f_equal. apply IH. intro I. apply H. now right.
Qed.

Lemma replace_at (old new rest : str) :
  old <> [] ->
  Py.replace (old ++ rest) old new = new ++ Py.replace rest old new.
Proof.
  intro H. unfold Py.replace at 1. cbn [Py.replace_fuel].
  rewrite DuplicateFacts.startswith_app. f_equal.
  rewrite skipn_app, skipn_all, Nat.sub_diag. cbn [skipn app].
  apply FuelFacts.replace_any_fuel; trivial.
  rewrite length_app. destruct old; [contradiction|cbn [length]; lia].
Qed.

Lemma replace_join (c : ascii) (sep' new : str) (ls : list str) :
  Forall (fun l => ~ In c l) ls ->
  Py.replace (Py.join (c :: sep') ls) (c :: sep') new = Py.join new ls.
Proof.
  induction 1 as [|a ls Ha Hls IH]; [reflexivity|].
  destruct ls as [|b ls].
  - cbn [Py.join]. rewrite <- (app_nil_r a) at 1.
    rewrite replace_app_clean by trivial. apply app_nil_r.
  - rewrite !join_cons by discriminate.
    rewrite replace_app_clean by trivial. rewrite replace_at by discriminate.
    now rewrite IH.
Qed.

Lemma replace_crlf_absent : forall fuel (s : str),
  ~ In Py.NL s -> Py.replace_fuel fuel s [Py.CR; Py.NL] [Py.NL] = s.
Proof.
  induction fuel as [|fuel IH]; intros s H; [reflexivity|].
  destruct s as [|x s]; [reflexivity|].
  cbn [Py.replace_fuel Py.startswith].
  assert (E : Py.startswith s [Py.NL] = false).
  { destruct s as [|y s']; [reflexivity|]. cbn [Py.startswith].
    destruct (Py.chr_eqb Py.NL y) eqn:E; [|reflexivity].
    apply chr_eqb_eq in E. subst. elim H. right. now left. }
  rewrite E, andb_false_r. f_equal. apply IH. intro I. apply H. now right.
Qed.

Section Lines.

Variable ls : list str.
Hypothesis Hls : forallb clean_line ls = true.

Lemma lines_no_cr : Forall (fun l => ~ In Py.CR l) ls.
Proof.
  apply Forall_forall. intros l Hl. rewrite forallb_forall in Hls.
  now destruct (clean_line_facts l (Hls l Hl)).
Qed.

Lemma lines_no_nl : Forall (fun l => ~ In Py.NL l) ls.
Proof.
  apply Forall_forall. intros l Hl. rewrite forallb_forall in Hls.
  now destruct (clean_line_facts l (Hls l Hl)).
Qed.

Lemma lf_text_no_cr : ~ In Py.CR (Py.join [Py.NL] ls).
Proof.
  intro I. apply In_join in I as [[I|[]]|(l & Hl & Hx)]; [discriminate|].
  pose proof lines_no_cr as H. rewrite Forall_forall in H. now apply (H l Hl).
Qed.

Lemma cr_text_no_nl : ~ In Py.NL (Py.join [Py.CR] ls).
Proof.
  intro I. apply In_join in I as [[I|[]]|(l & Hl & Hx)]; [discriminate|].
  pose proof lines_no_nl as H. rewrite Forall_forall in H. now apply (H l Hl).
Qed.

Lemma crlf_of_crlf : crlf_to_lf (Py.join [Py.CR; Py.NL] ls) = Py.join [Py.NL] ls.
Proof. unfold crlf_to_lf. apply replace_join. apply lines_no_cr. Qed.

Lemma crlf_of_lf : crlf_to_lf (Py.join [Py.NL] ls) = Py.join [Py.NL] ls.
Proof. unfold crlf_to_lf, Py.replace. apply replace_fuel_absent. apply lf_text_no_cr. Qed.

Lemma lines_of_crlf : RoundTripDefs.pdx_lines (Py.join [Py.CR; Py.NL] ls)
                      = RoundTripDefs.pdx_lines (Py.join [Py.NL] ls).
Proof.
  unfold RoundTripDefs.pdx_lines.
  fold (crlf_to_lf (Py.join [Py.CR; Py.NL] ls)). fold (crlf_to_lf (Py.join [Py.NL] ls)).
  now rewrite crlf_of_crlf, crlf_of_lf.
Qed.

Lemma lines_of_cr : RoundTripDefs.pdx_lines (Py.join [Py.CR] ls)
                    = RoundTripDefs.pdx_lines (Py.join [Py.NL] ls).
Proof.
  unfold RoundTripDefs.pdx_lines.
  fold (crlf_to_lf (Py.join [Py.NL] ls)). rewrite crlf_of_lf.
  unfold Py.replace at 2. rewrite replace_crlf_absent by apply cr_text_no_nl.
  rewrite replace_join by apply lines_no_cr.
  unfold Py.replace. rewrite replace_fuel_absent by apply lf_text_no_cr. reflexivity.
Qed.

End Lines.

Lemma parse_lines_eq (a b : str) :
  RoundTripDefs.pdx_lines a = RoundTripDefs.pdx_lines b -> parse a = parse b.
Proof. unfold parse, RoundTripDefs.pdx_lines. now intros ->. Qed.

(** X28.  The line ending does not matter.  For lines that hold no
    carriage return and no newline, the parser builds the same tree from
    the text that joins them with CR LF, with a lone CR, or with LF; and
    [merge_contents] returns the same result for a base and mods written
    with CR LF as for the same base and mods written with LF. *)
Theorem line_endings_do_not_matter
    (lines : list str) (mods : list (str * list str))
    (self : list MergeChange) (filename : str) :
  forallb clean_line lines = true ->
  forallb (fun m => forallb clean_line (snd m)) mods = true ->
  parse (text_with [Py.CR; Py.NL] lines) = parse (text_with [Py.NL] lines)
  /\ parse (text_with [Py.CR] lines) = parse (text_with [Py.NL] lines)
  /\ merge_contents self (text_with [Py.CR; Py.NL] lines)
       (map (fun m => (fst m, text_with [Py.CR; Py.NL] (snd m))) mods) filename
     = merge_contents self (text_with [Py.NL] lines)
         (map (fun m => (fst m, text_with [Py.NL] (snd m))) mods) filename.
Proof.
  intros Hl Hm. unfold text_with.
  split; [apply parse_lines_eq; now apply lines_of_crlf|].
  split; [apply parse_lines_eq; now apply lines_of_cr|].
  rewrite !merge_contents_eq. cbv zeta.
  rewrite crlf_of_crlf, crlf_of_lf by trivial.
  rewrite !map_map. cbn [fst snd].
  assert (E : map (fun x : str * list str =>
                     (fst x, crlf_to_lf (Py.join [Py.CR; Py.NL] (snd x)))) mods
              = map (fun x : str * list str =>
                       (fst x, crlf_to_lf (Py.join [Py.NL] (snd x)))) mods).
  { apply map_ext_in. intros m Hin. rewrite forallb_forall in Hm.
    now rewrite crlf_of_crlf, crlf_of_lf by now apply Hm. }
  now rewrite E.
Qed.

Lemma line_endings_do_not_matter_witness :
  parse ("a = {" ++ [Py.CR; Py.NL] ++ "x = 1" ++ [Py.CR; Py.NL] ++ "}")
  = parse ("a = {" ++ [Py.NL] ++ "x = 1" ++ [Py.NL] ++ "}").
Proof.
  exact (proj1 (line_endings_do_not_matter
                  ["a = {" : str; "x = 1" : str; "}" : str] [] [] [] eq_refl eq_refl)).
Defined.

End LineEndingFacts.

(** * Children are filed under their names *)

Module GroupingFacts.

Import ParadoxRules StructuralMerger TopLevelDefs TopLevelFacts GroupingDefs.

Lemma grouped_iff (b : ParsedBlock) : grouped b <-> grouped_children (children b).
Proof.
  destruct b as [n f i s e ind cm cs li pr]. cbn [children grouped].
  unfold grouped_children.
  induction cs as [|[nm l] cs IH].
  - split; [constructor|trivial].
  - split.
    + intros (Hne & Hl & Hcs). constructor; [|now apply IH].
      cbn [fst snd]. split; trivial. clear - Hl.
      induction l as [|c l IHl]; [constructor|].
      destruct Hl as (H1 & H2 & H3). constructor; [now split|now apply IHl].
    + intro H. inversion H as [|? ? [Hne Hl] Hcs]; subst. cbn [fst snd] in *.
      split; trivial. split; [|now apply IH].
      clear - Hl. induction Hl as [|c l [H1 H2] _ IHl]; [exact I|]. now split.
Qed.

Lemma grouped_set (cs : Dict.t (list ParsedBlock)) k l :
  grouped_children cs ->
  l <> [] -> Forall (fun c => name c = k /\ grouped c) l ->
  grouped_children (Dict.set cs k l).
Proof.
  intros H Hne Hl. induction H as [|[k0 l0] cs H0 H IH]; cbn [Dict.set].
  - constructor; [now split|constructor].
  - destruct (Py.str_eqb k0 k) eqn:E.
    + apply str_eqb_eq in E. subst. constructor; [now split|trivial].
    + constructor; trivial.
Qed.

Lemma grouped_get (cs : Dict.t (list ParsedBlock)) k l :
  grouped_children cs -> Dict.get cs k = Some l ->
  Forall (fun c => name c = k /\ grouped c) l.
Proof.
  intros H G. apply get_In in G. unfold grouped_children in H.
  rewrite Forall_forall in H. now destruct (H _ G).
Qed.

Lemma grouped_add_child (cs : Dict.t (list ParsedBlock)) (child : ParsedBlock) :
  grouped_children cs -> grouped child -> grouped_children (add_child cs child).
Proof.
  intros H Hc. unfold add_child.
  destruct (Dict.get cs (name child)) as [l|] eqn:G.
  - apply grouped_set; trivial; [now destruct l|].
    apply Forall_app. split; [now apply (grouped_get cs)|].
    constructor; [now split|constructor].
  - apply grouped_set; trivial; [discriminate|].
    constructor; [now split|constructor].
Qed.

Lemma parse_lines_grouped fuel : forall lines i acc,
  grouped_children (c_children acc) ->
  grouped_children (c_children (parse_lines fuel lines i acc)).
Proof.
  induction fuel as [|fuel IH]; intros lines i acc H; trivial.
  destruct lines as [|line rest]; trivial.
  cbn [parse_lines].
  destruct (negb (Py.nonempty (Py.strip line)) || Py.startswith (Py.strip line) "#");
    [now apply IH|].
  destruct (Re.rmatch RE_CHILD_BLOCK (Py.strip line)) as [[ms r]|].
  - destruct (Py.endswith (Py.rstrip (Re.item ms 6)) "}").
    + apply IH. cbn [c_children]. apply grouped_add_child; trivial.
      apply grouped_iff. constructor.
    + destruct (collect_child rest 1) as [taken left].
      apply IH. cbn [c_children]. apply grouped_add_child; trivial.
      apply grouped_iff. cbn [children]. apply IH. constructor.
  - destruct (Re.rmatch RE_PROPERTY (Py.strip line)) as [[ms r]|]; [now apply IH|].
    destruct (item_match (Py.strip line)); now apply IH.
Qed.

Lemma make_block_grouped bn line i ls : grouped (make_block bn line i ls).
Proof.
  apply grouped_iff. unfold make_block. cbn [children].
  unfold _parse_block_contents. apply parse_lines_grouped. constructor.
Qed.

Lemma scan_loop_grouped fuel : forall lines i b,
  In b (scan_loop fuel lines i) -> grouped b.
Proof.
  induction fuel as [|fuel IH]; intros lines i b H; [destruct H|].
  destruct lines as [|line rest]; [destruct H|].
  cbn [scan_loop] in H.
  destruct (negb (Py.nonempty (Py.strip line)) || Py.startswith (Py.strip line) "#");
    [now apply IH in H|].
  destruct (Re.rmatch RE_BLOCK_START (Py.strip line)) as [[ms r]|];
    [|now apply IH in H].
  destruct (collect_block (line :: rest) 0) as [block_lines left].
  destruct H as [<-|H]; [apply make_block_grouped|now apply IH in H].
Qed.

(** X29.  In every block of the merger's parse, at every depth, the
    children are filed under their own names: each child stored under a
    name has that name, and no name is stored with an empty list of
    children.  So the loop of the deep merge over the names and indices of
    the base children meets every child once, under its name. *)
Theorem children_are_filed_under_their_names (content nm : str) (b : ParsedBlock) :
  Dict.get (_parse_top_level_blocks content) nm = Some b ->
  grouped b
  /\ forall child_name l,
       In (child_name, l) (children b) ->
       l <> [] /\ forall c, In c l -> name c = child_name /\ grouped c.
Proof.
  intro H.
  assert (G : grouped b).
  { destruct (str_dec nm "__header__") as [->|N].
    - rewrite parse_top_level_blocks_eq in H. cbv zeta in H.
      destruct (snd (top_loop _ _ _ _ _)) as [|h hdr].
      + rewrite get_fold_store in H.
        destruct (last_named _ _) as [b0|] eqn:L; [|discriminate].
        injection H as <-. unfold last_named in L. apply find_some in L as [I _].
        apply in_rev in I. now apply scan_loop_grouped in I.
      + rewrite get_set_same in H. injection H as <-. exact I.
    - rewrite get_parse_top_level in H by trivial.
      unfold last_named in H. apply find_some in H as [I _].
      apply in_rev in I. now apply scan_loop_grouped in I. }
  split; [exact G|].
  intros child_name l Hin. apply grouped_iff in G.
  unfold grouped_children in G. rewrite Forall_forall in G.
  destruct (G _ Hin) as [Hne Hl]. cbn [fst snd] in *. split; trivial.
  rewrite Forall_forall in Hl. exact Hl.
Qed.

Lemma children_are_filed_under_their_names_witness :
  let content : str :=
    "on_birth = {" ++ [Py.NL] ++ "if = { a }" ++ [Py.NL] ++ "events = { b.1 }" ++ [Py.NL]
    ++ "if = {" ++ [Py.NL] ++ "limit = { c }" ++ [Py.NL] ++ "}" ++ [Py.NL] ++ "}" in
  exists b, Dict.get (_parse_top_level_blocks content) "on_birth" = Some b
            /\ grouped b
            /\ map (fun e : str * list ParsedBlock => (fst e, length (snd e))) (children b)
               = [("if" : str, 2); ("events" : str, 1)].
Proof.
  intro content.
  pose (b := MergeDefs.block_or_empty (Dict.get (_parse_top_level_blocks content) "on_birth")).
  assert (H : Dict.get (_parse_top_level_blocks content) "on_birth" = Some b)
    by (vm_compute; reflexivity).
  exists b. split; [exact H|]. split.
  - exact (proj1 (children_are_filed_under_their_names content "on_birth" b H)).
  - vm_compute. reflexivity.
Defined.

End GroupingFacts.
